(** * Personalised Assessment Generative Engine

    A shallow embedding of the three pipeline stages of the repository
    (dataset sampling, question/answer generation, Canvas quiz creation)
    and of their helper modules, with the properties of the specification
    stated and settled against the embedded code.

    JavaScript values are embedded as follows: an array is a [list]; an
    array read [a[i]] is the list lookup [a !! i], whose [None] is the
    JavaScript [undefined]; a string is a [string] of 8-bit characters; an
    object is the list of its properties in enumeration order. *)

From Stdlib Require Import String Ascii List ZArith Lia Sorted Permutation.
From Stdlib Require Import DecimalString.
From Stdlib Require Import DecimalPos.
From stdpp Require Import base list sorting strings.
Import ListNotations.

Local Open Scope string_scope.
Local Set Warnings "-register-all".

(** ** Strings and arrays of the JavaScript runtime *)

Module Js.

Definition LF : ascii := "010"%char.
Definition CR : ascii := "013"%char.

(** The double quote character, and a string put between double quotes. *)
Definition dquote : ascii := "034"%char.
Definition quoted (s : string) : string :=
  String dquote (s ++ String dquote EmptyString).

(** The one-character string ["\n"]. *)
Definition newline : string := String LF EmptyString.

(** [ToString] of an array element inside [Array.prototype.join]:
    [undefined] is rendered as the empty string. *)
Definition join_item (v : option string) : string :=
  match v with
  | Some s => s
  | None => ""
  end.

(** [array.join(sep)]. *)
Definition join (sep : string) (array : list (option string)) : string :=
  String.concat sep (map join_item array).

(** [array.indexOf(x)] on an array of numbers; [-1] when absent. *)
Fixpoint indexOf_from (i : Z) (x : nat) (array : list nat) : Z :=
  match array with
  | [] => (-1)%Z
  | y :: rest => if Nat.eqb y x then i else indexOf_from (i + 1)%Z x rest
  end.

Definition indexOf (x : nat) (array : list nat) : Z := indexOf_from 0%Z x array.

(** [array.sort((a, b) => a - b)] on an array of numbers: the ascending
    rearrangement of the array. *)
Definition sort_ascending (array : list nat) : list nat := merge_sort le array.

(** A string free of the line feed character. *)
Fixpoint no_LF (s : string) : bool :=
  match s with
  | EmptyString => true
  | String c rest => negb (Ascii.eqb c LF) && no_LF rest
  end.

(** The text of a file up to, and without, its first line feed. *)
Fixpoint first_line (text : string) : string :=
  match text with
  | EmptyString => EmptyString
  | String c rest => if Ascii.eqb c LF then EmptyString else String c (first_line rest)
  end.

(** *** Values *)

(** The values a parsed JSON document or a property read can yield.
    Numbers are the integers (no fraction, no [NaN]). *)
Inductive value :=
| VUndefined
| VNull
| VBool (b : bool)
| VNum (n : Z)
| VStr (s : string)
| VArr (items : list value)
| VObj (props : list (string * value)).

(** An object: its properties in enumeration order. *)
Definition object := list (string * value).

(** The outcome of a call that may throw. *)
Inductive result (A : Type) :=
| Ok (a : A)
| Throw (msg : string).
Arguments Ok {A} a.
Arguments Throw {A} msg.

(** [ToBoolean]. *)
Definition truthy (v : value) : bool :=
  match v with
  | VUndefined | VNull => false
  | VBool b => b
  | VNum n => negb (Z.eqb n 0)
  | VStr s => negb (String.eqb s "")
  | VArr _ | VObj _ => true
  end.

(** [obj[key]]: [undefined] for a missing property. *)
Fixpoint get (props : object) (key : string) : value :=
  match props with
  | [] => VUndefined
  | (k, v) :: rest => if String.eqb k key then v else get rest key
  end.

(** [obj[key] = v]: an existing property keeps its place. *)
Fixpoint set (props : object) (key : string) (v : value) : object :=
  match props with
  | [] => [(key, v)]
  | (k, w) :: rest =>
    if String.eqb k key then (k, v) :: rest else (k, w) :: set rest key v
  end.

(** [Object.keys(obj)], also the order of [for (key in obj)]. *)
Definition keys {A} (props : list (string * A)) : list string := map fst props.

Definition string_of_Z (n : Z) : string := NilEmpty.string_of_int (Z.to_int n).

(** [ToString], as applied by a template literal [`${v}`]. *)
Fixpoint to_string (v : value) : string :=
  match v with
  | VUndefined => "undefined"
  | VNull => "null"
  | VBool true => "true"
  | VBool false => "false"
  | VNum n => string_of_Z n
  | VStr s => s
  | VArr items =>
    String.concat ","
    (map (fun item =>
        match item with
        | VUndefined | VNull => ""
        | _ => to_string item
        end) items)
  | VObj _ => "[object Object]"
  end.

(** *** String methods *)

(** [s.split(c)] for a one-character separator. *)
Fixpoint split (sep : ascii) (s : string) : list string :=
  match s with
  | EmptyString => [EmptyString]
  | String c rest =>
    if Ascii.eqb c sep then EmptyString :: split sep rest
    else match split sep rest with
    | first :: others => String c first :: others
    | [] => [String c EmptyString]
    end
  end.

(** White space and line terminators among the 8-bit characters: TAB, LF,
    VT, FF, CR, space and the no-break space. *)
Definition is_space (c : ascii) : bool :=
  let n := nat_of_ascii c in
  (Nat.leb 9 n && Nat.leb n 13) || Nat.eqb n 32 || Nat.eqb n 160.

Fixpoint trimStart (s : string) : string :=
  match s with
  | EmptyString => EmptyString
  | String c rest => if is_space c then trimStart rest else s
  end.

Fixpoint trimEnd (s : string) : string :=
  match s with
  | EmptyString => EmptyString
  | String c rest =>
    match trimEnd rest with
    | EmptyString => if is_space c then EmptyString else String c EmptyString
    | kept => String c kept
    end
  end.

(** [s.trim()]. *)
Definition trim (s : string) : string := trimEnd (trimStart s).

(** The characters matched by [.] in a regular expression without the
    [s] flag: all but the line terminators. *)
Definition dot (c : ascii) : bool := negb (Ascii.eqb c LF || Ascii.eqb c CR).

Fixpoint all_dot (s : string) : bool :=
  match s with
  | EmptyString => true
  | String c rest => dot c && all_dot rest
  end.

(** A greedy capturing group of dots (any number of them) followed by the
    literal [tail] and the end anchor: the group first takes the next
    character and gives it back when the rest of the pattern then fails. *)
Fixpoint star_then (tail : string) (s : string) : option string :=
  match s with
  | EmptyString => if String.eqb s tail then Some EmptyString else None
  | String c rest =>
    match (if dot c then star_then tail rest else None) with
    | Some group => Some (String c group)
    | None => if String.eqb s tail then Some EmptyString else None
    end
  end.

(** [s.replace(/\n/g, by)]. *)
Fixpoint replace_LF (by_ : string) (s : string) : string :=
  match s with
  | EmptyString => EmptyString
  | String c rest =>
    if Ascii.eqb c LF then by_ ++ replace_LF by_ rest
    else String c (replace_LF by_ rest)
  end.

(** [/q$/.test(s)]. *)
Fixpoint ends_with_q (s : string) : bool :=
  match s with
  | EmptyString => false
  | String c EmptyString => Ascii.eqb c "q"
  | String _ rest => ends_with_q rest
  end.

(** [s.replace(/.$/, "a")]: the last character, unless it is a line
    terminator, becomes ["a"]. *)
Fixpoint replace_last_with_a (s : string) : string :=
  match s with
  | EmptyString => EmptyString
  | String c EmptyString => if dot c then "a" else s
  | String c rest => String c (replace_last_with_a rest)
  end.

End Js.

(** ** Stage 1: dataset sampling ([1.Ready/1.Test/app.js]) *)

Module Sampler.

Definition NUM_VERSIONS : nat := 3.
Definition outPath : string := "outFiles".
Definition numToPickMin : N := 16450.
Definition numToPickMax : N := 16550.

(** [_.range(n)]. *)
Definition range (n : nat) : list nat := seq 0 n.

(** lodash's [baseSortedUniq]: an element is kept when it is the first
    one or differs from the last element seen. *)
Fixpoint sortedUniq_seen (seen : nat) (array : list nat) : list nat :=
  match array with
  | [] => []
  | value :: rest =>
    if Nat.eqb value seen then sortedUniq_seen seen rest
    else value :: sortedUniq_seen value rest
  end.

Definition sortedUniq (array : list nat) : list nat :=
  match array with
  | [] => []
  | value :: rest => value :: sortedUniq_seen value rest
  end.

(** The two random draws made for one version. *)
Record draw := Draw {
  numToPick : N;            (* _.random(numToPickMin, numToPickMax) *)
  sampled : list nat        (* _.sampleSize(lineNums, numToPick) *)
}.

(** What lodash guarantees of the draws: [numToPick] lies between the two
    bounds, and the sample consists of [numToPick] elements of [lineNums]
    taken at distinct positions (all of them when there are fewer). *)
Definition drawn_from (lineNums : list nat) (d : draw) : Prop :=
  (numToPickMin <= numToPick d <= numToPickMax)%N /\
  sampled d ⊆+ lineNums /\
  N.of_nat (length (sampled d)) = N.min (numToPick d) (N.of_nat (length lineNums)).

(** [pickLines] of the shared utility module. *)
Definition pickLines (linesToPick : list nat) (srcArray : list string)
  : list (option string) :=
  map (fun lineNumber => srcArray !! lineNumber) linesToPick.

(** The line numbers selected for one version: sorted, made unique, and
    with the header's line number put in front when it is missing. *)
Definition selectedLineNumbers (d : draw) : list nat :=
  let selected := sortedUniq (Js.sort_ascending (sampled d)) in
  if Z.eqb (Js.indexOf 0 selected) (-1) then 0 :: selected else selected.

(** The lines emitted for one version, and the text written to its file. *)
Definition emittedLines (studentLines : list string) (d : draw)
  : list (option string) :=
  map (fun v => studentLines !! v) (selectedLineNumbers d).

Definition writtenText (studentLines : list string) (d : draw) : string :=
  Js.join Js.newline (emittedLines studentLines d).

Definition outFile (hash : string) : string :=
  outPath ++ "/" ++ hash ++ "/Video Game Sales.csv".

(** [processOutFiles]: the files written (path and text), one per version
    hash, in the order of [hashes]; [draws i] gives the random draws made
    for the [i]-th version. *)
Definition processOutFiles (studentLines : list string) (hashes : list string)
  (draws : nat -> draw) : list (string * string) :=
  imap (fun i hash => (outFile hash, writtenText studentLines (draws i))) hashes.

End Sampler.


(** ** Stage 2: CSV helper module ([2.Aim/2.Test/util.js]) *)

Module QaUtil.
Import Js.

(** Column numbers of the data set. *)
Definition header_Name : nat := 1.
Definition header_Year : nat := 3.
Definition header_Publisher : nat := 5.
Definition header_NA_Sales : nat := 6.
Definition header_JP_Sales : nat := 8.
Definition header_Global_Sales : nat := 10.

(** What the CSV parser returns: the rows and the errors it met. *)
Record parse_error := ParseError { message : string }.

Record parse_result := ParseResult {
  data : list (list string);
  errors : list parse_error
}.

Section Parser.

(** [Baby.parseFiles] with the options of the module; it throws when the
    file cannot be read. *)
Variable parseFiles : string -> result parse_result.

(** [exports.parseStudentAnswerCsv]: the lines written with
    [console.error], and the outcome of the call. *)
Definition parseStudentAnswerCsv (file : string)
  : list string * result (list (list string)) :=
  match parseFiles file with
  | Throw msg => ([], Throw msg)
  | Ok csv =>
    if Nat.ltb 0 (length (errors csv)) then
      (map message (errors csv), Throw "Could not parse the CSV file.")
    else ([], Ok (data csv))
  end.

End Parser.

End QaUtil.

(** ** Stage 2: question and answer generation ([2.Aim/2.Test/app.js]) *)

Module QaGen.
Import Js QaUtil.

Definition inPath : string := "inFiles".
Definition answerFileName : string := "Video Game Sales.csv".

(** [s.includes(sub)]. *)
Fixpoint includes (s sub : string) : bool :=
  String.prefix sub s ||
  match s with
  | EmptyString => false
  | String _ rest => includes rest sub
  end.

(** [studentQA[hash] = entry]. *)
Fixpoint put (obj : list (string * object)) (hash : string) (entry : object)
  : list (string * object) :=
  match obj with
  | [] => [(hash, entry)]
  | (k, e) :: rest =>
    if String.eqb k hash then (k, entry) :: rest else (k, e) :: put rest hash entry
  end.

Fixpoint entry_of (obj : list (string * object)) (hash : string) : option object :=
  match obj with
  | [] => None
  | (k, e) :: rest => if String.eqb k hash then Some e else entry_of rest hash
  end.

(** [studentQA[hash][key] = text]: a type error when [studentQA[hash]] is
    [undefined]. *)
Definition assign (studentQA : list (string * object)) (hash key text : string)
  : result (list (string * object)) :=
  match entry_of studentQA hash with
  | Some entry => Ok (put studentQA hash (set entry key (VStr text)))
  | None =>
    Throw ("TypeError: Cannot set properties of undefined (setting '" ++ key ++ "')")
  end.

(** The random numbers drawn for one version: the year of question 1, the
    index into [names] of question 2, the coin of question 3, and the two
    numbers of question 4. *)
Record draws := Draws {
  year : Z;
  randIndex : nat;
  isNintendo : bool;
  randX : Z;
  randY : Z
}.

Inductive event :=
| ConsoleLog (text : string)
| ConsoleError (text : string)
| WriteFile (file : string) (object : list (string * object))
| ProcessExit
| Uncaught (msg : string).

Record state := State {
  numLeft : Z;
  studentQA : list (string * object);
  trace : list event
}.

(** The process is still running, or has ended (exit or uncaught
    exception, the last event of the trace). *)
Inductive outcome :=
| Running (st : state)
| Ended (st : state).

Section Script.

Variable HASHES : list string.
Variable outFile : string.
Variable parseFiles : string -> result parse_result.

(** The two answers computed in floating point, as texts with two
    decimals: the North America minus Japan sales of a year, and the global
    sales of the games that are, or are not, published by Nintendo. *)
Variable salesDifference : list (list string) -> Z -> string.
Variable globalSales : list (list string) -> bool -> string.

Definition questionOne (hash : string) (csv : list (list string)) (d : draws)
  (studentQA : list (string * object)) : result (list (string * object)) :=
  match assign studentQA hash "q1q"
    ("For video games released in the year " ++ quoted (string_of_Z (year d))
      ++ ", how many more sales units were made in North America compared to Japan?")
    with
  | Ok studentQA => assign studentQA hash "q1a" (salesDifference csv (year d))
  | Throw msg => Throw msg
  end.

Definition names : list string :=
  ["Pokemon"; "Wii"; "Super Mario"; "Grand Theft Auto"].

(** The loop of question 2 over the rows after the header: the number of
    games counted, or the type error of a row without a name column. *)
Fixpoint countGames (name : string) (rows : list (list string)) (numGames : Z)
  : result Z :=
  match rows with
  | [] => Ok numGames
  | row :: rest =>
    match row !! header_Name with
    | Some title =>
      countGames name rest (if includes title name then numGames + 1 else numGames)%Z
    | None => Throw "TypeError: Cannot read properties of undefined (reading 'includes')"
    end
  end.

Definition questionTwo (hash : string) (csv : list (list string)) (d : draws)
  (studentQA : list (string * object)) : result (list (string * object)) :=
  let name := match names !! randIndex d with Some n => n | None => "undefined" end in
  match countGames name (tail csv) 0 with
  | Throw msg => Throw msg
  | Ok numGames =>
    match assign studentQA hash "q2q"
      ("How many video games contain " ++ quoted name ++ " in their name?")
      with
    | Ok studentQA => assign studentQA hash "q2a" (string_of_Z numGames)
    | Throw msg => Throw msg
    end
  end.

Definition questionThree (hash : string) (csv : list (list string)) (d : draws)
  (studentQA : list (string * object)) : result (list (string * object)) :=
  let conditionText := if isNintendo d then "are" else "are <strong>not</strong>" in
  match assign studentQA hash "q3q"
    ("What are the total global sales for games that " ++ conditionText
      ++ " published by Nintendo?")
    with
  | Ok studentQA => assign studentQA hash "q3a" (globalSales csv (isNintendo d))
  | Throw msg => Throw msg
  end.

Definition questionFour (hash : string) (csv : list (list string)) (d : draws)
  (studentQA : list (string * object)) : result (list (string * object)) :=
  let solution := (8 * randX d + randY d)%Z in
  match assign studentQA hash "q4q"
    ("What is 8x + y, where x = " ++ string_of_Z (randX d) ++ " and y = "
      ++ string_of_Z (randY d) ++ "?")
    with
  | Ok studentQA => assign studentQA hash "q4a" (string_of_Z solution)
  | Throw msg => Throw msg
  end.

(** [async.series] over the four questions. *)
Definition questions (hash : string) (csv : list (list string)) (d : draws)
  (studentQA : list (string * object)) : result (list (string * object)) :=
  match questionOne hash csv d studentQA with
  | Throw msg => Throw msg
  | Ok studentQA =>
    match questionTwo hash csv d studentQA with
    | Throw msg => Throw msg
    | Ok studentQA =>
      match questionThree hash csv d studentQA with
      | Throw msg => Throw msg
      | Ok studentQA => questionFour hash csv d studentQA
      end
    end
  end.

Definition log (events : list event) (st : state) : state :=
  {| numLeft := numLeft st; studentQA := studentQA st;
    trace := (trace st ++ events)%list |}.

Definition printWhenDone (hash : string) (st : state) : outcome :=
  let st := {| numLeft := numLeft st - 1; studentQA := studentQA st;
    trace := (trace st ++ [ConsoleLog ("FINISHED " ++ hash)])%list |} in
  if Z.eqb (numLeft st) 0 then
    Ended (log [WriteFile outFile (studentQA st);
        ConsoleLog ("All done. Answer file written to " ++ outFile);
        ProcessExit] st)
  else Running st.

Definition csvFile (hash : string) : string :=
  inPath ++ "/" ++ hash ++ "/" ++ answerFileName.

(** The iteratee of [async.each] for one version. *)
Definition processVersion (hash : string) (d : draws) (st : state) : outcome :=
  match parseStudentAnswerCsv parseFiles (csvFile hash) with
  | (logged, Throw msg) =>
    Ended (log (map ConsoleError logged ++ [Uncaught msg])%list st)
  | (_, Ok csv) =>
    match questions hash csv d (put (studentQA st) hash []) with
    | Throw msg => Ended (log [Uncaught msg] st)
    | Ok studentQA =>
      printWhenDone hash
      {| numLeft := numLeft st; studentQA := studentQA; trace := trace st |}
    end
  end.

(** [async.each] over the hashes; version [i] uses the draws [rand i]. *)
Fixpoint eachVersion (i : nat) (hashes : list string) (rand : nat -> draws)
  (st : state) : outcome :=
  match hashes with
  | [] => Running st
  | hash :: rest =>
    match processVersion hash (rand i) st with
    | Running st => eachVersion (S i) rest rand st
    | Ended st => Ended st
    end
  end.

Definition script (rand : nat -> draws) : outcome :=
  eachVersion 0 HASHES rand
  {| numLeft := Z.of_nat (length HASHES); studentQA := []; trace := [] |}.

(** The property keys of a generated entry. *)
Definition qaKeys : list string :=
  ["q1q"; "q1a"; "q2q"; "q2a"; "q3q"; "q3a"; "q4q"; "q4a"].

(** The CSV file of a version can be used: it parses without errors and
    every row after the header has a name column. *)
Definition usable (hash : string) : Prop :=
  exists csv,
    parseFiles (csvFile hash) = Ok csv /\ errors csv = [] /\
    Forall (fun row => header_Name < length row) (tail (data csv)).

(** An object with a generated entry for a hash. *)
Definition generated (obj : list (string * object)) (hash : string) : Prop :=
  exists entry,
    entry_of obj hash = Some entry /\ keys entry = qaKeys /\
    Forall (fun field => exists text, field.2 = VStr text) entry.

End Script.

End QaGen.

(** ** Stage 3: Canvas helper module ([3.Shoot/TEST 101/util.js]) *)

Module CanvasUtil.
Import Js.

(** The module's two variables, [init] and [auth]. *)
Record module_state := ModuleState {
  initialized : bool;     (* let init = false *)
  auth : value            (* let auth *)
}.

Definition initial_state : module_state :=
  {| initialized := false; auth := VUndefined |}.

Definition initErrMsg : string :=
  "util.js has not been initialized with a valid Canvas API access token."
  ++ newline ++ "Call init(token) first before using other functions.".

(** [exports.init]. *)
Definition init (token : value) (st : module_state) : module_state :=
  {| initialized := true; auth := VStr ("Bearer " ++ to_string token) |}.

Record header_fields := HeaderFields {
  Content_Type : string;
  Authorization : value
}.

(** The argument object handed to the REST client; [data] is [undefined]
    when the object has no such property. *)
Record request_args := RequestArgs {
  headers : header_fields;
  data : value
}.

Definition getStandardHeader (st : module_state) : result header_fields :=
  if negb (initialized st) then Throw initErrMsg
  else Ok {| Content_Type := "application/json"; Authorization := auth st |}.

(** An object literal with a [headers] property computed first. *)
Definition with_header (st : module_state) (d : value) : result request_args :=
  match getStandardHeader st with
  | Ok h => Ok {| headers := h; data := d |}
  | Throw msg => Throw msg
  end.

(** The next-page pattern: [<], a greedy capturing group of dots, then
    [>; rel="next"] up to the end of the string. *)
Definition next_tail : string := ">; rel=" ++ quoted "next".

Definition nextRegEx_exec (s : string) : option string :=
  match s with
  | String c rest => if Ascii.eqb c "<" then star_then next_tail rest else None
  | EmptyString => None
  end.

(** The loop over [links]: the group of the first matching entry. *)
Fixpoint first_next (links : list string) : option string :=
  match links with
  | [] => None
  | link :: rest =>
    match nextRegEx_exec (trim link) with
    | Some url => Some url
    | None => first_next rest
    end
  end.

(** [exports.nextURL]; [None] is the JavaScript [null]. *)
Definition nextURL (linkText : value) : result (option string) :=
  if truthy linkText then
    match linkText with
    | VStr s => Ok (first_next (split "," s))
    | _ => Throw "TypeError: linkText.split is not a function"
    end
  else Ok None.

(** An entry of the exact form [<URL>; rel="next"], for a [URL] without
    line terminators. *)
Definition has_next_form (entry url : string) : Prop :=
  entry = "<" ++ url ++ ">; rel=" ++ quoted "next" /\ all_dot url = true.

Definition standardArgs (st : module_state) : result request_args :=
  with_header st VUndefined.

Definition newReportArgs (st : module_state) : result request_args :=
  with_header st
  (VObj [("include", VStr "file");
      ("quiz_report",
        VObj [("includes_all_versions", VBool true);
          ("report_type", VStr "student_analysis")])]).

Definition newQuizArgs (title description pointsPossible numberOfAttempts group
    hideRes : value) (st : module_state) : result request_args :=
  let hideRes := match hideRes with VUndefined => VNull | given => given end in
  with_header st
  (VObj [("quiz",
        VObj [("title", VStr (to_string title));
          ("description", VStr (to_string description));
          ("type", VStr "assignment");
          ("points_possible", VStr (to_string pointsPossible));
          ("scoring_policy", VStr "keep_highest");
          ("show_correct_answers", VBool false);
          ("allowed_attempts", VStr (to_string numberOfAttempts));
          ("published", VBool false);
          ("only_visible_to_overrides", VBool true);
          ("assignment_group_id", group);
          ("hide_results", hideRes)])]).

Definition editQuizArgs (quizObject : value) (st : module_state)
  : result request_args :=
  with_header st (VObj [("quiz", quizObject)]).

Definition saveQuizArgs (id : value) (st : module_state) : result request_args :=
  with_header st (VObj [("quizzes", VArr [id])]).

Definition paragraph (questionText : value) : value :=
  VStr ("<p>" ++ to_string questionText ++ "</p>").

Definition newQuestionArgs (position questionName pointsPossible questionText
    answerText : value) (st : module_state) : result request_args :=
  with_header st
  (VObj [("question",
        VObj [("position", position);
          ("name", questionName);
          ("question_type", VStr "short_answer_question");
          ("question_text", paragraph questionText);
          ("points_possible", VStr (to_string pointsPossible));
          ("answers",
            VArr [VObj [("answer_text", VStr (to_string answerText));
                ("answer_weight", VNum 100)]])])]).

Definition newLongQuestionArgs (position questionName pointsPossible
    questionText : value) (st : module_state) : result request_args :=
  with_header st
  (VObj [("question",
        VObj [("position", position);
          ("name", questionName);
          ("question_type", VStr "essay_question");
          ("question_text", paragraph questionText);
          ("points_possible", VStr (to_string pointsPossible))])]).

Definition newBlankQuestionArgs (position questionText : value)
  (st : module_state) : result request_args :=
  with_header st
  (VObj [("question",
        VObj [("position", position);
          ("question_type", VStr "text_only_question");
          ("question_text", paragraph questionText)])]).

Definition newFileQuestionArgs (position questionText : value)
  (st : module_state) : result request_args :=
  with_header st
  (VObj [("question",
        VObj [("position", position);
          ("question_type", VStr "file_upload_question");
          ("question_text", paragraph questionText)])]).

Definition editQuestionArgs (questionObject : value) (st : module_state)
  : result request_args :=
  with_header st (VObj [("question", questionObject)]).

Definition newOverrideArgs (startDate lockAndDueDate studentIds : value)
  (st : module_state) : result request_args :=
  with_header st
  (VObj [("assignment_override",
        VObj [("unlock_at", VStr (to_string startDate));
          ("lock_at", VStr (to_string lockAndDueDate));
          ("due_at", VStr (to_string lockAndDueDate));
          ("student_ids", studentIds)])]).

Definition newPublishQuizArgs (st : module_state) : result request_args :=
  with_header st
  (VObj [("quiz",
        VObj [("published", VBool true);
          ("notify_of_update", VBool false)])]).

(** A call of one of the exported request-argument constructors. *)
Inductive constructor_call :=
| StandardArgs
| NewReportArgs
| NewQuizArgs (title description pointsPossible numberOfAttempts group hideRes : value)
| EditQuizArgs (quizObject : value)
| SaveQuizArgs (id : value)
| NewQuestionArgs (position questionName pointsPossible questionText answerText : value)
| NewLongQuestionArgs (position questionName pointsPossible questionText : value)
| NewBlankQuestionArgs (position questionText : value)
| NewFileQuestionArgs (position questionText : value)
| EditQuestionArgs (questionObject : value)
| NewOverrideArgs (startDate lockAndDueDate studentIds : value)
| NewPublishQuizArgs.

Definition construct (call : constructor_call) (st : module_state)
  : result request_args :=
  match call with
  | StandardArgs => standardArgs st
  | NewReportArgs => newReportArgs st
  | NewQuizArgs t d p n g h => newQuizArgs t d p n g h st
  | EditQuizArgs q => editQuizArgs q st
  | SaveQuizArgs id => saveQuizArgs id st
  | NewQuestionArgs p n pts q a => newQuestionArgs p n pts q a st
  | NewLongQuestionArgs p n pts q => newLongQuestionArgs p n pts q st
  | NewBlankQuestionArgs p q => newBlankQuestionArgs p q st
  | NewFileQuestionArgs p q => newFileQuestionArgs p q st
  | EditQuestionArgs q => editQuestionArgs q st
  | NewOverrideArgs s l ids => newOverrideArgs s l ids st
  | NewPublishQuizArgs => newPublishQuizArgs st
  end.

(** The module state after a sequence of [init] calls, oldest first. *)
Definition after_inits (tokens : list value) : module_state :=
  fold_left (fun st token => init token st) tokens initial_state.

(** The object returned by [checkTruthy]: empty, or with an [errors]
    array. *)
Record check_result := CheckResult { errors : option (list string) }.

Definition addError (resultObject : check_result) (msg : string) : check_result :=
  match errors resultObject with
  | None => {| errors := Some [msg] |}
  | Some reported => {| errors := Some (reported ++ [msg])%list |}
  end.

(** [aVal === undefined || aVal === null || aVal === ""]. *)
Definition missing_answer (aVal : value) : bool :=
  match aVal with
  | VUndefined | VNull => true
  | VStr s => String.eqb s ""
  | _ => false
  end.

(** An entry has an unanswered question when one of its keys ends in
    [q] and the key with that [q] replaced by [a] holds [undefined],
    [null] or the empty string. *)
Definition unanswered (entry : object) : Prop :=
  exists stem,
    (stem ++ "q") ∈ keys entry /\
    (get entry (stem ++ "a") = VUndefined \/
      get entry (stem ++ "a") = VNull \/
      get entry (stem ++ "a") = VStr "").

(** An entry lacks a property when reading it gives nothing truthy: the
    property is absent, or holds an empty value. *)
Definition lacks (entry : object) (key : string) : Prop :=
  truthy (get entry key) = false.

(** The inner loop of [checkTruthy] over the keys of one entry. *)
Definition check_answers (auid : string) (entry : object)
  (result : check_result) : check_result :=
  fold_left
  (fun res key =>
    if ends_with_q key then
      let aKey := replace_last_with_a key in
      let aVal := get entry aKey in
      if missing_answer aVal then
        addError res (auid ++ " - Missing or invalid answer for key: " ++ aKey)
    else res
    else res)
  (keys entry) result.

Definition check_entry (auid : string) (entry : object)
  (result : check_result) : check_result :=
  let result := check_answers auid entry result in
  if negb (truthy (get entry "fileName") && truthy (get entry "fileUrl")) then
    addError result (auid ++ ": Missing fileName or fileUrl")
  else result.

(** [exports.checkTruthy] on an object whose properties are objects. *)
Definition checkTruthy (QaObject : list (string * object)) : check_result :=
  fold_left (fun res '(auid, entry) => check_entry auid entry res)
  QaObject {| errors := None |}.

End CanvasUtil.

(** ** The version hashes ([1.Ready/0.Create-Zip/hash.js]) *)

Module Hash.
Definition HASHES : list string := ["iG6Zp4WDF"; "Z8lZJChRtn"; "F29R1ibztX"].
End Hash.

(** ** Stage 3: quiz creation ([3.Shoot/TEST 101/CreateTest.js]) *)

Module CreateTest.
Import Js CanvasUtil.

Definition NUM_VERSIONS : Z := 3.
Definition COURSE_ID : Z := 0.
Definition DOMAIN : string := "https://auckland.test.instructure.com".
Definition HASHES : list string := Hash.HASHES.
Definition Q_PREFIX : string := "".
Definition ASSIGNMENT_TITLE : string := "Test Assessment".
Definition STARTING_Q_NUMBER : nat := 1.
Definition ASSIGNMENT_GROUP : Z := 0.
Definition NUMBER_OF_ATTEMPTS : Z := 1.
Definition TOTAL_MARKS_PER_QUIZ : Z := 100.
Definition NUMBER_OF_QUESTIONS_PER_QUIZ : nat := 4.
Definition MARKS_PER_QUESTION : Z :=
  TOTAL_MARKS_PER_QUIZ / Z.of_nat NUMBER_OF_QUESTIONS_PER_QUIZ.
Definition BONUS_Q : object := [].
Definition TOKEN : string := "".

(** The helper module after [util.init(TOKEN)]. *)
Definition util : module_state := init (VStr TOKEN) initial_state.

(** *** [parseInt] *)

Definition digit_value (radix : Z) (c : ascii) : option Z :=
  let n := Z.of_nat (nat_of_ascii c) in
  let d := if (48 <=? n)%Z && (n <=? 57)%Z then Some (n - 48)%Z
  else if (97 <=? n)%Z && (n <=? 122)%Z then Some (n - 87)%Z
  else if (65 <=? n)%Z && (n <=? 90)%Z then Some (n - 55)%Z
  else None in
  match d with
  | Some d => if (d <? radix)%Z then Some d else None
  | None => None
  end.

(** The number denoted by the longest prefix of digits; [acc] is [None]
    until a digit has been read. *)
Fixpoint parse_digits (radix : Z) (acc : option Z) (s : string) : option Z :=
  match s with
  | EmptyString => acc
  | String c rest =>
    match digit_value radix c with
    | Some d =>
      parse_digits radix
      (Some (radix * match acc with Some a => a | None => 0 end + d)%Z) rest
    | None => acc
    end
  end.

(** [parseInt(v)] without a radix; [None] is [NaN].  The result is the
    mathematical integer read, which a JavaScript number holds exactly up
    to 2^53; [nearest_double] below gives the number returned for the
    larger ones. *)
Definition parseInt (v : value) : option Z :=
  let s := trimStart (to_string v) in
  let '(sign, s) :=
    match s with
    | String c rest =>
      if Ascii.eqb c "-" then ((-1)%Z, rest)
      else if Ascii.eqb c "+" then (1%Z, rest)
      else (1%Z, s)
    | EmptyString => (1%Z, s)
    end in
  let '(radix, s) :=
    match s with
    | String c (String x rest) =>
      if Ascii.eqb c "0" && (Ascii.eqb x "x" || Ascii.eqb x "X")
      then (16%Z, rest) else (10%Z, s)
    | _ => (10%Z, s)
    end in
  match parse_digits radix None s with
  | Some n => Some (sign * n)%Z
  | None => None
  end.

(** The number that holds an integer: the integer itself up to 2^53 in
    magnitude, from there on the nearest double (its 53 leading bits,
    rounded to nearest, ties to even); [None] is an infinity, from 2^1024
    on. *)
Definition nearest_double (n : Z) : option Z :=
  let a := Z.abs n in
  if (a <? 2 ^ 53)%Z then Some n
  else
    let e := (Z.log2 a - 52)%Z in
    let q := Z.shiftr a e in
    let r := Z.land a (Z.ones e) in
    let half := (2 ^ (e - 1))%Z in
    let q := if (half <? r)%Z || ((r =? half)%Z && Z.odd q) then (q + 1)%Z else q in
    let m := Z.shiftl q e in
    if (2 ^ 1024 <=? m)%Z then None else Some (Z.sgn n * m)%Z.

(** [parseInt(v) % modulus]: the remainder has the sign of the dividend;
    [None] is [NaN], the remainder of [NaN] and of an infinity. *)
Definition remainder (v : value) (modulus : Z) : option Z :=
  match parseInt v with
  | Some n =>
    match nearest_double n with
    | Some d => Some (Z.rem d modulus)
    | None => None
    end
  | None => None
  end.

(** [array[index]] for a number [index]; [None] is [undefined]. *)
Definition at_index {A} (array : list A) (index : option Z) : option A :=
  match index with
  | Some i => if (i <? 0)%Z then None else array !! Z.to_nat i
  | None => None
  end.

(** The property key a value is converted to. *)
Definition key_of (v : option string) : string :=
  match v with
  | Some s => s
  | None => "undefined"
  end.

(** [v.key] for one of the keys read by this script ([id],
    [assignment_id], [sis_user_id]): a type error on [undefined] and
    [null], [undefined] on the other values that are not objects. *)
Definition prop (v : value) (key : string) : result value :=
  match v with
  | VObj props => Ok (get props key)
  | VUndefined | VNull =>
    Throw ("TypeError: Cannot read properties of " ++ to_string v
      ++ " (reading '" ++ key ++ "')")
  | _ => Ok VUndefined
  end.

(** *** Objects of objects *)

Fixpoint lookup_entry {A} (obj : list (string * A)) (key : string) : option A :=
  match obj with
  | [] => None
  | (k, v) :: rest => if String.eqb k key then Some v else lookup_entry rest key
  end.

Fixpoint update_entry {A} (obj : list (string * A)) (key : string) (v : A)
  : list (string * A) :=
  match obj with
  | [] => []
  | (k, w) :: rest =>
    if String.eqb k key then (k, v) :: rest
    else (k, w) :: update_entry rest key v
  end.

(** One row of the file-URL table loaded by [loadStudentFilesUrls]. *)
Record file_entry := FileEntry { fileName : string; fileUrl : string }.

(** [_.merge(s, studentsFileUrls[version])]. *)
Definition merge_files (s : object) (source : option file_entry) : object :=
  match source with
  | None => s
  | Some f => set (set s "fileName" (VStr (fileName f))) "fileUrl" (VStr (fileUrl f))
  end.

Definition merge_all (studentsQA : list (string * object))
  (studentsFileUrls : list (string * file_entry)) : list (string * object) :=
  map (fun '(version, s) => (version, merge_files s (lookup_entry studentsFileUrls version)))
  studentsQA.

(** *** The script as a process *)

Record response := Response {
  statusCode : Z;
  statusMessage : string;
  link : value                 (* response.headers.link *)
}.

Inductive event :=
| ConsoleLog (text : string)
| ConsoleError (text : string)
| HttpGet (url : string) (args : request_args)
| HttpPost (url : string) (args : request_args)
| HttpPut (url : string) (args : request_args)
| ProcessExit
| Uncaught (msg : string).

Record state := State {
  studentsQA : list (string * object);
  quizIds : list string;
  trace : list event           (* what the process has done, oldest first *)
}.

(** How a piece of the script ends: it calls its continuation, the
    process stops (exit or uncaught exception, the last event of the
    trace), or the pagination bound of the model is used up. *)
Inductive run (A : Type) :=
| Continue (a : A) (st : state)
| Stop (st : state)
| Unfinished (st : state).
Arguments Continue {A} a st.
Arguments Stop {A} st.
Arguments Unfinished {A} st.

Definition action (A : Type) := state -> run A.

Definition ret {A} (a : A) : action A := fun st => Continue a st.

Definition bind {A B} (m : action A) (k : A -> action B) : action B :=
  fun st =>
  match m st with
  | Continue a st' => k a st'
  | Stop st' => Stop st'
  | Unfinished st' => Unfinished st'
  end.

#[global] Instance action_ret : MRet action := @ret.
#[global] Instance action_bind : MBind action := fun A B k m => bind m k.

Definition record_event (e : event) (st : state) : state :=
  {| studentsQA := studentsQA st; quizIds := quizIds st;
    trace := (trace st ++ [e])%list |}.

Definition emit (e : event) : action unit :=
  fun st => Continue tt (record_event e st).

Definition crash {A} (msg : string) : action A :=
  fun st => Stop (record_event (Uncaught msg) st).

Definition exit {A} : action A :=
  fun st => Stop (record_event ProcessExit st).

(** A synchronous call that may throw. *)
Definition try {A} (r : result A) : action A :=
  match r with
  | Ok a => ret a
  | Throw msg => crash msg
  end.

Definition each {A} (f : A -> action unit) : list A -> action unit :=
  fix go items :=
  match items with
  | [] => ret tt
  | item :: rest => f item ;; go rest
  end.

(** An action that leaves the QA object as it is. *)
Definition keeps_QA {A} (m : action A) : Prop :=
  forall st a st', m st = Continue a st' -> studentsQA st' = studentsQA st.

Section Process.

(** The two dates computed when the script starts, and the Canvas
    server: the reply (parsed body and response) to the request that
    ends the trace given. *)
Variables START_DATE LOCK_AND_DUE_DATE : string.
Variable server : list event -> value * response.

Definition request (e : event) : action (value * response) :=
  fun st => Continue (server (trace st ++ [e])%list) (record_event e st).

(** **** [getCanvasUserIds] *)

(** The body of [data.forEach] for one user [s]. *)
Definition assignStudent (s : value) (qa : list (string * object))
  : result (list (string * object)) :=
  match prop s "sis_user_id" with
  | Throw msg => Throw msg
  | Ok sis_user_id =>
    let fileNum := remainder sis_user_id NUM_VERSIONS in
    let fileHash := key_of (at_index HASHES fileNum) in
    match lookup_entry qa fileHash with
    | None => Throw "TypeError: Cannot read properties of undefined (reading 'id')"
    | Some entry =>
      let entry :=
        if negb (truthy (get entry "id"))
        then set (set entry "id" (VArr [])) "auid" (VArr [])
        else entry in
      match get entry "id" with
      | VArr ids =>
        match prop s "id" with
        | Throw msg => Throw msg
        | Ok id =>
          let entry := set entry "id" (VArr (ids ++ [id])%list) in
          match get entry "auid" with
          | VArr auids =>
            Ok (update_entry qa fileHash
              (set entry "auid" (VArr (auids ++ [sis_user_id])%list)))
          | _ => Throw "TypeError: studentsQA[fileHash].auid.push is not a function"
          end
        end
      | _ => Throw "TypeError: studentsQA[fileHash].id.push is not a function"
      end
    end
  end.

Fixpoint assignStudents (users : list value) (qa : list (string * object))
  : result (list (string * object)) :=
  match users with
  | [] => Ok qa
  | s :: rest =>
    match assignStudent s qa with
    | Ok qa' => assignStudents rest qa'
    | Throw msg => Throw msg
    end
  end.

Definition forEach_assign (data : value) : action unit :=
  fun st =>
  match data with
  | VArr users =>
    match assignStudents users (studentsQA st) with
    | Ok qa =>
      Continue tt {| studentsQA := qa; quizIds := quizIds st; trace := trace st |}
    | Throw msg => crash msg st
    end
  | VUndefined | VNull =>
    crash ("TypeError: Cannot read properties of " ++ to_string data
      ++ " (reading 'forEach')") st
  | _ => crash "TypeError: data.forEach is not a function" st
  end.

(** **** [createQuizzes] *)

Definition quizzes_url : string :=
  DOMAIN ++ "/api/v1/courses/" ++ string_of_Z COURSE_ID ++ "/quizzes".

Definition description_of (entry : object) : string :=
  let fileName := to_string (get entry "fileName") in
  let fileUrl := to_string (get entry "fileUrl") in
  "<p>This is a test assessment. Please use the link below to download the files for your assessment version.</p>"
  ++ newline ++ "          <p><strong>" ++ fileName ++ "</strong>: <a href="
  ++ quoted fileUrl ++ ">" ++ fileUrl ++ "</a></p>".

(** One task of [addQuestions]. *)
Definition addQuestion (url : string) (entry : object) (i : nat) : action unit :=
  let number := string_of_Z (Z.of_nat i) in
  let marks := if truthy (get BONUS_Q number) then 0%Z else MARKS_PER_QUESTION in
  match get entry ("q" ++ Q_PREFIX ++ number ++ "q") with
  | VStr questionText =>
    args ← try (newQuestionArgs (VNum (Z.of_nat i)) (VStr ("Question " ++ number))
      (VNum marks) (VStr (replace_LF "<br/>" questionText))
      (get entry ("q" ++ Q_PREFIX ++ number ++ "a")) util);
    _ ← request (HttpPost url args);
    ret tt
  | _ => crash "TypeError: question text has no replace method"
  end.

Definition addQuestions (quizId : value) (entry : object) : action unit :=
  let url := DOMAIN ++ "/api/v1/courses/" ++ string_of_Z COURSE_ID ++ "/quizzes/"
  ++ to_string quizId ++ "/questions" in
  each (addQuestion url entry) (seq STARTING_Q_NUMBER NUMBER_OF_QUESTIONS_PER_QUIZ).

Definition addOverride (version : string) (assignmentId canvasStudentIds : value)
  : action unit :=
  let overrideUrl := DOMAIN ++ "/api/v1/courses/" ++ string_of_Z COURSE_ID
  ++ "/assignments/" ++ to_string assignmentId ++ "/overrides" in
  overrideArgs ← try (newOverrideArgs (VStr START_DATE) (VStr LOCK_AND_DUE_DATE)
    canvasStudentIds util);
  reply ← request (HttpPost overrideUrl overrideArgs);
  if Z.eqb (statusCode (snd reply)) 201 then ret tt
  else emit (ConsoleError
    ("Override failed for version " ++ version ++ ". Response: "
      ++ string_of_Z (statusCode (snd reply)) ++ " - "
      ++ statusMessage (snd reply))).

Definition publishQuiz (quizId : value) : action unit :=
  let publishUrl := DOMAIN ++ "/api/v1/courses/" ++ string_of_Z COURSE_ID
  ++ "/quizzes/" ++ to_string quizId in
  args ← try (newPublishQuizArgs util);
  _ ← request (HttpPut publishUrl args);
  ret tt.

Definition push_quizIds (line : string) : action unit :=
  fun st =>
  Continue tt {| studentsQA := studentsQA st;
    quizIds := (quizIds st ++ [line])%list;
    trace := trace st |}.

(** The quiz-creation arguments of one version. *)
Definition quizArgs_of (entry : object) : result request_args :=
  newQuizArgs (VStr ASSIGNMENT_TITLE) (VStr (description_of entry))
  (VNum TOTAL_MARKS_PER_QUIZ) (VNum NUMBER_OF_ATTEMPTS) (VNum ASSIGNMENT_GROUP)
  VUndefined util.

(** The iteratee of [async.eachSeries] in [createQuizzes]. *)
Definition createQuiz (version : string) : action unit :=
  fun st =>
  match lookup_entry (studentsQA st) version with
  | None =>
    crash "TypeError: Cannot read properties of undefined (reading 'fileName')" st
  | Some entry =>
    (quizArgs ← try (quizArgs_of entry);
      emit (ConsoleLog ("Creating quiz for version " ++ version)) ;;
      reply ← request (HttpPost quizzes_url quizArgs);
      if negb (Z.eqb (statusCode (snd reply)) 200) then
        emit (ConsoleError ("Failed to create quiz for version " ++ version))
      else
        quizId ← try (prop (fst reply) "id");
        assignmentId ← try (prop (fst reply) "assignment_id");
        let canvasStudentIds := get entry "id" in
        match canvasStudentIds with
        | VArr _ =>
          push_quizIds (to_string assignmentId ++ "|" ++ to_string quizId ++ "|"
            ++ to_string canvasStudentIds) ;;
          addQuestions quizId entry ;;
          addOverride version assignmentId canvasStudentIds ;;
          publishQuiz quizId
        | _ => crash "TypeError: canvasStudentIds.join is not a function"
        end) st
  end.

(** [async.eachSeries] over the versions, then the final callback. *)
Definition createQuizzes_over (versions : list string) : action unit :=
  each createQuiz versions ;;
  emit (ConsoleLog "All quizzes created.") ;;
  exit.

Definition createQuizzes : action unit :=
  fun st => createQuizzes_over (keys (studentsQA st)) st.

(** [getCanvasUserIds]; [pages] bounds the number of pages followed. *)
Fixpoint getCanvasUserIds (pages : nat) (url : string) : action unit :=
  match pages with
  | 0 => fun st => Unfinished st
  | S pages =>
    args ← try (standardArgs util);
    reply ← request (HttpGet url args);
    forEach_assign (fst reply) ;;
    nextUrl ← try (nextURL (link (snd reply)));
    match nextUrl with
    | Some next =>
      if negb (String.eqb next "") then getCanvasUserIds pages next
      else createQuizzes
    | None => createQuizzes
    end
  end.

(** The pages followed by [getCanvasUserIds], without the call of
    [createQuizzes] that ends it. *)
Fixpoint listUsers (pages : nat) (url : string) : action unit :=
  match pages with
  | 0 => fun st => Unfinished st
  | S pages =>
    args ← try (standardArgs util);
    reply ← request (HttpGet url args);
    forEach_assign (fst reply) ;;
    nextUrl ← try (nextURL (link (snd reply)));
    match nextUrl with
    | Some next =>
      if negb (String.eqb next "") then listUsers pages next
      else ret tt
    | None => ret tt
    end
  end.

(** The enrolment list returned by the Canvas user listing: the users
    of the pages that the server links from [url] on, when the listing
    is well formed and ends within [pages] pages. *)
Fixpoint user_listing (pages : nat) (url : string) (history : list event)
  : option (list value) :=
  match pages with
  | 0 => None
  | S pages =>
    match standardArgs util with
    | Throw _ => None
    | Ok args =>
      let history := (history ++ [HttpGet url args])%list in
      let reply := server history in
      match fst reply, nextURL (link (snd reply)) with
      | VArr users, Ok (Some next) =>
        if negb (String.eqb next "") then
          match user_listing pages next history with
          | Some more => Some (users ++ more)%list
          | None => None
          end
        else Some users
      | VArr users, Ok None => Some users
      | _, _ => None
      end
    end
  end.

Definition users_url : string :=
  DOMAIN ++ "/api/v1/courses/" ++ string_of_Z COURSE_ID
  ++ "/users?enrollment_type[]=student&per_page=100".

(** The script from the loaded QA file and file-URL table on. *)
Definition main (pages : nat) (qaFile : list (string * object))
  (studentsFileUrls : list (string * file_entry)) : run unit :=
  let st := {| studentsQA := merge_all qaFile studentsFileUrls;
    quizIds := ["assignmentId|quizId|canvasStudentIds"];
    trace := [] |} in
  let truthyCheckResult := checkTruthy (studentsQA st) in
  match errors truthyCheckResult with
  | Some reported =>
    (emit (ConsoleError (newline ++ "Errors found in QA file:" ++ newline
          ++ String.concat "," reported ++ newline)) ;;
      exit) st
  | None => getCanvasUserIds pages users_url st
  end.

End Process.

(** *** The assignment of students to versions, as specified *)

(** [HASHES[parseInt(sis_user_id) % NUM_VERSIONS]] for a user; [None]
    when there is no such element of [HASHES]. *)
Definition version_of (s : value) : option string :=
  match prop s "sis_user_id" with
  | Ok sis_user_id => at_index HASHES (remainder sis_user_id NUM_VERSIONS)
  | Throw _ => None
  end.

(** A user object whose SIS id denotes a number with a remainder that is
    an index: [parseInt] reads an integer, the number [d] that holds it is
    finite, and [d] is not negative or is a multiple of [NUM_VERSIONS]
    (whose remainder is zero). *)
Definition numbered (s : value) : Prop :=
  exists props n d,
    s = VObj props /\ parseInt (get props "sis_user_id") = Some n /\
    nearest_double n = Some d /\
    (0 <= d \/ Z.rem d NUM_VERSIONS = 0)%Z.

(** The Canvas ids assigned to a version so far. *)
Definition ids_of (qa : list (string * object)) (version : string) : list value :=
  match lookup_entry qa version with
  | Some entry =>
    match get entry "id" with
    | VArr ids => ids
    | _ => []
    end
  | None => []
  end.

Definition id_of (s : value) : value :=
  match s with
  | VObj props => get props "id"
  | _ => VUndefined
  end.

(** A QA object with an entry for every hash, each without student
    lists yet or with both of them. *)
Definition ready (qa : list (string * object)) : Prop :=
  forall version, version ∈ HASHES ->
  exists entry,
    lookup_entry qa version = Some entry /\
    (truthy (get entry "id") = false \/
      exists ids auids, get entry "id" = VArr ids /\ get entry "auid" = VArr auids).

End CreateTest.

(** ** Zip archives of the versions ([1.Ready/0.Create-Zip/app.js]) *)

Module Zip.
Import Js.

Definition NUM_VERSIONS : Z := 3.
Definition zipFileSuffix : string := "game".

(** [os.EOL], here the line feed of the POSIX systems. *)
Definition EOL : string := newline.

Inductive event :=
| ConsoleLog (text : string)
| ConsoleError (text : string)
| ProcessExit
| Uncaught (msg : string).

(** The state of the script between two events: the variables of
    [async.eachLimit] as versions 2 and 3 of the library implement it
    ([pending] is its iterator over the collection, each element with its
    index; [running], [done] and [looping] are its counters and flags), the
    archives being written (their output stream is open) and those whose
    output stream has closed, what has been printed, and whether the
    process has ended. *)
Record state := State {
  pending : list (nat * string);
  running : Z;
  done : bool;
  looping : bool;
  open : list (nat * string);
  closed : list (nat * string);
  output : list event;
  exited : bool
}.

Definition indexed (collection : list string) : list (nat * string) :=
  zip (seq 0 (length collection)) collection.

Section EachLimit.

Variable HASHES : list string.

(** [shortid.generate()] as called for the element with a given index. *)
Variable generate : nat -> string.

Definition zipFileName (key : nat) (hash : string) : string :=
  hash ++ "-" ++ zipFileSuffix ++ "-" ++ generate key ++ ".zip".

(** The final callback of [eachLimit], called without an error. *)
Definition allZipped (st : state) : state :=
  {| pending := pending st; running := running st; done := done st;
    looping := looping st; open := open st; closed := closed st;
    output := (output st ++ [ConsoleLog (EOL ++ "All files zipped successfully.");
        ProcessExit])%list;
    exited := true |}.

(** The iteratee, up to its return: output stream and archive are created,
    the pattern is printed and the archive starts to be written. *)
Definition startArchive (key : nat) (hash : string) (st : state) : state :=
  {| pending := pending st; running := running st; done := done st;
    looping := looping st; open := (open st ++ [(key, hash)])%list;
    closed := closed st;
    output := (output st
      ++ [ConsoleLog ("Zipping files matching pattern: " ++ hash ++ "/*")])%list;
    exited := exited st |}.

(** The [while] loop of [replenish], with the iterator [elems]. *)
Fixpoint replenish_loop (limit : Z) (elems : list (nat * string)) (st : state) : state :=
  if (running st <? limit)%Z && negb (done st) then
    match elems with
    | [] =>
      let st := {| pending := []; running := running st; done := true;
        looping := looping st; open := open st; closed := closed st;
        output := output st; exited := exited st |} in
      if (running st <=? 0)%Z then allZipped st else st
    | (key, hash) :: rest =>
      replenish_loop limit rest
      (startArchive key hash
        {| pending := rest; running := running st + 1; done := done st;
          looping := looping st; open := open st; closed := closed st;
          output := output st; exited := exited st |})
    end
  else {| pending := elems; running := running st; done := done st;
    looping := false; open := open st; closed := closed st;
    output := output st; exited := exited st |}.

Definition replenish (limit : Z) (st : state) : state :=
  replenish_loop limit (pending st)
  {| pending := pending st; running := running st; done := done st;
    looping := true; open := open st; closed := closed st;
    output := output st; exited := exited st |}.

(** [iterateeCallback], called without an error. *)
Definition iterateeCallback (limit : Z) (st : state) : state :=
  let st := {| pending := pending st; running := running st - 1; done := done st;
    looping := looping st; open := open st; closed := closed st;
    output := output st; exited := exited st |} in
  if done st && (running st <=? 0)%Z then allZipped st
  else if negb (looping st) then replenish limit st
  else st.

(** [async.eachLimit(HASHES, limit, ...)] up to its return. *)
Definition eachLimit (limit : Z) (st : state) : state :=
  if (limit <=? 0)%Z then allZipped st else replenish limit st.

Definition remove_key (key : nat) (archives : list (nat * string)) : list (nat * string) :=
  filter (fun archive => archive.1 <> key) archives.

(** The [close] event of the output stream of an archive. *)
Definition closeStream (key : nat) (hash : string) (st : state) : state :=
  iterateeCallback NUM_VERSIONS
  {| pending := pending st; running := running st; done := done st;
    looping := looping st; open := remove_key key (open st);
    closed := (closed st ++ [(key, hash)])%list;
    output := (output st ++ [ConsoleLog ("Created zip file: " ++ zipFileName key hash)])%list;
    exited := exited st |}.

(** The [error] event of an archive: the handler throws. *)
Definition archiveError (err : string) (st : state) : state :=
  {| pending := pending st; running := running st; done := done st;
    looping := looping st; open := open st; closed := closed st;
    output := (output st ++ [Uncaught err])%list; exited := true |}.

(** The script up to the end of its first turn. *)
Definition script : state :=
  eachLimit NUM_VERSIONS
  {| pending := indexed HASHES; running := 0; done := false; looping := false;
    open := []; closed := [];
    output := [ConsoleLog EOL; ConsoleLog "All versions okay";
      ConsoleLog "=============="; ConsoleLog EOL;
      ConsoleLog ("Wait until " ++ quoted "All files zipped" ++ " is printed.");
      ConsoleLog "===========================================";
      ConsoleLog EOL];
    exited := false |}.

(** The states the process goes through: after the first turn, every event
    belongs to an archive being written. *)
Inductive reachable : state -> Prop :=
| reach_script : reachable script
| reach_close st key hash :
  reachable st -> exited st = false -> (key, hash) ∈ open st ->
  reachable (closeStream key hash st)
| reach_error st key hash err :
  reachable st -> exited st = false -> (key, hash) ∈ open st ->
  reachable (archiveError err st).

(** The runs in which every event is the close of a stream: the state
    reached, with the archives closed in the order of their close
    events. *)
Inductive closes : list (nat * string) -> state -> Prop :=
| closes_script : closes [] script
| closes_close order st key hash :
  closes order st -> exited st = false -> (key, hash) ∈ open st ->
  closes (order ++ [(key, hash)])%list (closeStream key hash st).

Definition allZippedMessage : event :=
  ConsoleLog (EOL ++ "All files zipped successfully.").

(** What holds between two events. *)
Definition invariant (st : state) : Prop :=
  running st = Z.of_nat (length (open st)) /\
  (running st <= NUM_VERSIONS)%Z /\
  (closed st ++ open st ++ pending st)%list ≡ₚ indexed HASHES /\
  (done st = true -> pending st = []) /\
  (exited st = false ->
    open st <> [] /\ (done st = false -> looping st = false) /\
    allZippedMessage ∉ output st) /\
  (allZippedMessage ∈ output st -> open st = [] /\ pending st = []) /\
  (open st = [] -> allZippedMessage ∈ output st).

End EachLimit.

End Zip.

(** ** Stage 2: counting the rows of question 2 *)

Module QaCount.
Import Js QaUtil QaGen.

(** The test of the loop of [questionTwo] on one row: the name column of
    the row includes the name; a row without the column has no name to
    test. *)
Definition mentions (name : string) (row : list string) : bool :=
  match row !! header_Name with
  | Some title => includes title name
  | None => false
  end.

End QaCount.

(** ** Stage 2: the numeric helper of the CSV module ([2.Aim/2.Test/util.js]) *)

Module QaSums.
Import Js.

(** A JavaScript number as far as [sumArrayAsNumber] computes with it: an
    integer that a double holds exactly (at most 2^53 in magnitude), [NaN],
    or some other double, about which nothing is said (a rounded integer,
    an infinity, or the [NaN] that two infinities add up to). *)
Inductive number :=
| Exact (n : Z)
| NaN
| Other.

Definition safe (n : Z) : bool := (Z.abs n <=? 2 ^ 53)%Z.

(** The double nearest to an integer. *)
Definition of_integer (n : Z) : number := if safe n then Exact n else Other.

(** [Number.parseInt(value)]. *)
Definition Number_parseInt (v : value) : number :=
  match CreateTest.parseInt v with
  | Some n => of_integer n
  | None => NaN
  end.

(** [acc + n] on two numbers. *)
Definition plus (acc n : number) : number :=
  match acc, n with
  | NaN, _ | _, NaN => NaN
  | Exact a, Exact b => of_integer (a + b)
  | _, _ => Other
  end.

(** [exports.sumArrayAsNumber]. *)
Definition sumArrayAsNumber (array : list value) : number :=
  fold_left (fun acc v => plus acc (Number_parseInt v)) array (Exact 0).

End QaSums.

(** ** Decimal digits *)

Module Digits.
Import Js.

(** The number written by a string of decimal digits, read from the left
    with [acc] as the number read so far. *)
Fixpoint digits_value (d : Decimal.uint) (acc : Z) : Z :=
  match d with
  | Decimal.Nil => acc
  | Decimal.D0 d => digits_value d (10 * acc)
  | Decimal.D1 d => digits_value d (10 * acc + 1)
  | Decimal.D2 d => digits_value d (10 * acc + 2)
  | Decimal.D3 d => digits_value d (10 * acc + 3)
  | Decimal.D4 d => digits_value d (10 * acc + 4)
  | Decimal.D5 d => digits_value d (10 * acc + 5)
  | Decimal.D6 d => digits_value d (10 * acc + 6)
  | Decimal.D7 d => digits_value d (10 * acc + 7)
  | Decimal.D8 d => digits_value d (10 * acc + 8)
  | Decimal.D9 d => digits_value d (10 * acc + 9)
  end%Z.

(** A decimal digit. *)
Definition is_digit (c : ascii) : bool :=
  let n := nat_of_ascii c in Nat.leb 48 n && Nat.leb n 57.

End Digits.

(** ** Stage 3: the file-URL table ([loadStudentFilesUrls] of
    [3.Shoot/TEST 101/util.js]) *)

Module FileUrls.
Import Js CreateTest.

(** [text.split(/\r?\n/)]: the text is cut at every line feed, and a
    carriage return right before the line feed goes with it. *)
Fixpoint split_lines (text : string) : list string :=
  match text with
  | EmptyString => [EmptyString]
  | String c rest =>
    let ordinary :=
      match split_lines rest with
      | first :: others => String c first :: others
      | [] => [String c EmptyString]
      end in
    if Ascii.eqb c LF then EmptyString :: split_lines rest
    else if Ascii.eqb c CR then
      match rest with
      | String c' rest' =>
        if Ascii.eqb c' LF then EmptyString :: split_lines rest' else ordinary
      | EmptyString => ordinary
      end
    else ordinary
  end.

(** The characters that [encodeURIComponent] leaves as they are: letters,
    digits and [- _ . ! ~ * ' ( )]. *)
Definition unreserved (c : ascii) : bool :=
  let n := nat_of_ascii c in
  (Nat.leb 48 n && Nat.leb n 57) || (Nat.leb 65 n && Nat.leb n 90)
  || (Nat.leb 97 n && Nat.leb n 122)
  || existsb (Nat.eqb n) [45; 95; 46; 33; 126; 42; 39; 40; 41].

Definition hex_digit (n : nat) : ascii :=
  ascii_of_nat (if Nat.ltb n 10 then 48 + n else 55 + n).

(** One byte as [%XX]. *)
Definition percent (byte : nat) : string :=
  String "%" (String (hex_digit (byte / 16)) (String (hex_digit (byte mod 16)) EmptyString)).

(** A character that is not left as it is becomes the escaped bytes of
    its UTF-8 encoding: one byte below 128, two bytes from there to 255. *)
Definition encode_char (c : ascii) : string :=
  let n := nat_of_ascii c in
  if unreserved c then String c EmptyString
  else if Nat.ltb n 128 then percent n
  else percent (192 + n / 64) ++ percent (128 + n mod 64).

(** [encodeURIComponent(s)]. *)
Fixpoint encodeURIComponent (s : string) : string :=
  match s with
  | EmptyString => EmptyString
  | String c rest => encode_char c ++ encodeURIComponent rest
  end.

(** [students[auid] = entry]. *)
Fixpoint store {A} (students : list (string * A)) (auid : string) (entry : A)
  : list (string * A) :=
  match students with
  | [] => [(auid, entry)]
  | (k, e) :: rest =>
    if String.eqb k auid then (k, entry) :: rest else (k, e) :: store rest auid entry
  end.

(** The [switch] over the platform. *)
Definition url_of (platform : value) (fileid fileName : string) : result string :=
  match platform with
  | VStr name =>
    if String.eqb name "Canvas" then Ok fileid
    else if String.eqb name "Google Drive" then
      Ok ("https://drive.google.com/uc?export=download&id=" ++ fileid)
    else if String.eqb name "OneDrive" then
      Ok ("yourOneDriveUrl" ++ encodeURIComponent fileName)
    else Throw "Invalid platform specified."
  | _ => Throw "Invalid platform specified."
  end.

(** The callback of [forEach] for one line: nothing for a blank line,
    otherwise the key and the entry stored. *)
Definition file_row (platform : value) (line : string)
  : result (option (string * file_entry)) :=
  if String.eqb (trim line) "" then Ok None
  else
    match split "," line with
    | fileid :: name :: _ =>
      let auid := match split "-" name with first :: _ => first | [] => "undefined" end in
      match url_of platform fileid name with
      | Ok url => Ok (Some (auid, {| fileName := name; fileUrl := url |}))
      | Throw msg => Throw msg
      end
    | _ => Throw "TypeError: Cannot read properties of undefined (reading 'split')"
    end.

Fixpoint load_rows (platform : value) (lines : list string)
  (students : list (string * file_entry)) : result (list (string * file_entry)) :=
  match lines with
  | [] => Ok students
  | line :: rest =>
    match file_row platform line with
    | Throw msg => Throw msg
    | Ok None => load_rows platform rest students
    | Ok (Some (auid, entry)) => load_rows platform rest (store students auid entry)
    end
  end.

Section Files.

(** [fs.readFileSync(file, "utf8")]; it throws when the file cannot be
    read. *)
Variable readFileSync : string -> result string.

(** [exports.loadStudentFilesUrls]. *)
Definition loadStudentFilesUrls (file : string) (platform : value)
  : result (list (string * file_entry)) :=
  match readFileSync file with
  | Throw msg => Throw msg
  | Ok text => load_rows platform (split_lines text) []
  end.

End Files.

(** A string without a given character. *)
Fixpoint free_of (c : ascii) (s : string) : bool :=
  match s with
  | EmptyString => true
  | String c' rest => negb (Ascii.eqb c' c) && free_of c rest
  end.

(** A field of a line of the table: no comma, no line terminator. *)
Definition field (s : string) : bool :=
  free_of "," s && free_of LF s && free_of CR s.

(** A row of the table: the file id (or URL), and the file name as the
    version hash, a hyphen and the rest of the name. *)
Record table_row := TableRow { fileid : string; hash : string; rest : string }.

Definition row_name (r : table_row) : string := hash r ++ "-" ++ rest r.

Definition row_line (r : table_row) : string := fileid r ++ "," ++ row_name r.

(** The hash is not [__proto__]: assigning to that key sets the prototype
    of the object instead of a property. *)
Definition well_formed (r : table_row) : Prop :=
  field (fileid r) = true /\ field (hash r) = true /\ field (rest r) = true /\
  free_of "-" (hash r) = true /\ hash r <> "__proto__".

(** A line of the file: a row, or an empty line. *)
Definition line_of (entry : option table_row) : string :=
  match entry with
  | Some r => row_line r
  | None => ""
  end.

(** A platform that [loadStudentFilesUrls] knows. *)
Definition known (platform : value) : Prop :=
  platform = VStr "Canvas" \/ platform = VStr "Google Drive" \/ platform = VStr "OneDrive".

(** A string of white space only. *)
Fixpoint all_space (s : string) : bool :=
  match s with
  | EmptyString => true
  | String c rest => is_space c && all_space rest
  end.

End FileUrls.

(** ** Stage 3: what is observed of a run of the script *)

Module Observed.
Import Js CanvasUtil CreateTest.

(** The state in which a piece of the script ends. *)
Definition state_of {A} (r : run A) : state :=
  match r with
  | Continue _ st | Stop st | Unfinished st => st
  end.

(** The two headers of every request, for the token of the script. *)
Definition standard_header : header_fields :=
  {| Content_Type := "application/json"; Authorization := VStr ("Bearer " ++ TOKEN) |}.

(** The API of the course under the configured domain. *)
Definition course_api : string :=
  DOMAIN ++ "/api/v1/courses/" ++ string_of_Z COURSE_ID ++ "/".

(** The addresses under it that the script writes to. *)
Definition questions_url (quizId : value) : string :=
  course_api ++ "quizzes/" ++ to_string quizId ++ "/questions".

Definition overrides_url (assignmentId : value) : string :=
  course_api ++ "assignments/" ++ to_string assignmentId ++ "/overrides".

Definition quiz_url (quizId : value) : string :=
  course_api ++ "quizzes/" ++ to_string quizId.

(** A request as the script is meant to send it: with the standard
    headers, and, when it creates or changes something, to the API of the
    course. *)
Definition proper (e : event) : Prop :=
  match e with
  | HttpGet _ args => headers args = standard_header
  | HttpPost url args | HttpPut url args =>
    headers args = standard_header /\ String.prefix course_api url = true
  | _ => True
  end.

(** Method and URL of a request; nothing for the other events. *)
Definition request_line (e : event) : option (string * string) :=
  match e with
  | HttpGet url _ => Some ("GET", url)
  | HttpPost url _ => Some ("POST", url)
  | HttpPut url _ => Some ("PUT", url)
  | _ => None
  end.

Definition requests (events : list event) : list (string * string) :=
  omap request_line events.

(** The texts written with [console.error]. *)
Definition error_line (e : event) : option string :=
  match e with
  | ConsoleError text => Some text
  | _ => None
  end.

Definition error_lines (events : list event) : list string :=
  omap error_line events.

(** The key under which the text of question [i] is read. *)
Definition question_key (i : nat) : string :=
  "q" ++ Q_PREFIX ++ string_of_Z (Z.of_nat i) ++ "q".

(** A piece of the script sends only proper requests, when only proper
    ones were sent before it, and the value it continues with satisfies
    [Q]. *)
Definition sends_properly {A} (m : action A) (Q : A -> Prop) : Prop :=
  forall st,
    Forall proper (trace st) ->
    Forall proper (trace (state_of (m st))) /\
    forall a st', m st = Continue a st' -> Q a.

(** The messages of the object returned by [checkTruthy]. *)
Definition reported (r : check_result) : list string :=
  match errors r with
  | Some messages => messages
  | None => []
  end.

(** A result object without an empty [errors] array. *)
Definition sound (result : check_result) : Prop := errors result <> Some [].

(** One step of the loop of [checkTruthy] over the keys of an entry. *)
Definition check_key (auid : string) (entry : object) (res : check_result)
  (key : string) : check_result :=
  if ends_with_q key then
    let aKey := replace_last_with_a key in
    let aVal := get entry aKey in
    if missing_answer aVal then
      addError res (auid ++ " - Missing or invalid answer for key: " ++ aKey)
    else res
  else res.

(** The state after the POST that creates the quiz of a version. *)
Definition posted (version : string) (quizArgs : request_args) (st : state) : state :=
  record_event (HttpPost quizzes_url quizArgs)
  (record_event (ConsoleLog ("Creating quiz for version " ++ version)) st).

End Observed.

(** ** The zip script: the order in which archives are started *)

Module ZipOrder.
Import Zip.

(** The first [n] elements of the collection have been handed to the
    iteratee, in their order, and the others are waiting; while one is
    waiting as many archives are being written as the limit allows. *)
Definition started (HASHES : list string) (n : nat) (st : state) : Prop :=
  pending st = drop n (indexed HASHES) /\
  Forall (fun archive => archive.1 < n) (open st) /\
  StronglySorted lt (map fst (open st)) /\
  (pending st <> [] -> running st = NUM_VERSIONS).

End ZipOrder.

(** ** Sample data of stage 1 *)

Module SamplerExamples.
Import Sampler.

Definition master : list string :=
  ["Rank,Name"; "1,Wii Sports"; "2,Super Mario Bros."].

(** A draw that misses the header, and one that takes every line. *)
Definition headless : draw := Draw 16450 [2; 1].
Definition complete : draw := Draw 16450 [2; 1; 0].

End SamplerExamples.

(** ** Sample data of stage 3 *)

Module Examples.
Import Js CanvasUtil CreateTest.

Definition answered (fileName fileUrl : string) : object :=
  [("q1q", VStr "How many video games contain the word Wii in their name?");
    ("q1a", VStr "12");
    ("q2q", VStr "What is 8x + y, where x = 3 and y = 2?");
    ("q2a", VStr "26");
    ("q3q", VStr "Which year?"); ("q3a", VStr "1999");
    ("q4q", VStr "Which platform?"); ("q4a", VStr "Wii");
    ("fileName", VStr fileName); ("fileUrl", VStr fileUrl)].

(** A QA object with an entry for each of the three hashes. *)
Definition qa : list (string * object) :=
  [("iG6Zp4WDF", answered "iG6Zp4WDF-game-a.zip" "https://canvas/files/1/download");
    ("Z8lZJChRtn", answered "Z8lZJChRtn-game-b.zip" "https://canvas/files/2/download");
    ("F29R1ibztX", answered "F29R1ibztX-game-c.zip" "https://canvas/files/3/download")].

(** A QA file whose second question of the first version has no answer. *)
Definition qa_unanswered : list (string * object) :=
  [("iG6Zp4WDF",
      [("q1q", VStr "How many?"); ("q1a", VStr "12");
        ("q2q", VStr "Which year?"); ("q2a", VStr "")])].

Definition fileUrls : list (string * file_entry) :=
  [("iG6Zp4WDF", FileEntry "iG6Zp4WDF-game-a.zip" "https://canvas/files/1/download")].

Definition start : state :=
  {| studentsQA := qa; quizIds := ["assignmentId|quizId|canvasStudentIds"]; trace := [] |}.

Definition student (id : Z) (sis_user_id : value) : value :=
  VObj [("id", VNum id); ("name", VStr "A Student"); ("sis_user_id", sis_user_id)].

Definition enrolled : list value :=
  [student 11 (VStr "100"); student 12 (VStr "101"); student 13 (VStr "103")].

(** A user for whom Canvas holds no SIS id. *)
Definition student_without_sis_id : value := student 14 VNull.

(** A listing with such a user among the others. *)
Definition enrolled_mixed : list value :=
  [student 11 (VStr "100"); student_without_sis_id; student 12 (VStr "101")].

(** Users whose SIS id is a negative multiple of the number of versions,
    and one too large for a number to hold exactly. *)
Definition enrolled_wide : list value :=
  [student 15 (VStr "-3"); student 16 (VStr "9007199254740993")].

(** A server that refuses every request. *)
Definition refusing (history : list event) : value * response :=
  (VObj [("errors", VArr [VObj [("message", VStr "user not authorized")]])],
    {| statusCode := 401; statusMessage := "Unauthorized"; link := VUndefined |}).

(** A server that answers every request with the given page of users. *)
Definition listing (users : list value) (history : list event) : value * response :=
  (VArr users,
    {| statusCode := 200; statusMessage := "OK";
      link := VStr ("<https://canvas/api/v1/courses/0/users?page=1>; rel="
        ++ quoted "current") |}).

End Examples.

(** ** Sample data of stage 2 *)

Module QaExamples.
Import Js QaUtil QaGen.

Definition sales : list (list string) :=
  [["Rank"; "Name"; "Platform"; "Year"; "Genre"; "Publisher"; "NA_Sales"; "EU_Sales";
      "JP_Sales"; "Other_Sales"; "Global_Sales"];
    ["1"; "Wii Sports"; "Wii"; "2006"; "Sports"; "Nintendo"; "41.49"; "29.02"; "3.77";
      "8.46"; "82.74"];
    ["2"; "Super Mario Bros."; "NES"; "1985"; "Platform"; "Nintendo"; "29.08"; "3.58";
      "6.81"; "0.77"; "40.24"]].

(** A parser that reads the sample data from every file. *)
Definition parser (file : string) : result parse_result :=
  Ok {| data := sales; errors := [] |}.

(** A parser that reports a malformed row in every file. *)
Definition failing_parser (file : string) : result parse_result :=
  Ok {| data := sales; errors := [ParseError "Too few fields"; ParseError "Quoted field unterminated"] |}.

Definition rand (i : nat) : draws :=
  {| year := 1985; randIndex := 1; isNintendo := true; randX := 3; randY := 2 |}.

(** Stand-ins for the two floating-point answers. *)
Definition salesDifference (csv : list (list string)) (year : Z) : string := "22.27".
Definition globalSales (csv : list (list string)) (isNintendo : bool) : string := "122.98".

End QaExamples.


(** ** Sample data of the zip script *)

Module ZipExamples.
Import Js Zip.

Definition generate (key : nat) : string := "a" ++ string_of_Z (Z.of_nat key).

(** The three archives of the repository's hashes, closed in the order
    first, third, second. *)
Definition all_closed : state :=
  closeStream generate 1 "Z8lZJChRtn"
  (closeStream generate 2 "F29R1ibztX"
    (closeStream generate 0 "iG6Zp4WDF" (script Hash.HASHES))).

End ZipExamples.

(** ** Sample data of the file-URL table *)

Module FileExamples.
Import Js CreateTest FileUrls.

(** The rows of a table written on Windows, with an empty line among
    them. *)
Definition rows : list (option table_row) :=
  [Some (TableRow "https://canvas/files/1/download" "iG6Zp4WDF" "game-a.zip");
    None;
    Some (TableRow "https://canvas/files/2/download" "Z8lZJChRtn" "game-b.zip")].

Definition table : string :=
  "https://canvas/files/1/download,iG6Zp4WDF-game-a.zip" ++ String CR newline
  ++ String CR newline
  ++ "https://canvas/files/2/download,Z8lZJChRtn-game-b.zip".

(** A file of two blank lines. *)
Definition blank : string := "  " ++ newline ++ " ".

Definition readFileSync (file : string) : result string :=
  if String.eqb file "inOutFiles/TestFiles.csv" then Ok table
  else if String.eqb file "inOutFiles/Empty.csv" then Ok blank
  else Throw "ENOENT: no such file or directory".

End FileExamples.

(** ** Sample runs of stage 3 *)

Module RunExamples.
Import Js CanvasUtil CreateTest.

(** A server that answers every request with a created quiz. *)
Definition accepting (history : list event) : value * response :=
  (VObj [("id", VNum 7); ("assignment_id", VNum 70)],
    {| statusCode := 200; statusMessage := "OK"; link := VUndefined |}).

(** The first version of the sample QA object with two students assigned
    to it. *)
Definition assigned_entry : object :=
  set (set (Examples.answered "iG6Zp4WDF-game-a.zip" "https://canvas/files/1/download")
      "id" (VArr [VNum 11; VNum 14]))
    "auid" (VArr [VStr "102"; VStr "105"]).

Definition assigned : state :=
  {| studentsQA := [("iG6Zp4WDF", assigned_entry)];
    quizIds := ["assignmentId|quizId|canvasStudentIds"]; trace := [] |}.

(** A version with students, answers and file, but without the text of
    its third question. *)
Definition incomplete_entry : object :=
  [("q1q", VStr "How many?"); ("q1a", VStr "12");
    ("q2q", VStr "Which year?"); ("q2a", VStr "1999");
    ("q3a", VStr "Wii"); ("q4q", VStr "Which platform?"); ("q4a", VStr "NES");
    ("fileName", VStr "iG6Zp4WDF-game-a.zip");
    ("fileUrl", VStr "https://canvas/files/1/download");
    ("id", VArr [VNum 11])].

Definition incomplete : state :=
  {| studentsQA := [("iG6Zp4WDF", incomplete_entry)];
    quizIds := ["assignmentId|quizId|canvasStudentIds"]; trace := [] |}.

End RunExamples.

(** ** A sample run of the zip script with more elements than the limit *)

Module ZipOrderExamples.
Import Js Zip.

Definition five : list string := (Hash.HASHES ++ ["k3VyT0pQa"; "Xw7uLm2Bc"])%list.

(** The second archive is closed first. *)
Definition second_closed : state :=
  closeStream ZipExamples.generate 1 "Z8lZJChRtn" (script five).

End ZipOrderExamples.

(** ** Properties of stage 1 *)

Module SamplerProofs.
Import Js Sampler.

Lemma indexOf_from_ge i x array :
  (indexOf_from i x array = -1 \/ i <= indexOf_from i x array)%Z.
Proof.
  revert i. induction array as [|y rest IH]; intros i; simpl.
  - now left.
  - destruct (Nat.eqb y x); [right; lia|].
    destruct (IH (i + 1)%Z); [now left | right; lia].
Qed.

Lemma indexOf_from_absent i x array :
  (0 <= i)%Z -> indexOf_from i x array = (-1)%Z <-> x ∉ array.
Proof.
  revert i. induction array as [|y rest IH]; intros i Hi; simpl.
  - split; [intros _; apply not_elem_of_nil | reflexivity].
  - destruct (Nat.eqb_spec y x) as [->|Hne].
    + split; [lia | intros H; exfalso; apply H; left].
    + rewrite IH by lia. rewrite not_elem_of_cons. intuition congruence.
Qed.

Lemma indexOf_absent x array : indexOf x array = (-1)%Z <-> x ∉ array.
Proof. apply indexOf_from_absent. lia. Qed.

(** [sortedUniq] keeps exactly the elements of its argument. *)
Lemma elem_of_sortedUniq_seen seen array x :
  x ∈ sortedUniq_seen seen array -> x ∈ array.
Proof.
  revert seen. induction array as [|v rest IH]; intros seen; simpl; [easy|].
  destruct (Nat.eqb v seen); rewrite ?elem_of_cons; intros H.
  - right. eauto.
  - destruct H; [now left | right; eauto].
Qed.

Lemma elem_of_sortedUniq array x : x ∈ sortedUniq array -> x ∈ array.
Proof.
  destruct array as [|v rest]; simpl; [easy|].
  rewrite !elem_of_cons. intros [->|H]; [now left | right].
  eapply elem_of_sortedUniq_seen; eauto.
Qed.

Lemma sortedUniq_seen_keeps seen array x :
  x ∈ array -> x = seen \/ x ∈ sortedUniq_seen seen array.
Proof.
  revert seen. induction array as [|v rest IH]; intros seen; simpl.
  - intros H. now apply elem_of_nil in H.
  - rewrite elem_of_cons. intros [->|H].
    + destruct (Nat.eqb_spec v seen); [now left | right; left].
    + destruct (Nat.eqb_spec v seen) as [->|Hne]; [now apply IH|].
      destruct (IH v H) as [->|H']; right; [left | now right].
Qed.

Lemma sortedUniq_keeps array x : x ∈ array -> x ∈ sortedUniq array.
Proof.
  destruct array as [|v rest]; simpl; [easy|].
  rewrite !elem_of_cons. intros [->|H]; [now left|].
  destruct (sortedUniq_seen_keeps v rest x H); auto.
Qed.

(** On an ascending array whose elements are all at least [seen],
    [sortedUniq_seen] returns a strictly ascending array above [seen]. *)
Lemma sortedUniq_seen_increasing seen array :
  StronglySorted le array -> Forall (le seen) array ->
  StronglySorted lt (sortedUniq_seen seen array) /\
  Forall (lt seen) (sortedUniq_seen seen array).
Proof.
  revert seen. induction array as [|v rest IH]; intros seen Hs Hall; simpl.
  - split; constructor.
  - apply StronglySorted_inv in Hs as [Hs Hv].
    apply Forall_cons in Hall as [Hle Hall].
    destruct (Nat.eqb_spec v seen) as [->|Hne].
    + now apply IH.
    + destruct (IH v Hs Hv) as [IH1 IH2]. split.
      * now constructor.
      * constructor; [lia|]. eapply Forall_impl; [exact IH2|]. simpl; lia.
Qed.

Lemma sortedUniq_increasing array :
  StronglySorted le array -> StronglySorted lt (sortedUniq array).
Proof.
  destruct array as [|v rest]; simpl; [constructor|]. intros Hs.
  apply StronglySorted_inv in Hs as [Hs Hv].
  destruct (sortedUniq_seen_increasing v rest Hs Hv). now constructor.
Qed.

Lemma sort_ascending_sorted array : StronglySorted le (sort_ascending array).
Proof. apply (StronglySorted_merge_sort le). Qed.

Lemma elem_of_sort_ascending array x : x ∈ sort_ascending array <-> x ∈ array.
Proof. unfold sort_ascending. now rewrite (merge_sort_Permutation le). Qed.

(** The selected line numbers are strictly ascending, start with the
    header's line number and otherwise come from the sample. *)
Lemma selectedLineNumbers_increasing d : StronglySorted lt (selectedLineNumbers d).
Proof.
  unfold selectedLineNumbers.
  pose proof (sortedUniq_increasing _ (sort_ascending_sorted (sampled d))) as Hs.
  destruct (Z.eqb_spec (indexOf 0 (sortedUniq (sort_ascending (sampled d)))) (-1))
    as [Habs|Hpres]; [|exact Hs].
  apply indexOf_absent in Habs. constructor; [exact Hs|].
  apply Forall_forall. intros x Hx.
  destruct x; [contradiction | lia].
Qed.

Lemma selectedLineNumbers_head d : exists rest, selectedLineNumbers d = 0 :: rest.
Proof.
  pose proof (selectedLineNumbers_increasing d) as Hs. revert Hs.
  unfold selectedLineNumbers.
  destruct (Z.eqb_spec (indexOf 0 (sortedUniq (sort_ascending (sampled d)))) (-1))
    as [Habs|Hpres]; [eauto|].
  intros Hs.
  assert (H0 : 0 ∈ sortedUniq (sort_ascending (sampled d))).
  { destruct (decide (0 ∈ sortedUniq (sort_ascending (sampled d)))) as [H|H]; [exact H|].
    now apply indexOf_absent in H. }
  destruct (sortedUniq (sort_ascending (sampled d))) as [|x rest]; [now apply elem_of_nil in H0|].
  apply StronglySorted_inv in Hs as [_ Hx].
  apply elem_of_cons in H0 as [<-|H0]; [eauto|].
  rewrite Forall_forall in Hx. apply Hx in H0. lia.
Qed.

Lemma elem_of_selectedLineNumbers d x :
  x ∈ selectedLineNumbers d <-> x = 0 \/ x ∈ sampled d.
Proof.
  unfold selectedLineNumbers.
  assert (Hiff : forall y, y ∈ sortedUniq (sort_ascending (sampled d)) <-> y ∈ sampled d).
  { intros y. split; intros H.
    - now apply elem_of_sort_ascending, elem_of_sortedUniq.
    - now apply sortedUniq_keeps, elem_of_sort_ascending. }
  destruct (Z.eqb_spec (indexOf 0 (sortedUniq (sort_ascending (sampled d)))) (-1))
    as [Habs|Hpres].
  - rewrite elem_of_cons, Hiff. tauto.
  - rewrite Hiff. split; [tauto|]. intros [->|H]; [|exact H].
    apply Hiff. destruct (decide (0 ∈ sortedUniq (sort_ascending (sampled d)))) as [H|H]; [exact H|].
    now apply indexOf_absent in H.
Qed.

(** *** The first line of a joined text *)

Lemma first_line_no_LF s : no_LF s = true -> first_line s = s.
Proof.
  induction s as [|c s IH]; simpl; [reflexivity|].
  intros H. apply andb_true_iff in H as [Hc Hs].
  destruct (Ascii.eqb c LF); [discriminate|]. now rewrite IH.
Qed.

Lemma first_line_app s rest :
  no_LF s = true -> first_line (s ++ String LF rest) = s.
Proof.
  induction s as [|c s IH]; simpl.
  - intros _. reflexivity.
  - intros H. apply andb_true_iff in H as [Hc Hs].
    destruct (Ascii.eqb c LF); [discriminate|]. now rewrite IH.
Qed.

Lemma first_line_join v array :
  no_LF (join_item v) = true ->
  first_line (join newline (v :: array)) = join_item v.
Proof.
  intros Hv. unfold join. simpl map.
  destruct array as [|w array]; simpl.
  - now apply first_line_no_LF.
  - now apply first_line_app.
Qed.

(** *** The lines of a joined text *)




(** *** Picking lines at ascending positions gives a subsequence *)



(** With an empty master file nothing can be sampled: the only line
    number selected is the header's, there is no such line, and the text
    written is empty. *)
Lemma empty_master_writes_empty_text d :
  drawn_from (range 0) d ->
  selectedLineNumbers d = [0] /\ emittedLines [] d = [None] /\ writtenText [] d = "".
Proof.
  intros (_ & Hsub & _). simpl in Hsub. apply submseteq_nil_r in Hsub.
  unfold writtenText, emittedLines, selectedLineNumbers. rewrite Hsub.
  repeat split.
Qed.

(** C1. For every master file with a header line and every version, the
    file written by [processOutFiles] has the header row (line 0 of the
    master) as its first line, whatever the random sample selected: the
    selected line numbers always start with 0, which is put in front of
    the sorted unique sample when the sample missed it. *)
Theorem header_row_is_first_line (studentLines hashes : list string) draws i hash header :
  hashes !! i = Some hash ->
  studentLines !! 0 = Some header ->
  no_LF header = true ->
  exists rest text,
    selectedLineNumbers (draws i) = 0 :: rest /\
    (0 ∉ sampled (draws i) ->
      rest = sortedUniq (sort_ascending (sampled (draws i)))) /\
    processOutFiles studentLines hashes draws !! i = Some (outFile hash, text) /\
    first_line text = header.
Proof.
  intros Hhash Hheader Hlf.
  destruct (selectedLineNumbers_head (draws i)) as [rest Hsel].
  exists rest, (writtenText studentLines (draws i)). repeat split.
  - exact Hsel.
  - intros H0. revert Hsel. unfold selectedLineNumbers.
    destruct (Z.eqb_spec (indexOf 0 (sortedUniq (sort_ascending (sampled (draws i))))) (-1))
      as [Habs|Hpres]; [congruence|].
    exfalso. apply Hpres, indexOf_absent. intros Hin.
    now apply H0, elem_of_sort_ascending, elem_of_sortedUniq.
  - unfold processOutFiles. rewrite list_lookup_imap, Hhash. reflexivity.
  - unfold writtenText, emittedLines. rewrite Hsel. simpl map.
    rewrite first_line_join; rewrite Hheader; [reflexivity | exact Hlf].
Qed.

Lemma header_row_is_first_line_witness :
  exists rest text,
    selectedLineNumbers SamplerExamples.headless = 0 :: rest /\
    (0 ∉ sampled SamplerExamples.headless ->
      rest = sortedUniq (sort_ascending (sampled SamplerExamples.headless))) /\
    processOutFiles SamplerExamples.master
    ["iG6Zp4WDF"] (fun _ => SamplerExamples.headless) !! 0
    = Some (outFile "iG6Zp4WDF", text) /\
    first_line text = "Rank,Name".
Proof.
  apply (header_row_is_first_line
      SamplerExamples.master
      ["iG6Zp4WDF"] (fun _ => SamplerExamples.headless) 0 "iG6Zp4WDF" "Rank,Name");
    reflexivity.
Defined.



End SamplerProofs.

(** ** Properties of stage 2 *)

Module QaGenProofs.
Import Js QaUtil QaGen.

Section Script.

Variable HASHES : list string.
Variable outFile : string.
Variable parseFiles : string -> result parse_result.
Variable salesDifference : list (list string) -> Z -> string.
Variable globalSales : list (list string) -> bool -> string.

Local Abbreviation questions := (questions salesDifference globalSales).
Local Abbreviation processVersion :=
  (processVersion outFile parseFiles salesDifference globalSales).
Local Abbreviation eachVersion :=
  (eachVersion outFile parseFiles salesDifference globalSales).
Local Abbreviation script :=
  (script HASHES outFile parseFiles salesDifference globalSales).

(** C4. When the parse result of a CSV file holds at least one error,
    [parseStudentAnswerCsv] writes every error message with
    [console.error] and throws, so that its caller gets no data (the
    version being processed ends the script with the uncaught error);
    when the parse result holds no error, it returns the parsed rows as
    they are. *)
Theorem parse_errors_are_logged_and_thrown file csv :
  parseFiles file = Ok csv ->
  (errors csv <> [] ->
    parseStudentAnswerCsv parseFiles file
    = (map message (errors csv), Throw "Could not parse the CSV file.") /\
    forall hash d st,
      file = csvFile hash ->
      processVersion hash d st
      = Ended (log (map ConsoleError (map message (errors csv))
          ++ [Uncaught "Could not parse the CSV file."])%list st)) /\
  (errors csv = [] ->
    parseStudentAnswerCsv parseFiles file = ([], Ok (data csv))).
Proof.
  intros Hparse. unfold CreateTest.try. split.
  - intros Herr.
    assert (Hrun : parseStudentAnswerCsv parseFiles file
        = (map message (errors csv), Throw "Could not parse the CSV file.")).
    { unfold parseStudentAnswerCsv. rewrite Hparse.
      destruct (errors csv); [congruence | reflexivity]. }
    split; [exact Hrun|].
    intros hash d st ->. unfold QaGen.processVersion. now rewrite Hrun.
  - intros Herr. unfold parseStudentAnswerCsv. now rewrite Hparse, Herr.
Qed.

(** *** The object being filled *)

Lemma entry_of_put_eq obj hash entry : entry_of (put obj hash entry) hash = Some entry.
Proof.
  induction obj as [|[k e] obj IH]; simpl.
  - now rewrite String.eqb_refl.
  - destruct (String.eqb k hash) eqn:Hk; simpl; now rewrite Hk.
Qed.

Lemma entry_of_put_ne obj hash other entry :
  hash <> other -> entry_of (put obj hash entry) other = entry_of obj other.
Proof.
  intros Hne. apply String.eqb_neq in Hne.
  induction obj as [|[k e] obj IH]; simpl.
  - now rewrite Hne.
  - destruct (String.eqb_spec k hash) as [->|Hk]; simpl.
    + now rewrite Hne.
    + now rewrite IH.
Qed.

Lemma put_put obj hash entry entry' :
  put (put obj hash entry) hash entry' = put obj hash entry'.
Proof.
  induction obj as [|[k e] obj IH]; simpl.
  - now rewrite String.eqb_refl.
  - destruct (String.eqb k hash) eqn:Hk; simpl; rewrite Hk; [reflexivity|].
    now rewrite IH.
Qed.

Lemma assign_put obj hash entry key text :
  assign (put obj hash entry) hash key text
  = Ok (put obj hash (set entry key (VStr text))).
Proof. unfold assign. now rewrite entry_of_put_eq, put_put. Qed.

Lemma countGames_total name rows numGames :
  Forall (fun row => header_Name < length row) rows ->
  exists counted, countGames name rows numGames = Ok counted.
Proof.
  intros Hrows. revert numGames.
  induction Hrows as [|row rows Hrow _ IH]; intros numGames; simpl; [eauto|].
  destruct (lookup_lt_is_Some_2 row header_Name Hrow) as [title ->]. apply IH.
Qed.

Lemma get_outside_keys (entry : object) key : key ∉ keys entry -> get entry key = VUndefined.
Proof.
  induction entry as [|[k v] entry IH]; simpl; [reflexivity|].
  intros Hnot. apply not_elem_of_cons in Hnot as [Hne Hnot].
  destruct (String.eqb_spec k key); [congruence | auto].
Qed.

(** The four questions fill a fresh entry with the eight question and
    answer texts, and nothing else. *)
Lemma questions_fill_entry hash csv d obj :
  Forall (fun row => header_Name < length row) (tail csv) ->
  exists entry,
    questions hash csv d (put obj hash []) = Ok (put obj hash entry) /\
    keys entry = qaKeys /\
    Forall (fun field => exists text, field.2 = VStr text) entry.
Proof.
  intros Hrows.
  destruct (countGames_total
      (match names !! randIndex d with Some n => n | None => "undefined" end)
      (tail csv) 0 Hrows) as [counted Hcount].
  unfold QaGen.questions, questionOne, questionTwo, questionThree, questionFour.
  rewrite !assign_put, Hcount. rewrite !assign_put.
  eexists. split; [reflexivity|]. split; [reflexivity|].
  repeat constructor; eexists; reflexivity.
Qed.

Lemma generated_entry_has_no_file (entry : object) :
  keys entry = qaKeys ->
  get entry "fileName" = VUndefined /\ get entry "fileUrl" = VUndefined.
Proof.
  intros Hkeys. split; apply get_outside_keys; rewrite Hkeys; unfold qaKeys;
    intros Hin; repeat (apply elem_of_cons in Hin as [Hin|Hin]; [discriminate Hin|]);
    now apply elem_of_nil in Hin.
Qed.

(** The versions still to be processed: when there are as many as
    [numLeft] says, the last of them writes the file. *)
Lemma eachVersion_writes rand hashes i st :
  hashes <> [] ->
  numLeft st = Z.of_nat (length hashes) ->
  Forall (usable parseFiles) hashes ->
  exists st',
    eachVersion i hashes rand st = Ended st' /\
    trace st'
    = (trace st ++ map (fun hash => ConsoleLog ("FINISHED " ++ hash)) hashes
      ++ [WriteFile outFile (studentQA st');
        ConsoleLog ("All done. Answer file written to " ++ outFile);
        ProcessExit])%list /\
    (forall hash, hash ∈ hashes -> generated (studentQA st') hash) /\
    (forall hash, hash ∉ hashes -> entry_of (studentQA st') hash = entry_of (studentQA st) hash).
Proof.
  intros Hne Hleft Huse. revert i st Hne Hleft.
  induction Huse as [|hash rest Hhash Hrest IH]; intros i st Hne Hleft; [congruence|].
  destruct Hhash as (csv & Hparse & Herr & Hrows).
  destruct (questions_fill_entry hash (data csv) (rand i) (studentQA st) Hrows)
    as (entry & Hfill & Hkeys & Htexts).
  assert (Hversion : processVersion hash (rand i) st
      = printWhenDone outFile hash
      {| numLeft := numLeft st;
        studentQA := put (studentQA st) hash entry;
        trace := trace st |}).
  { unfold QaGen.processVersion, parseStudentAnswerCsv.
    rewrite Hparse, Herr. cbn [length Nat.ltb Nat.leb]. now rewrite Hfill. }
  cbn [QaGen.eachVersion]. rewrite Hversion. unfold printWhenDone.
  cbn [numLeft studentQA trace].
  destruct rest as [|next rest].
  - (* the last version *)
    replace (numLeft st - 1 =? 0)%Z with true
      by (symmetry; apply Z.eqb_eq; simpl in Hleft; lia).
    eexists. split; [reflexivity|]. unfold log. cbn [numLeft studentQA trace].
    split; [|split].
    + cbn [map app]. now rewrite <- app_assoc.
    + intros h Hh. apply list_elem_of_singleton in Hh as ->.
      exists entry. split; [apply entry_of_put_eq | now split].
    + intros h Hh. apply entry_of_put_ne. intros ->. apply Hh. left.
  - replace (numLeft st - 1 =? 0)%Z with false
      by (symmetry; apply Z.eqb_neq; simpl length in Hleft; lia).
    set (st1 := {| numLeft := numLeft st - 1;
          studentQA := put (studentQA st) hash entry;
          trace := (trace st ++ [ConsoleLog ("FINISHED " ++ hash)])%list |}).
    destruct (IH (S i) st1) as (st' & Hrun & Htrace & Hgen & Hkeep).
    { discriminate. }
    { subst st1. cbn [numLeft]. simpl length in *. lia. }
    exists st'. split; [exact Hrun|]. split; [|split].
    + rewrite Htrace. subst st1. cbn [trace]. rewrite <- app_assoc. reflexivity.
    + intros h Hh. destruct (decide (h ∈ next :: rest)) as [Hin|Hout]; [now apply Hgen|].
      apply elem_of_cons in Hh as [->|Hh]; [|contradiction].
      exists entry. rewrite (Hkeep hash Hout). subst st1. cbn [studentQA].
      split; [apply entry_of_put_eq | now split].
    + intros h Hh. apply not_elem_of_cons in Hh as [Hne' Hh].
      rewrite (Hkeep h Hh). subst st1. cbn [studentQA].
      apply entry_of_put_ne. congruence.
Qed.

(** C7, as amended. The QA file written after all versions are processed
    maps each version hash to its generated question and answer texts: for
    every hash in [HASHES] the written object holds exactly the fields
    [q1q], [q1a], [q2q], [q2a], [q3q], [q3a], [q4q] and [q4a], all of them
    strings; it holds no file download fields ([fileName], [fileUrl]). *)
Theorem qa_file_holds_questions_and_answers rand :
  HASHES <> [] ->
  Forall (usable parseFiles) HASHES ->
  exists st written,
    script rand = Ended st /\
    trace st
    = (map (fun hash => ConsoleLog ("FINISHED " ++ hash)) HASHES
      ++ [WriteFile outFile written;
        ConsoleLog ("All done. Answer file written to " ++ outFile);
        ProcessExit])%list /\
    forall hash, hash ∈ HASHES ->
    exists entry,
      entry_of written hash = Some entry /\
      keys entry = qaKeys /\
      Forall (fun field => exists text, field.2 = VStr text) entry /\
      get entry "fileName" = VUndefined /\ get entry "fileUrl" = VUndefined.
Proof.
  intros Hne Huse.
  destruct (eachVersion_writes rand HASHES 0
      {| numLeft := Z.of_nat (length HASHES); studentQA := []; trace := [] |}
      Hne eq_refl Huse) as (st & Hrun & Htrace & Hgen & _).
  exists st, (studentQA st). split; [exact Hrun|]. split; [exact Htrace|].
  intros hash Hh. destruct (Hgen hash Hh) as (entry & Hentry & Hkeys & Htexts).
  exists entry. repeat split; try assumption; now apply generated_entry_has_no_file.
Qed.

End Script.

(** *** The theorems at sample data *)

Lemma usable_examples : Forall (usable QaExamples.parser) Hash.HASHES.
Proof.
  repeat constructor;
    (eexists; split; [reflexivity|]; split; [reflexivity|]; repeat constructor).
Qed.

Lemma parse_errors_are_logged_and_thrown_witness :
  parseStudentAnswerCsv QaExamples.failing_parser "inFiles/iG6Zp4WDF/Video Game Sales.csv"
  = (["Too few fields"; "Quoted field unterminated"], Throw "Could not parse the CSV file.").
Proof.
  destruct (parse_errors_are_logged_and_thrown "TestQA.json" QaExamples.failing_parser
      QaExamples.salesDifference QaExamples.globalSales
      "inFiles/iG6Zp4WDF/Video Game Sales.csv"
      {| data := QaExamples.sales;
        errors := [ParseError "Too few fields";
          ParseError "Quoted field unterminated"] |} eq_refl)
    as [Hthrow _].
  destruct Hthrow as [Hrun _]; [discriminate | exact Hrun].
Defined.

Lemma qa_file_holds_questions_and_answers_witness :
  exists st written,
    script Hash.HASHES "TestQA.json" QaExamples.parser QaExamples.salesDifference
    QaExamples.globalSales QaExamples.rand = Ended st /\
    WriteFile "TestQA.json" written ∈ trace st /\
    forall hash, hash ∈ Hash.HASHES ->
    exists entry, entry_of written hash = Some entry /\ keys entry = qaKeys.
Proof.
  destruct (qa_file_holds_questions_and_answers Hash.HASHES "TestQA.json"
      QaExamples.parser QaExamples.salesDifference QaExamples.globalSales
      QaExamples.rand) as (st & written & Hrun & Htrace & Hfields).
  - discriminate.
  - exact usable_examples.
  - exists st, written. split; [exact Hrun|]. split.
    + rewrite Htrace. apply elem_of_app. right. left.
    + intros hash Hh. destruct (Hfields hash Hh) as (entry & He & Hk & _).
      exists entry. now split.
Defined.

(** C7 as stated fails: the object written for a version has the eight
    question and answer fields and no file download field. *)
Lemma written_qa_file_has_no_download_fields :
  exists st written entry,
    script Hash.HASHES "TestQA.json" QaExamples.parser QaExamples.salesDifference
    QaExamples.globalSales QaExamples.rand = Ended st /\
    last (trace st) = Some ProcessExit /\
    WriteFile "TestQA.json" written ∈ trace st /\
    entry_of written "iG6Zp4WDF" = Some entry /\
    keys entry = ["q1q"; "q1a"; "q2q"; "q2a"; "q3q"; "q3a"; "q4q"; "q4a"] /\
    ("fileName" ∉ keys entry) /\ ("fileUrl" ∉ keys entry) /\
    get entry "fileName" = VUndefined /\ get entry "fileUrl" = VUndefined.
Proof.
  eexists _, _, _. split; [vm_compute; reflexivity|]. cbn [trace].
  split; [reflexivity|]. split; [do 3 right; left|].
  split; [reflexivity|]. split; [reflexivity|].
  assert (Hout : forall key, key = "fileName" \/ key = "fileUrl" ->
      key ∉ ["q1q"; "q1a"; "q2q"; "q2a"; "q3q"; "q3a"; "q4q"; "q4a"]).
  { intros key Hkey Hin.
    repeat (apply elem_of_cons in Hin as [->|Hin]; [destruct Hkey; discriminate|]).
    now apply elem_of_nil in Hin. }
  repeat split; try reflexivity; apply Hout; auto.
Qed.

End QaGenProofs.

(** ** Properties of the Canvas helper module *)

Module CanvasUtilProofs.
Import Js CanvasUtil.

(** *** The next-page pattern *)

Lemma string_length_append (a b : string) :
  String.length (a ++ b) = String.length a + String.length b.
Proof. induction a as [|c a IH]; simpl; [reflexivity | now rewrite IH]. Qed.

Lemma star_then_sound tail s group :
  star_then tail s = Some group -> s = group ++ tail /\ all_dot group = true.
Proof.
  revert group. induction s as [|c s IH]; intros group; cbn [star_then].
  - destruct (String.eqb "" tail) eqn:He; [|intros [=]].
    apply String.eqb_eq in He. intros [= <-]. now split.
  - assert (Hback : (if String.eqb (String c s) tail then Some EmptyString else None)
        = Some group -> String c s = group ++ tail /\ all_dot group = true).
    { destruct (String.eqb (String c s) tail) eqn:He; [|intros [=]].
      apply String.eqb_eq in He. intros [= <-]. now split. }
    destruct (dot c) eqn:Hc; [|exact Hback].
    destruct (star_then tail s) as [g|] eqn:Hg; [|exact Hback].
    intros [= <-]. destruct (IH g eq_refl) as [-> Hd].
    simpl. now rewrite Hc, Hd.
Qed.

Lemma star_then_tail tail : star_then tail tail = Some EmptyString.
Proof.
  destruct tail as [|c tail]; [reflexivity|].
  cbn [star_then]. rewrite String.eqb_refl.
  destruct (dot c); [|reflexivity].
  destruct (star_then (String c tail) tail) as [g|] eqn:Hg; [|reflexivity].
  apply star_then_sound in Hg as [Hg _].
  apply (f_equal String.length) in Hg.
  rewrite string_length_append in Hg. simpl in Hg. lia.
Qed.

Lemma star_then_complete tail group :
  all_dot group = true -> star_then tail (group ++ tail) = Some group.
Proof.
  induction group as [|c group IH]; simpl.
  - intros _. apply star_then_tail.
  - intros H. apply andb_true_iff in H as [Hc Hd].
    now rewrite Hc, IH.
Qed.

Lemma nextRegEx_exec_spec entry url :
  nextRegEx_exec entry = Some url <-> has_next_form entry url.
Proof.
  unfold has_next_form, nextRegEx_exec. fold next_tail. split.
  - destruct entry as [|c rest]; [discriminate|].
    destruct (Ascii.eqb_spec c "<") as [->|]; [|discriminate].
    intros H. apply star_then_sound in H as [-> Hd]. now split.
  - intros [-> Hd].
    change (star_then next_tail (url ++ next_tail) = Some url).
    now apply star_then_complete.
Qed.

Lemma first_next_found links before entry after url :
  map trim links = (before ++ entry :: after)%list ->
  has_next_form entry url ->
  (forall e u, e ∈ before -> ~ has_next_form e u) ->
  first_next links = Some url.
Proof.
  revert links. induction before as [|b before IH]; intros links Hsplit Hform Hnone;
    destruct links as [|link links]; simpl in Hsplit; try discriminate Hsplit;
    injection Hsplit as Hhead Htail; simpl.
  - apply nextRegEx_exec_spec in Hform. now rewrite Hhead, Hform.
  - destruct (nextRegEx_exec (trim link)) as [u|] eqn:Hexec.
    + exfalso. apply nextRegEx_exec_spec in Hexec.
      apply (Hnone b u); [left | congruence].
    + apply IH; [exact Htail | exact Hform |].
      intros e u He. apply Hnone. now right.
Qed.

Lemma first_next_none links :
  (forall e u, e ∈ map trim links -> ~ has_next_form e u) ->
  first_next links = None.
Proof.
  induction links as [|link links IH]; intros Hnone; simpl; [reflexivity|].
  destruct (nextRegEx_exec (trim link)) as [u|] eqn:Hexec.
  - exfalso. apply nextRegEx_exec_spec in Hexec.
    apply (Hnone (trim link) u); [left | exact Hexec].
  - apply IH. intros e u He. apply Hnone. now right.
Qed.

(** C3. When the entries of a Link header, split on commas and trimmed,
    contain one of the exact form [<URL>; rel="next"], [nextURL] returns
    the URL of the first such entry; for an [undefined], [null] or empty
    header, and for a header without such an entry, it returns [null]. *)
Theorem nextURL_returns_first_next_link :
  (forall linkText before entry after url,
      map trim (split "," linkText) = (before ++ entry :: after)%list ->
      has_next_form entry url ->
      (forall e u, e ∈ before -> ~ has_next_form e u) ->
      nextURL (VStr linkText) = Ok (Some url)) /\
  nextURL VUndefined = Ok None /\
  nextURL VNull = Ok None /\
  nextURL (VStr "") = Ok None /\
  (forall linkText,
      (forall e u, e ∈ map trim (split "," linkText) -> ~ has_next_form e u) ->
      nextURL (VStr linkText) = Ok None).
Proof.
  split; [|repeat split].
  - intros linkText before entry after url Hsplit Hform Hnone.
    unfold nextURL. simpl.
    destruct (String.eqb_spec linkText "") as [->|Hne]; simpl.
    + exfalso. destruct Hform as [-> _].
      destruct before as [|b [|? ?]]; discriminate.
    + f_equal. eapply first_next_found; eauto.
  - intros linkText Hnone. unfold nextURL. simpl.
    destruct (String.eqb linkText ""); simpl; [reflexivity|].
    f_equal. now apply first_next_none.
Qed.

Lemma nextURL_returns_first_next_link_witness :
  nextURL (VStr ("<https://canvas/api/v1/courses/0/users?page=1>; rel=" ++ quoted "current"
      ++ ", <https://canvas/api/v1/courses/0/users?page=2>; rel=" ++ quoted "next"
      ++ ",<https://canvas/api/v1/courses/0/users?page=5>; rel=" ++ quoted "last"))
  = Ok (Some "https://canvas/api/v1/courses/0/users?page=2").
Proof.
  destruct nextURL_returns_first_next_link as [Hfound _].
  apply (Hfound _
      ["<https://canvas/api/v1/courses/0/users?page=1>; rel=" ++ quoted "current"]
      ("<https://canvas/api/v1/courses/0/users?page=2>; rel=" ++ quoted "next")
      ["<https://canvas/api/v1/courses/0/users?page=5>; rel=" ++ quoted "last"]).
  - reflexivity.
  - split; reflexivity.
  - intros e u He Hform. apply list_elem_of_singleton in He. subst e.
    apply nextRegEx_exec_spec in Hform. discriminate Hform.
Defined.

(** *** Request-argument constructors *)

Lemma construct_with_header call st :
  exists d, construct call st = with_header st d.
Proof. destruct call; eexists; reflexivity. Qed.

Lemma after_inits_snoc tokens token :
  after_inits (tokens ++ [token])%list = init token (after_inits tokens).
Proof. unfold after_inits. now rewrite fold_left_app. Qed.

Lemma after_inits_initialized tokens :
  initialized (after_inits tokens) = false <-> tokens = [].
Proof.
  destruct tokens as [|t tokens] using rev_ind.
  - now split.
  - rewrite after_inits_snoc. simpl. split; [discriminate|].
    intros H. now destruct tokens.
Qed.

(** C8. Every request-argument constructor throws exactly when the
    module has not been initialised, that is when no [init(token)] call
    came first; once [init(token)] has been called, every constructed
    argument object carries the header [Authorization: Bearer <token>]
    for the token of the latest [init] call. *)
Theorem constructors_throw_iff_not_initialised (call : constructor_call) :
  (forall st,
      (exists msg, construct call st = Throw msg) <-> initialized st = false) /\
  (forall tokens,
      (exists msg, construct call (after_inits tokens) = Throw msg) <-> tokens = []) /\
  (forall tokens token,
      exists args,
        construct call (after_inits (tokens ++ [token])%list) = Ok args /\
        Authorization (headers args) = VStr ("Bearer " ++ to_string token)).
Proof.
  assert (Hst : forall st,
      (exists msg, construct call st = Throw msg) <-> initialized st = false).
  { intros st. destruct (construct_with_header call st) as [d ->].
    unfold with_header, getStandardHeader.
    destruct (initialized st); simpl; split.
    - intros [msg [=]].
    - discriminate.
    - reflexivity.
    - intros _. now exists initErrMsg. }
  split; [exact Hst|]. split.
  - intros tokens. rewrite Hst. apply after_inits_initialized.
  - intros tokens token. rewrite after_inits_snoc.
    destruct (construct_with_header call (init token (after_inits tokens))) as [d ->].
    eexists. split; reflexivity.
Qed.

(** *** [checkTruthy] *)

Lemma ends_with_q_spec key :
  ends_with_q key = true <-> exists stem, key = stem ++ "q".
Proof.
  induction key as [|c key IH].
  - split; [discriminate|]. intros [[|? ?] [=]].
  - destruct key as [|c' key].
    + simpl. split.
      * intros H. apply Ascii.eqb_eq in H as ->. now exists "".
      * intros [[|? [|? ?]] [=]]. now subst.
    + change (ends_with_q (String c (String c' key)))
        with (ends_with_q (String c' key)).
      rewrite IH. split.
      * intros [stem ->]. now exists (String c stem).
      * intros [[|d stem] [=]]. subst. now exists stem.
Qed.

Lemma append_q_inj stem stem' : stem ++ "q" = stem' ++ "q" -> stem = stem'.
Proof.
  revert stem'. induction stem as [|c stem IH]; intros [|c' stem'] H;
    simpl in H; try reflexivity.
  - injection H as _ H. now destruct stem'.
  - injection H as _ H. now destruct stem.
  - injection H as -> H. f_equal. now apply IH.
Qed.

Lemma replace_last_q stem : replace_last_with_a (stem ++ "q") = stem ++ "a".
Proof.
  induction stem as [|c stem IH]; [reflexivity|].
  simpl. rewrite IH. destruct stem; reflexivity.
Qed.

Lemma missing_answer_spec v :
  missing_answer v = true <-> v = VUndefined \/ v = VNull \/ v = VStr "".
Proof.
  destruct v; simpl; try (split; [discriminate | intros [H|[H|H]]; discriminate H]).
  - split; auto.
  - split; auto.
  - rewrite String.eqb_eq. split.
    + intros ->. auto.
    + intros [H|[H|H]]; inversion H; reflexivity.
Qed.

Lemma addError_reports result msg : errors (addError result msg) <> None.
Proof. unfold addError. destruct (errors result); discriminate. Qed.

(** The inner loop reports an error exactly when one was already
    reported or a question among the keys visited has no answer. *)
Lemma check_keys_reports auid entry ks result :
  errors
  (fold_left
    (fun res key =>
      if ends_with_q key then
        let aKey := replace_last_with_a key in
        let aVal := get entry aKey in
        if missing_answer aVal then
          addError res (auid ++ " - Missing or invalid answer for key: " ++ aKey)
      else res
      else res) ks result) <> None
  <-> errors result <> None \/
  exists stem, (stem ++ "q") ∈ ks /\ missing_answer (get entry (stem ++ "a")) = true.
Proof.
  revert result. induction ks as [|key ks IH]; intros result; simpl.
  - split; [now left|]. intros [H|(stem & H & _)]; [exact H|].
    now apply elem_of_nil in H.
  - rewrite IH. clear IH. destruct (ends_with_q key) eqn:Hq.
    + apply ends_with_q_spec in Hq as [stem ->]. rewrite replace_last_q.
      destruct (missing_answer (get entry (stem ++ "a"))) eqn:Hm.
      * split; [|intros _; left; apply addError_reports].
        intros _. right. exists stem. split; [left | exact Hm].
      * split.
        -- intros [H|(stem' & Hin & Hm')]; [now left | right].
           exists stem'. split; [now right | exact Hm'].
        -- intros [H|(stem' & Hin & Hm')]; [now left | right].
           exists stem'. split; [|exact Hm'].
           apply elem_of_cons in Hin as [Heq|Hin]; [|exact Hin].
           apply append_q_inj in Heq. subst stem'. congruence.
    + split.
      * intros [H|(stem & Hin & Hm)]; [now left | right].
        exists stem. split; [now right | exact Hm].
      * intros [H|(stem & Hin & Hm)]; [now left | right].
        exists stem. split; [|exact Hm].
        apply elem_of_cons in Hin as [Heq|Hin]; [|exact Hin].
        exfalso. assert (ends_with_q key = true) by (apply ends_with_q_spec; eauto).
        congruence.
Qed.

Lemma check_entry_reports auid entry result :
  errors (check_entry auid entry result) <> None
  <-> errors result <> None \/ unanswered entry \/
  lacks entry "fileName" \/ lacks entry "fileUrl".
Proof.
  unfold check_entry, check_answers, unanswered, lacks.
  destruct (truthy (get entry "fileName")) eqn:Hn;
    destruct (truthy (get entry "fileUrl")) eqn:Hu; simpl;
    try (split; [intros _; tauto | intros _; apply addError_reports]).
  rewrite check_keys_reports. setoid_rewrite missing_answer_spec.
  split; [tauto|]. intros [H|[H|[H|H]]]; try discriminate; tauto.
Qed.

Lemma checkTruthy_fold_reports QaObject result :
  errors (fold_left (fun res '(auid, entry) => check_entry auid entry res)
    QaObject result) <> None
  <-> errors result <> None \/
  exists auid entry, (auid, entry) ∈ QaObject /\
  (unanswered entry \/ lacks entry "fileName" \/ lacks entry "fileUrl").
Proof.
  revert result. induction QaObject as [|[auid entry] rest IH]; intros result; simpl.
  - split; [now left|]. intros [H|(a & e & H & _)]; [exact H|].
    now apply elem_of_nil in H.
  - rewrite IH, check_entry_reports. split.
    + intros [[H|H]|(a & e & Hin & H)]; [now left | right | right].
      * exists auid, entry. split; [left | exact H].
      * exists a, e. split; [now right | exact H].
    + intros [H|(a & e & Hin & H)]; [now left; left|].
      apply elem_of_cons in Hin as [[= -> ->]|Hin].
      * left; now right.
      * right. eauto.
Qed.

Lemma checkTruthy_reports QaObject :
  errors (checkTruthy QaObject) <> None
  <-> exists auid entry, (auid, entry) ∈ QaObject /\
  (unanswered entry \/ lacks entry "fileName" \/ lacks entry "fileUrl").
Proof.
  unfold checkTruthy. rewrite checkTruthy_fold_reports. simpl.
  split; [intros [H|H]; [congruence | exact H] | now right].
Qed.

End CanvasUtilProofs.

(** ** Properties of the quiz-creation script *)

Module CreateTestProofs.
Import Js CanvasUtil CreateTest.

(** *** Objects *)

Lemma get_set_eq (props : object) key v : get (set props key v) key = v.
Proof.
  induction props as [|[k w] props IH]; simpl.
  - now rewrite String.eqb_refl.
  - destruct (String.eqb k key) eqn:Hk; simpl; now rewrite Hk.
Qed.

Lemma get_set_ne (props : object) key key' v :
  key <> key' -> get (set props key v) key' = get props key'.
Proof.
  intros Hne. induction props as [|[k w] props IH]; simpl.
  - apply String.eqb_neq in Hne. now rewrite Hne.
  - destruct (String.eqb_spec k key) as [->|Hk]; simpl.
    + apply String.eqb_neq in Hne. now rewrite Hne.
    + now rewrite IH.
Qed.

Lemma lookup_update_eq {A} (obj : list (string * A)) key v :
  lookup_entry obj key <> None -> lookup_entry (update_entry obj key v) key = Some v.
Proof.
  induction obj as [|[k w] obj IH]; simpl; [congruence|].
  destruct (String.eqb k key) eqn:Hk; simpl; rewrite Hk; auto.
Qed.

Lemma lookup_update_ne {A} (obj : list (string * A)) key key' v :
  key <> key' -> lookup_entry (update_entry obj key v) key' = lookup_entry obj key'.
Proof.
  intros Hne. induction obj as [|[k w] obj IH]; simpl; [reflexivity|].
  destruct (String.eqb_spec k key) as [->|Hk]; simpl.
  - apply String.eqb_neq in Hne. now rewrite Hne.
  - now rewrite IH.
Qed.

Lemma keys_update_entry {A} (obj : list (string * A)) key v :
  keys (update_entry obj key v) = keys obj.
Proof.
  induction obj as [|[k w] obj IH]; simpl; [reflexivity|].
  destruct (String.eqb k key); simpl; [reflexivity | now rewrite <- IH].
Qed.

Lemma lookup_entry_keys {A} (obj : list (string * A)) key :
  key ∈ keys obj -> exists v, lookup_entry obj key = Some v.
Proof.
  induction obj as [|[k w] obj IH]; simpl.
  - intros H. now apply elem_of_nil in H.
  - intros H. destruct (String.eqb_spec k key) as [->|Hk]; [eauto|].
    apply elem_of_cons in H as [H|H]; [congruence | auto].
Qed.

(** The file download fields of a version enter the QA object here, from
    the file-URL table, and not through the QA file. *)
Lemma merge_files_adds_file_fields (s : object) f :
  get (merge_files s (Some f)) "fileName" = VStr (fileName f) /\
  get (merge_files s (Some f)) "fileUrl" = VStr (fileUrl f).
Proof.
  unfold merge_files. split.
  - rewrite get_set_ne by discriminate. apply get_set_eq.
  - apply get_set_eq.
Qed.

(** *** Assigning students to versions *)

Lemma nearest_double_exact n : (Z.abs n < 2 ^ 53)%Z -> nearest_double n = Some n.
Proof.
  intros Hn. unfold nearest_double. cbv zeta.
  apply Z.ltb_lt in Hn. now rewrite Hn.
Qed.

Lemma lookup_entry_None {A} (obj : list (string * A)) key :
  lookup_entry obj key = None <-> key ∉ keys obj.
Proof.
  induction obj as [|[k w] obj IH]; simpl.
  - split; [intros _; apply not_elem_of_nil | reflexivity].
  - rewrite not_elem_of_cons. destruct (String.eqb_spec k key) as [->|Hk].
    + split; [discriminate | intros [H _]; congruence].
    + rewrite IH. split; [now split; [congruence|] | now intros [_ H]].
Qed.

(** A remainder that is an index of [HASHES]: that of a number that is
    not negative, and the zero of a negative multiple. *)
Lemma at_index_remainder d :
  (0 <= d \/ Z.rem d NUM_VERSIONS = 0)%Z ->
  exists version,
    at_index HASHES (Some (Z.rem d NUM_VERSIONS)) = Some version /\ version ∈ HASHES.
Proof.
  intros Hd.
  assert (Hr : (0 <= Z.rem d NUM_VERSIONS < 3)%Z).
  { destruct Hd as [Hd| ->]; [|lia]. apply Z.rem_bound_pos; unfold NUM_VERSIONS; lia. }
  unfold at_index. destruct (Z.ltb_spec (Z.rem d NUM_VERSIONS) 0); [lia|].
  destruct (lookup_lt_is_Some_2 HASHES (Z.to_nat (Z.rem d NUM_VERSIONS))) as [version Hv].
  { simpl. lia. }
  exists version. split; [exact Hv|]. eapply list_elem_of_lookup_2; eauto.
Qed.

(** The other remainders are negative, and index nothing. *)
Lemma at_index_negative d :
  ~ (0 <= d \/ Z.rem d NUM_VERSIONS = 0)%Z ->
  at_index HASHES (Some (Z.rem d NUM_VERSIONS)) = @None string.
Proof.
  intros Hd.
  assert (Hr : (- NUM_VERSIONS < Z.rem d NUM_VERSIONS <= 0)%Z)
    by (apply Z.rem_bound_pos_neg; unfold NUM_VERSIONS; lia).
  unfold at_index. destruct (Z.ltb_spec (Z.rem d NUM_VERSIONS) 0); [reflexivity | lia].
Qed.

(** The users with a version are those whose SIS id is numbered. *)
Lemma numbered_version_of s :
  numbered s <-> exists version, version_of s = Some version /\ version ∈ HASHES.
Proof.
  split.
  - intros (props & n & d & -> & Hparse & Hd & Hcase).
    destruct (at_index_remainder d Hcase) as (version & Hat & Hin).
    exists version. split; [|exact Hin].
    unfold version_of, remainder. cbn [prop]. now rewrite Hparse, Hd.
  - intros (version & Hv & _). unfold version_of, remainder in Hv.
    destruct s as [| | | | | |props]; try discriminate Hv. cbn [prop] in Hv.
    destruct (parseInt (get props "sis_user_id")) as [n|] eqn:Hparse; [|discriminate Hv].
    destruct (nearest_double n) as [d|] eqn:Hd; [|discriminate Hv].
    exists props, n, d. repeat split; try assumption.
    destruct (Z_le_dec 0 d) as [Hpos|Hneg]; [now left|].
    destruct (Z.eq_dec (Z.rem d NUM_VERSIONS) 0%Z) as [Hzero|Hne]; [now right|].
    rewrite at_index_negative in Hv by tauto. discriminate Hv.
Qed.

Lemma version_of_elem s version : version_of s = Some version -> version ∈ HASHES.
Proof.
  unfold version_of. destruct (prop s "sis_user_id") as [v|]; [|discriminate].
  unfold at_index. destruct (remainder v NUM_VERSIONS) as [i|]; [|discriminate].
  destruct (i <? 0)%Z; [discriminate|]. apply list_elem_of_lookup_2.
Qed.

Lemma numbered_dec s : numbered s \/ ~ numbered s.
Proof.
  destruct (version_of s) as [version|] eqn:Hv.
  - left. apply numbered_version_of. exists version. split; [exact Hv|].
    now apply version_of_elem with s.
  - right. intros Hs. apply numbered_version_of in Hs as (version & Hs & _). congruence.
Qed.

Lemma ids_of_falsy qa version entry :
  lookup_entry qa version = Some entry ->
  truthy (get entry "id") = false -> ids_of qa version = [].
Proof.
  intros Hl Hf. unfold ids_of. rewrite Hl.
  destruct (get entry "id"); try reflexivity. discriminate.
Qed.

(** One student whose SIS id is numbered goes to the version at the
    remainder of that number, and to no other. *)
Lemma assignStudent_numbered s qa :
  ready qa -> numbered s ->
  exists version qa',
    version_of s = Some version /\ version ∈ HASHES /\
    assignStudent s qa = Ok qa' /\ ready qa' /\ keys qa' = keys qa /\
    ids_of qa' version = (ids_of qa version ++ [id_of s])%list /\
    (forall other, other <> version -> ids_of qa' other = ids_of qa other).
Proof.
  intros Hready (props & n & d & -> & Hparse & Hd & Hcase).
  destruct (at_index_remainder d Hcase) as (version & Hat & Hin).
  destruct (Hready version Hin) as (entry & Hentry & Hlists).
  assert (Hversion : version_of (VObj props) = Some version).
  { unfold version_of, remainder. cbn [prop]. now rewrite Hparse, Hd. }
  assert (Hhash : key_of (at_index HASHES
        (remainder (get props "sis_user_id") NUM_VERSIONS)) = version).
  { unfold remainder. now rewrite Hparse, Hd, Hat. }
  (* the entry with its two lists, created when missing *)
  set (entry1 := if negb (truthy (get entry "id"))
      then set (set entry "id" (VArr [])) "auid" (VArr [])
      else entry).
  assert (Hentry1 : exists ids auids,
      get entry1 "id" = VArr ids /\ get entry1 "auid" = VArr auids /\
      ids = ids_of qa version).
  { subst entry1. destruct Hlists as [Hf|(ids & auids & Hi & Ha)].
    - rewrite Hf. simpl. exists [], []. repeat split.
      + rewrite get_set_ne by discriminate. apply get_set_eq.
      + apply get_set_eq.
      + symmetry. eapply ids_of_falsy; eauto.
    - rewrite Hi. simpl. exists ids, auids. repeat split; [exact Hi | exact Ha|].
      unfold ids_of. now rewrite Hentry, Hi. }
  destruct Hentry1 as (ids & auids & Hids & Hauids & Hold).
  set (entry2 := set (set entry1 "id" (VArr (ids ++ [get props "id"])%list))
      "auid" (VArr (auids ++ [get props "sis_user_id"])%list)).
  exists version, (update_entry qa version entry2).
  assert (Hrun : assignStudent (VObj props) qa = Ok (update_entry qa version entry2)).
  { unfold assignStudent. simpl prop. cbv iota. rewrite Hhash, Hentry.
    fold entry1. rewrite Hids. rewrite get_set_ne by discriminate.
    now rewrite Hauids. }
  assert (Hid2 : get entry2 "id" = VArr (ids ++ [get props "id"])%list).
  { subst entry2. rewrite get_set_ne by discriminate. apply get_set_eq. }
  assert (Hauid2 : get entry2 "auid" = VArr (auids ++ [get props "sis_user_id"])%list).
  { subst entry2. apply get_set_eq. }
  assert (Hlook : lookup_entry (update_entry qa version entry2) version = Some entry2).
  { apply lookup_update_eq. congruence. }
  repeat split.
  - exact Hversion.
  - exact Hin.
  - exact Hrun.
  - intros v Hv. destruct (String.eqb_spec version v) as [<-|Hne].
    + exists entry2. split; [exact Hlook|]. right. eauto.
    + rewrite lookup_update_ne by exact Hne. now apply Hready.
  - apply keys_update_entry.
  - unfold ids_of at 1. rewrite Hlook, Hid2. simpl. now rewrite Hold.
  - intros other Hne. unfold ids_of. rewrite lookup_update_ne by congruence.
    reflexivity.
Qed.

(** All students of a page. *)
Lemma assignStudents_numbered users qa :
  ready qa -> Forall numbered users ->
  exists qa',
    assignStudents users qa = Ok qa' /\ ready qa' /\ keys qa' = keys qa /\
    forall version,
      ids_of qa' version
      = (ids_of qa version
        ++ map id_of (filter (fun s => version_of s = Some version) users))%list.
Proof.
  intros Hready Hall. revert qa Hready.
  induction Hall as [|s users Hs Hall IH]; intros qa Hready.
  - exists qa. repeat split; [exact Hready|]. intros version. simpl.
    now rewrite app_nil_r.
  - destruct (assignStudent_numbered s qa Hready Hs)
      as (v & qa1 & Hv & Hin & Hrun & Hready1 & Hkeys1 & Hown & Hother).
    destruct (IH qa1 Hready1) as (qa' & Hrest & Hready' & Hkeys' & Hids).
    exists qa'. repeat split.
    + simpl. now rewrite Hrun.
    + exact Hready'.
    + congruence.
    + intros version. rewrite Hids. rewrite filter_cons.
      destruct (decide (version_of s = Some version)) as [Heq|Hne].
      * assert (version = v) by congruence. subst version.
        rewrite Hown. simpl. now rewrite <- app_assoc.
      * rewrite Hother; [reflexivity|]. congruence.
Qed.

(** A user without a numbered SIS id makes the callback throw, unless the
    QA object has an entry under the key [undefined]. *)
Lemma assignStudent_not_numbered s qa :
  lookup_entry qa "undefined" = None -> ~ numbered s ->
  exists msg, assignStudent s qa = Throw msg.
Proof.
  intros Hundef Hs.
  assert (Hv : version_of s = None).
  { destruct (version_of s) as [version|] eqn:Hv; [|reflexivity].
    exfalso. apply Hs, numbered_version_of. exists version. split; [exact Hv|].
    now apply version_of_elem with s. }
  unfold assignStudent. unfold version_of in Hv.
  destruct (prop s "sis_user_id") as [sis_user_id|msg]; [|eauto].
  cbv zeta. rewrite Hv. cbn [key_of]. rewrite Hundef. eauto.
Qed.

Lemma numbered_cases users :
  Forall numbered users \/ Exists (fun s => ~ numbered s) users.
Proof.
  induction users as [|s users [IH|IH]]; [left; constructor| |right; now constructor 2].
  destruct (numbered_dec s) as [Hs|Hs]; [left | right]; now constructor.
Qed.

Lemma numbered_not_all users :
  Forall numbered users -> Exists (fun s => ~ numbered s) users -> False.
Proof.
  intros Hall Hbad. induction Hbad as [s users Hs|s users _ IH];
    apply Forall_cons in Hall as [Hhead Hall]; auto.
Qed.

(** The first such user of a page stops the loop over the page. *)
Lemma assignStudents_stops users qa :
  ready qa -> lookup_entry qa "undefined" = None ->
  Exists (fun s => ~ numbered s) users ->
  exists msg, assignStudents users qa = Throw msg.
Proof.
  intros Hready Hundef Hbad. revert qa Hready Hundef.
  induction users as [|s users IH]; intros qa Hready Hundef; [inversion Hbad|].
  cbn [assignStudents]. destruct (numbered_dec s) as [Hs|Hs].
  - destruct (assignStudent_numbered s qa Hready Hs)
      as (v & qa1 & _ & _ & -> & Hready1 & Hkeys1 & _).
    apply IH; [|exact Hready1|].
    + apply Exists_cons in Hbad as [Hbad|Hbad]; [contradiction | exact Hbad].
    + apply lookup_entry_None. rewrite Hkeys1. now apply lookup_entry_None.
  - destruct (assignStudent_not_numbered s qa Hundef Hs) as [msg ->]. eauto.
Qed.

Section Process.

Variables START_DATE LOCK_AND_DUE_DATE : string.
Variable server : list event -> value * response.

Local Abbreviation createQuizzes := (createQuizzes START_DATE LOCK_AND_DUE_DATE server).
Local Abbreviation createQuizzes_over :=
  (createQuizzes_over START_DATE LOCK_AND_DUE_DATE server).
Local Abbreviation createQuiz := (createQuiz START_DATE LOCK_AND_DUE_DATE server).
Local Abbreviation getCanvasUserIds :=
  (getCanvasUserIds START_DATE LOCK_AND_DUE_DATE server).
Local Abbreviation listUsers := (listUsers server).
Local Abbreviation user_listing := (user_listing server).
Local Abbreviation main := (main START_DATE LOCK_AND_DUE_DATE server).

(** [getCanvasUserIds] follows the pages and then calls
    [createQuizzes]. *)
Lemma getCanvasUserIds_listUsers pages url st :
  getCanvasUserIds pages url st
  = match listUsers pages url st with
  | Continue _ st' => createQuizzes st'
  | Stop st' => Stop st'
  | Unfinished st' => Unfinished st'
  end.
Proof.
  revert url st. induction pages as [|pages IH]; intros url st; [reflexivity|].
  cbn [CreateTest.getCanvasUserIds CreateTest.listUsers].
  unfold mbind, action_bind, bind.
  destruct (try (standardArgs util) st) as [args st1|st1|st1]; try reflexivity.
  destruct (request server (HttpGet url args) st1) as [reply st2|st2|st2];
    try reflexivity.
  destruct (forEach_assign (fst reply) st2) as [[] st3|st3|st3]; try reflexivity.
  destruct (try (nextURL (link (snd reply))) st3) as [[next|] st4|st4|st4];
    try reflexivity.
  destruct (negb (String.eqb next "")); [apply IH | reflexivity].
Qed.

Lemma listUsers_assigns pages url st users :
  ready (studentsQA st) ->
  user_listing pages url (trace st) = Some users ->
  Forall numbered users ->
  exists st',
    listUsers pages url st = Continue tt st' /\
    ready (studentsQA st') /\
    keys (studentsQA st') = keys (studentsQA st) /\
    forall version,
      ids_of (studentsQA st') version
      = (ids_of (studentsQA st) version
        ++ map id_of (filter (fun s => version_of s = Some version) users))%list.
Proof.
  revert url st users.
  induction pages as [|pages IH]; intros url st users Hready Hlist Hnum;
    [discriminate|].
  cbn [CreateTest.user_listing] in Hlist.
  cbn [CreateTest.listUsers]. unfold mbind, action_bind, bind.
  destruct (standardArgs util) as [args|msg] eqn:Hargs; [|discriminate].
  cbn [try ret request record_event trace studentsQA quizIds].
  set (history := (trace st ++ [HttpGet url args])%list) in *.
  destruct (server history) as [data resp] eqn:Hreply. cbn [fst snd] in *.
  destruct data as [| | | | |page|]; try discriminate.
  assert (Hpage : forall more, users = (page ++ more)%list ->
      exists qa1,
      assignStudents page (studentsQA st) = Ok qa1 /\ ready qa1 /\
      keys qa1 = keys (studentsQA st) /\
      forall version,
      ids_of qa1 version
      = (ids_of (studentsQA st) version
        ++ map id_of (filter (fun s => version_of s = Some version) page))%list).
  { intros more ->. apply Forall_app in Hnum as [Hpage _].
    now apply assignStudents_numbered. }
  unfold forEach_assign, record_event. cbn [studentsQA quizIds trace]. fold history.
  destruct (nextURL (link resp)) as [[next|]|msg] eqn:Hnext; try discriminate.
  - destruct (negb (String.eqb next "")) eqn:Hmore.
    + destruct (CreateTest.user_listing server pages next history) as [more|] eqn:Hrest;
        [|discriminate].
      injection Hlist as <-.
      destruct (Hpage more eq_refl) as (qa1 & -> & Hready1 & Hkeys1 & Hids1).
      cbn [try ret]. rewrite Hmore.
      apply Forall_app in Hnum as [_ Hnum].
      destruct (IH next {| studentsQA := qa1; quizIds := quizIds st; trace := history |}
          more Hready1 Hrest Hnum)
        as (st' & Hrun & Hready' & Hkeys' & Hids').
      exists st'. repeat split; [exact Hrun | exact Hready' | |].
      * rewrite Hkeys'. exact Hkeys1.
      * intros version. rewrite Hids'. cbn [studentsQA]. rewrite Hids1.
        now rewrite filter_app, map_app, app_assoc.
    + injection Hlist as <-.
      destruct (Hpage [] (eq_sym (app_nil_r page))) as (qa1 & -> & Hready1 & Hkeys1 & Hids1).
      cbn [try ret]. rewrite Hmore.
      eexists. repeat split; [exact Hready1 | exact Hkeys1 | exact Hids1].
  - injection Hlist as <-.
    destruct (Hpage [] (eq_sym (app_nil_r page))) as (qa1 & -> & Hready1 & Hkeys1 & Hids1).
    cbn [try ret].
    eexists. repeat split; [exact Hready1 | exact Hkeys1 | exact Hids1].
Qed.

(** A user without a numbered SIS id stops the script on its page,
    before [createQuizzes] is called. *)
Lemma listUsers_stops pages url st users :
  ready (studentsQA st) ->
  lookup_entry (studentsQA st) "undefined" = None ->
  user_listing pages url (trace st) = Some users ->
  Exists (fun s => ~ numbered s) users ->
  exists st' msg,
    listUsers pages url st = Stop st' /\
    last (trace st') = Some (Uncaught msg) /\
    forall e, e ∈ trace st' ->
      e ∈ trace st \/ (exists page args, e = HttpGet page args) \/ e = Uncaught msg.
Proof.
  revert url st users.
  induction pages as [|pages IH]; intros url st users Hready Hundef Hlist Hbad;
    [discriminate|].
  cbn [CreateTest.user_listing] in Hlist.
  cbn [CreateTest.listUsers]. unfold mbind, action_bind, bind.
  destruct (standardArgs util) as [args|msg] eqn:Hargs; [|discriminate].
  cbn [try ret request record_event trace studentsQA quizIds].
  set (history := (trace st ++ [HttpGet url args])%list) in *.
  destruct (server history) as [data resp] eqn:Hreply. cbn [fst snd] in *.
  destruct data as [| | | | |page|]; try discriminate.
  unfold forEach_assign, record_event. cbn [studentsQA quizIds trace]. fold history.
  destruct (numbered_cases page) as [Hpage|Hpage].
  - destruct (assignStudents_numbered page (studentsQA st) Hready Hpage)
      as (qa1 & -> & Hready1 & Hkeys1 & _).
    assert (Hundef1 : lookup_entry qa1 "undefined" = None).
    { apply lookup_entry_None. rewrite Hkeys1. now apply lookup_entry_None. }
    destruct (nextURL (link resp)) as [[next|]|msg] eqn:Hnext; try discriminate.
    + destruct (negb (String.eqb next "")) eqn:Hmore.
      * destruct (CreateTest.user_listing server pages next history) as [more|] eqn:Hrest;
          [|discriminate].
        injection Hlist as <-. cbn [try ret]. rewrite Hmore.
        apply Exists_app in Hbad as [Hbad|Hbad];
          [now destruct (numbered_not_all page)|].
        destruct (IH next {| studentsQA := qa1; quizIds := quizIds st; trace := history |}
            more Hready1 Hundef1 Hrest Hbad)
          as (st' & msg & Hrun & Hlast & Hevents).
        exists st', msg. split; [exact Hrun|]. split; [exact Hlast|].
        intros e He. destruct (Hevents e He) as [Hin|Hin]; [|now right].
        cbn [trace] in Hin. unfold history in Hin.
        apply elem_of_app in Hin as [Hin|Hin]; [now left|].
        apply list_elem_of_singleton in Hin. right. left. eauto.
      * injection Hlist as <-. now destruct (numbered_not_all page).
    + injection Hlist as <-. now destruct (numbered_not_all page).
  - destruct (assignStudents_stops page (studentsQA st) Hready Hundef Hpage) as [msg ->].
    eexists _, msg. unfold crash, record_event. cbn [trace].
    split; [reflexivity|]. split; [apply last_snoc|].
    intros e He. apply elem_of_app in He as [He|He].
    + unfold history in He. apply elem_of_app in He as [He|He]; [now left|].
      apply list_elem_of_singleton in He. right. left. eauto.
    + apply list_elem_of_singleton in He. now right; right.
Qed.

(** C9, as amended. The version of a user is
    [HASHES[parseInt(sis_user_id) % NUM_VERSIONS]], a function of the SIS
    id alone, and a user has one exactly when the SIS id is numbered: it
    starts with an integer whose number is finite and is not negative or
    is a multiple of [NUM_VERSIONS].  When the QA object has an entry for
    every hash and every user of the enrolment list has a numbered SIS id,
    the pages are followed to the end, [createQuizzes] is then called, and
    the Canvas ids added to each version are those of the users of that
    version, in the order of the listing: every user is assigned to
    exactly one version.  When some user of the list has no numbered SIS
    id (and the QA object has no entry under the key [undefined]), the
    script ends with an uncaught type error on the page of the first such
    user, having sent nothing but the listing requests: no quiz is
    created. *)
Theorem students_are_assigned_by_sis_id pages url st users :
  ready (studentsQA st) ->
  user_listing pages url (trace st) = Some users ->
  (forall s,
      numbered s <-> exists version, version_of s = Some version /\ version ∈ HASHES) /\
  (Forall numbered users ->
    exists st',
      listUsers pages url st = Continue tt st' /\
      getCanvasUserIds pages url st = createQuizzes st' /\
      (forall s, s ∈ users ->
        exists version, version_of s = Some version /\ version ∈ HASHES) /\
      (forall version,
          ids_of (studentsQA st') version
          = (ids_of (studentsQA st) version
            ++ map id_of (filter (fun s => version_of s = Some version) users))%list)) /\
  (lookup_entry (studentsQA st) "undefined" = None ->
    Exists (fun s => ~ numbered s) users ->
    exists st' msg,
      listUsers pages url st = Stop st' /\
      getCanvasUserIds pages url st = Stop st' /\
      last (trace st') = Some (Uncaught msg) /\
      forall e, e ∈ trace st' ->
        e ∈ trace st \/ (exists page args, e = HttpGet page args) \/ e = Uncaught msg).
Proof.
  intros Hready Hlist. split; [exact numbered_version_of|]. split.
  - intros Hnum.
    destruct (listUsers_assigns pages url st users Hready Hlist Hnum)
      as (st' & Hrun & _ & _ & Hids).
    exists st'. repeat split.
    + exact Hrun.
    + now rewrite getCanvasUserIds_listUsers, Hrun.
    + intros s Hs. rewrite Forall_forall in Hnum.
      now apply numbered_version_of, Hnum.
    + exact Hids.
  - intros Hundef Hbad.
    destruct (listUsers_stops pages url st users Hready Hundef Hlist Hbad)
      as (st' & msg & Hrun & Hlast & Hevents).
    exists st', msg. repeat split; try assumption.
    now rewrite getCanvasUserIds_listUsers, Hrun.
Qed.

(** *** [createQuizzes] *)

Lemma each_app {A} (f : A -> action unit) (l1 l2 : list A) st :
  each f (l1 ++ l2)%list st
  = match each f l1 st with
  | Continue _ st' => each f l2 st'
  | Stop st' => Stop st'
  | Unfinished st' => Unfinished st'
  end.
Proof.
  revert st. induction l1 as [|x l1 IH]; intros st; [reflexivity|].
  simpl. unfold mbind, action_bind, bind.
  destruct (f x st) as [[] st'|st'|st']; [apply IH | reflexivity | reflexivity].
Qed.

Lemma keeps_bind {A B} (m : action A) (k : A -> action B) :
  keeps_QA m -> (forall a, keeps_QA (k a)) -> keeps_QA (m ≫= k).
Proof.
  intros Hm Hk st b st'. unfold mbind, action_bind, bind.
  destruct (m st) as [a st1|st1|st1] eqn:Hrun; try discriminate.
  intros H. apply Hk in H. apply Hm in Hrun. congruence.
Qed.

Lemma keeps_ret {A} (a : A) : keeps_QA (ret a).
Proof. intros st b st' H. inversion H; subst. reflexivity. Qed.

Lemma keeps_emit e : keeps_QA (emit e).
Proof. intros st b st' H. inversion H; subst. reflexivity. Qed.

Lemma keeps_crash {A} msg : keeps_QA (@crash A msg).
Proof. intros st b st' [=]. Qed.

Lemma keeps_try {A} (r : result A) : keeps_QA (try r).
Proof. destruct r; [apply keeps_ret | apply keeps_crash]. Qed.

Lemma keeps_request e : keeps_QA (request server e).
Proof. intros st b st' H. inversion H; subst. reflexivity. Qed.

Lemma keeps_push line : keeps_QA (push_quizIds line).
Proof. intros st b st' H. inversion H; subst. reflexivity. Qed.

Lemma keeps_each {A} (f : A -> action unit) items :
  (forall item, keeps_QA (f item)) -> keeps_QA (each f items).
Proof.
  intros Hf. induction items as [|item items IH]; simpl.
  - apply keeps_ret.
  - apply keeps_bind; [apply Hf | intros _; exact IH].
Qed.

Ltac keeps :=
  repeat first
  [ apply keeps_ret | apply keeps_emit | apply keeps_crash | apply keeps_try
  | apply keeps_request | apply keeps_push
  | apply keeps_bind; [|intros ?]
  | apply keeps_each; intros ?
  | match goal with
    | |- keeps_QA (if ?b then _ else _) => destruct b
    | |- keeps_QA (match ?x with _ => _ end) => destruct x
    end ].

Lemma keeps_createQuiz version : keeps_QA (createQuiz version).
Proof.
  intros st a st'. unfold CreateTest.createQuiz.
  destruct (lookup_entry (studentsQA st) version) as [entry|]; [|intros [=]].
  revert st a st'. fold (@keeps_QA unit).
  unfold addQuestions, addQuestion, addOverride, publishQuiz. keeps.
Qed.

Lemma quizArgs_of_Ok entry : exists quizArgs, quizArgs_of entry = Ok quizArgs.
Proof. eexists. reflexivity. Qed.

(** C6. When the POST that creates the quiz of a version is answered
    with a status code other than 200, the script logs an error for
    that version and goes on with the next version: between the failed
    POST and the next version nothing is requested (no question, no
    assignment override, no publication), the state is otherwise
    unchanged, and the remaining versions are processed. *)
Theorem failed_quiz_creation_is_skipped st before version after st1 :
  keys (studentsQA st) = (before ++ version :: after)%list ->
  each createQuiz before st = Continue tt st1 ->
  exists entry quizArgs,
    lookup_entry (studentsQA st1) version = Some entry /\
    quizArgs_of entry = Ok quizArgs /\
    (statusCode
      (snd (server (trace st1
            ++ [ConsoleLog ("Creating quiz for version " ++ version);
              HttpPost quizzes_url quizArgs])%list)) <> 200%Z ->
      exists st2,
        createQuiz version st1 = Continue tt st2 /\
        trace st2
        = (trace st1
          ++ [ConsoleLog ("Creating quiz for version " ++ version);
            HttpPost quizzes_url quizArgs;
            ConsoleError ("Failed to create quiz for version " ++ version)])%list /\
        studentsQA st2 = studentsQA st1 /\
        quizIds st2 = quizIds st1 /\
        createQuizzes st = createQuizzes_over after st2).
Proof.
  intros Hkeys Hbefore.
  assert (Hqa : studentsQA st1 = studentsQA st).
  { eapply (keeps_each createQuiz before); [apply keeps_createQuiz | exact Hbefore]. }
  destruct (lookup_entry_keys (studentsQA st) version) as [entry Hentry].
  { rewrite Hkeys. apply elem_of_app. right. left. }
  destruct (quizArgs_of_Ok entry) as [quizArgs HquizArgs].
  exists entry, quizArgs. rewrite Hqa. repeat split; [exact Hentry | exact HquizArgs|].
  intros Hfail.
  assert (Hrun : createQuiz version st1
      = Continue tt
      {| studentsQA := studentsQA st1; quizIds := quizIds st1;
        trace := (trace st1
          ++ [ConsoleLog ("Creating quiz for version " ++ version);
            HttpPost quizzes_url quizArgs;
            ConsoleError ("Failed to create quiz for version "
              ++ version)])%list |}).
  { unfold CreateTest.createQuiz. rewrite Hqa, Hentry.
    unfold mbind, action_bind, bind. rewrite HquizArgs.
    cbn [try ret emit request record_event trace studentsQA quizIds].
    rewrite <- app_assoc. cbn [app].
    apply Z.eqb_neq in Hfail. rewrite Hfail. cbn [negb].
    unfold emit, record_event. cbn [trace studentsQA quizIds].
    rewrite <- !app_assoc. cbn [app]. now rewrite Hqa. }
  eexists. split; [exact Hrun|]. cbn [trace studentsQA quizIds].
  repeat split; [exact Hqa|].
  unfold CreateTest.createQuizzes, CreateTest.createQuizzes_over. rewrite Hkeys.
  unfold mbind, action_bind. unfold bind at 1 3.
  rewrite each_app, Hbefore. cbn [each]. unfold mbind, action_bind.
  unfold bind at 1. now rewrite Hrun.
Qed.

(** C5. [checkTruthy] returns an object with an [errors] list exactly
    when some entry has a question key (ending in [q]) whose answer key
    holds [undefined], [null] or the empty string, or some entry lacks
    a [fileName] or a [fileUrl]; and when it does, the script logs the
    errors and exits at once: its whole trace is the error message and
    the exit, without any request. *)
Theorem missing_answers_stop_the_script :
  (forall QaObject,
      errors (checkTruthy QaObject) <> None <->
      exists auid entry,
        (auid, entry) ∈ QaObject /\
        (unanswered entry \/ lacks entry "fileName" \/ lacks entry "fileUrl")) /\
  (forall pages qaFile studentsFileUrls reported,
      errors (checkTruthy (merge_all qaFile studentsFileUrls)) = Some reported ->
      exists st,
        main pages qaFile studentsFileUrls = Stop st /\
        trace st
        = [ConsoleError (newline ++ "Errors found in QA file:" ++ newline
            ++ String.concat "," reported ++ newline);
          ProcessExit]).
Proof.
  split; [apply CanvasUtilProofs.checkTruthy_reports|].
  intros pages qaFile studentsFileUrls reported Herr.
  unfold CreateTest.main. cbn [studentsQA]. rewrite Herr.
  eexists. split; reflexivity.
Qed.

End Process.

(** *** The theorems at sample data *)

Lemma ready_examples_qa : ready Examples.qa.
Proof.
  intros version Hv. unfold HASHES, Hash.HASHES in Hv.
  repeat (apply elem_of_cons in Hv as [->|Hv]);
    [| | |now apply elem_of_nil in Hv];
    (eexists; split; [reflexivity | left; reflexivity]).
Qed.

Lemma numbered_examples_enrolled : Forall numbered Examples.enrolled.
Proof.
  repeat constructor;
    (eexists _, _, _; split; [reflexivity|]; split; [vm_compute; reflexivity|];
      split; [vm_compute; reflexivity | left; lia]).
Qed.

(** [-3] leaves the remainder zero, and [9007199254740993] is read as
    the number [9007199254740992], whose remainder is 2 where that of the
    integer written is 0; [-4] leaves a negative remainder. *)
Lemma numbered_examples_wide :
  Forall numbered Examples.enrolled_wide /\
  version_of (Examples.student 15 (VStr "-3")) = Some "iG6Zp4WDF" /\
  version_of (Examples.student 16 (VStr "9007199254740993")) = Some "F29R1ibztX" /\
  version_of (Examples.student 17 (VStr "-4")) = None.
Proof.
  split; [|repeat split; vm_compute; reflexivity].
  repeat constructor;
    (eexists _, _, _; split; [reflexivity|]; split; [vm_compute; reflexivity|];
      split; [vm_compute; reflexivity|]).
  - right. reflexivity.
  - left. lia.
Qed.

Lemma students_are_assigned_by_sis_id_witness :
  (exists st',
      listUsers (Examples.listing Examples.enrolled) 1 users_url Examples.start
      = Continue tt st' /\
      ids_of (studentsQA st') "Z8lZJChRtn" = [VNum 11; VNum 13]) /\
  (exists st',
      listUsers (Examples.listing Examples.enrolled_wide) 1 users_url Examples.start
      = Continue tt st' /\
      ids_of (studentsQA st') "iG6Zp4WDF" = [VNum 15] /\
      ids_of (studentsQA st') "F29R1ibztX" = [VNum 16]) /\
  (exists st' msg,
      getCanvasUserIds "2024-12-25T05:00:00.000Z" "2024-12-25T07:00:00.000Z"
        (Examples.listing Examples.enrolled_mixed) 1 users_url Examples.start
      = Stop st' /\
      last (trace st') = Some (Uncaught msg)).
Proof.
  split; [|split].
  - destruct (students_are_assigned_by_sis_id "2024-12-25T05:00:00.000Z"
        "2024-12-25T07:00:00.000Z" (Examples.listing Examples.enrolled)
        1 users_url Examples.start Examples.enrolled)
      as (_ & Hassigned & _).
    + exact ready_examples_qa.
    + reflexivity.
    + destruct (Hassigned numbered_examples_enrolled) as (st' & Hrun & _ & _ & Hids).
      exists st'. split; [exact Hrun|]. rewrite Hids. reflexivity.
  - destruct (students_are_assigned_by_sis_id "2024-12-25T05:00:00.000Z"
        "2024-12-25T07:00:00.000Z" (Examples.listing Examples.enrolled_wide)
        1 users_url Examples.start Examples.enrolled_wide)
      as (_ & Hassigned & _).
    + exact ready_examples_qa.
    + reflexivity.
    + destruct (Hassigned (proj1 numbered_examples_wide))
        as (st' & Hrun & _ & _ & Hids).
      exists st'. split; [exact Hrun|]. rewrite !Hids. split; reflexivity.
  - destruct (students_are_assigned_by_sis_id "2024-12-25T05:00:00.000Z"
        "2024-12-25T07:00:00.000Z" (Examples.listing Examples.enrolled_mixed)
        1 users_url Examples.start Examples.enrolled_mixed)
      as (_ & _ & Hstops).
    + exact ready_examples_qa.
    + reflexivity.
    + destruct Hstops as (st' & msg & _ & Hrun & Hlast & _).
      * reflexivity.
      * apply Exists_cons. right. apply Exists_cons. left.
        intros (props & n & d & Hs & Hparse & _).
        injection Hs as <-. discriminate Hparse.
      * exists st', msg. split; [exact Hrun | exact Hlast].
Defined.

(** C9 as stated fails: a student for whom Canvas holds no SIS id is
    assigned to no version; the first such student stops the script with
    an uncaught type error. *)
Lemma student_without_sis_id_is_not_assigned :
  ready Examples.qa /\
  parseInt VNull = None /\
  assignStudents [Examples.student_without_sis_id] Examples.qa
  = Throw "TypeError: Cannot read properties of undefined (reading 'id')" /\
  (exists st,
      getCanvasUserIds "2024-12-25T05:00:00.000Z" "2024-12-25T07:00:00.000Z"
      (Examples.listing [Examples.student_without_sis_id]) 1 users_url Examples.start
      = Stop st /\
      last (trace st)
      = Some (Uncaught "TypeError: Cannot read properties of undefined (reading 'id')") /\
      forall version, ids_of (studentsQA st) version = []) /\
  ~ (forall users qa,
      ready qa ->
      exists qa',
        assignStudents users qa = Ok qa' /\
        forall s, s ∈ users -> exists version, id_of s ∈ ids_of qa' version).
Proof.
  split; [exact ready_examples_qa|]. split; [reflexivity|]. split; [reflexivity|].
  split.
  - eexists. split; [reflexivity|]. split; [reflexivity|].
    intros version. unfold ids_of, record_event.
    cbn [studentsQA Examples.start Examples.qa lookup_entry].
    repeat (destruct (String.eqb _ version); [reflexivity|]). reflexivity.
  - intros Hclaim.
    destruct (Hclaim [Examples.student_without_sis_id] Examples.qa ready_examples_qa)
      as (qa' & Hrun & _).
    discriminate Hrun.
Qed.

Lemma failed_quiz_creation_is_skipped_witness :
  exists st2,
    createQuiz "2024-12-25T05:00:00.000Z" "2024-12-25T07:00:00.000Z" Examples.refusing
    "iG6Zp4WDF" Examples.start = Continue tt st2 /\
    length (trace st2) = 3 /\
    createQuizzes "2024-12-25T05:00:00.000Z" "2024-12-25T07:00:00.000Z" Examples.refusing
    Examples.start
    = createQuizzes_over "2024-12-25T05:00:00.000Z" "2024-12-25T07:00:00.000Z"
    Examples.refusing ["Z8lZJChRtn"; "F29R1ibztX"] st2.
Proof.
  destruct (failed_quiz_creation_is_skipped "2024-12-25T05:00:00.000Z"
      "2024-12-25T07:00:00.000Z" Examples.refusing Examples.start
      [] "iG6Zp4WDF" ["Z8lZJChRtn"; "F29R1ibztX"] Examples.start)
    as (entry & quizArgs & _ & _ & Hskip).
  - reflexivity.
  - reflexivity.
  - destruct Hskip as (st2 & Hrun & Htrace & _ & _ & Hrest).
    + simpl. discriminate.
    + exists st2. split; [exact Hrun|]. split; [|exact Hrest].
      rewrite Htrace. reflexivity.
Defined.

Lemma missing_answers_stop_the_script_witness :
  exists st,
    main "2024-12-25T05:00:00.000Z" "2024-12-25T07:00:00.000Z" Examples.refusing 1
    Examples.qa_unanswered Examples.fileUrls = Stop st /\
    trace st
    = [ConsoleError (newline ++ "Errors found in QA file:" ++ newline
        ++ "iG6Zp4WDF - Missing or invalid answer for key: q2a" ++ newline);
      ProcessExit].
Proof.
  destruct (missing_answers_stop_the_script "2024-12-25T05:00:00.000Z"
      "2024-12-25T07:00:00.000Z" Examples.refusing) as [_ Hstop].
  apply (Hstop 1 Examples.qa_unanswered Examples.fileUrls
      ["iG6Zp4WDF - Missing or invalid answer for key: q2a"]).
  reflexivity.
Defined.

End CreateTestProofs.

(** ** Properties of the zip script *)

Module ZipProofs.
Import Js Zip.

Lemma remove_key_absent key (archives : list (nat * string)) :
  key ∉ map fst archives -> remove_key key archives = archives.
Proof.
  unfold remove_key. induction archives as [|[k h] archives IH]; intros Hk; [reflexivity|].
  simpl in Hk. apply not_elem_of_cons in Hk as [Hne Hk].
  rewrite filter_cons. simpl.
  destruct (decide (k <> key)) as [_|Heq]; [|exfalso; apply Heq; congruence].
  now rewrite IH.
Qed.

Lemma remove_key_Permutation key hash (archives : list (nat * string)) :
  NoDup (map fst archives) -> (key, hash) ∈ archives ->
  archives ≡ₚ (key, hash) :: remove_key key archives.
Proof.
  unfold remove_key. induction archives as [|[k h] archives IH]; intros Hnd Hin.
  - now apply elem_of_nil in Hin.
  - simpl in Hnd. apply NoDup_cons in Hnd as [Hk Hnd]. rewrite filter_cons. simpl.
    destruct (decide (k = key)) as [->|Hne].
    + assert (Hh : h = hash).
      { apply elem_of_cons in Hin as [[= ->]|Hin]; [reflexivity|].
        exfalso. apply Hk, list_elem_of_In, in_map_iff.
        exists (key, hash). split; [reflexivity | now apply list_elem_of_In]. }
      subst h. destruct (decide (key <> key)) as [Hne|_]; [congruence|].
      constructor. fold (remove_key key archives). now rewrite remove_key_absent.
    + destruct (decide (k <> key)) as [_|Heq]; [|contradiction].
      apply elem_of_cons in Hin as [[= ]|Hin]; [congruence|].
      rewrite (IH Hnd Hin) at 1. apply perm_swap.
Qed.

Lemma indexed_keys_NoDup (collection : list string) : NoDup (map fst (indexed collection)).
Proof.
  unfold indexed.
  replace (map fst (zip (seq 0 (length collection)) collection))
    with (seq 0 (length collection)); [apply NoDup_seq|].
  symmetry. apply fst_zip. now rewrite length_seq.
Qed.

Section EachLimit.

Variable HASHES : list string.
Variable generate : nat -> string.

Local Abbreviation script := (script HASHES).
Local Abbreviation reachable := (reachable HASHES generate).
Local Abbreviation closes := (closes HASHES generate).
Local Abbreviation closeStream := (closeStream generate).
Local Abbreviation invariant := (invariant HASHES).

Lemma allZippedMessage_not_log prefix rest :
  match prefix with String c _ => c <> LF | EmptyString => False end ->
  allZippedMessage <> ConsoleLog (prefix ++ rest).
Proof.
  destruct prefix as [|c prefix]; [easy|]. intros Hc [= H _]. now apply Hc.
Qed.

Lemma open_keys_NoDup st :
  (closed st ++ open st ++ pending st)%list ≡ₚ indexed HASHES -> NoDup (map fst (open st)).
Proof.
  intros Hperm.
  assert (Hnd : NoDup (map fst (closed st ++ open st ++ pending st)%list)).
  { assert (Hmap : map fst (closed st ++ open st ++ pending st)%list
        ≡ₚ map fst (indexed HASHES)) by now apply Permutation_map.
    rewrite Hmap. apply indexed_keys_NoDup. }
  rewrite !map_app in Hnd.
  apply NoDup_app in Hnd as (_ & _ & Hnd). now apply NoDup_app in Hnd as (Hnd & _ & _).
Qed.

(** The state in which [replenish] leaves its loop by the loop test. *)
Lemma loop_exit_invariant elems st :
  running st = Z.of_nat (length (open st)) ->
  (running st <= NUM_VERSIONS)%Z ->
  (closed st ++ open st ++ elems)%list ≡ₚ indexed HASHES ->
  (done st = true -> elems = []) ->
  allZippedMessage ∉ output st ->
  (open st = [] -> (running st < NUM_VERSIONS)%Z /\ done st = false) ->
  (running st <? NUM_VERSIONS)%Z && negb (done st) = false ->
  invariant {| pending := elems; running := running st; done := done st;
    looping := false; open := open st; closed := closed st;
    output := output st; exited := exited st |}.
Proof.
  intros Hrun Hbound Hperm Hdone Hmsg Hgo Hcond.
  unfold Zip.invariant. cbn [running open closed pending done exited looping output].
  assert (Hopen : open st <> []).
  { intros Heq. destruct (Hgo Heq) as [Hlt Hnd].
    apply andb_false_iff in Hcond as [Hc|Hc].
    - apply Z.ltb_ge in Hc. lia.
    - rewrite Hnd in Hc. discriminate. }
  repeat split; try assumption; auto; contradiction.
Qed.

(** The loop of [replenish] re-establishes the invariant. *)
Lemma replenish_loop_invariant elems st :
  running st = Z.of_nat (length (open st)) ->
  (running st <= NUM_VERSIONS)%Z ->
  (closed st ++ open st ++ elems)%list ≡ₚ indexed HASHES ->
  (done st = true -> elems = []) ->
  exited st = false ->
  allZippedMessage ∉ output st ->
  (open st = [] -> (running st < NUM_VERSIONS)%Z /\ done st = false) ->
  invariant (replenish_loop NUM_VERSIONS elems st).
Proof.
  revert st. induction elems as [|[key hash] rest IH];
    intros st Hrun Hbound Hperm Hdone Hexit Hmsg Hgo; cbn [replenish_loop];
    destruct ((running st <? NUM_VERSIONS)%Z && negb (done st)) eqn:Hcond;
    try (now apply loop_exit_invariant).
  - cbn zeta. cbn [running].
    destruct (Z.leb_spec (running st) 0) as [Hzero|Hpos]; unfold Zip.invariant, allZipped;
      cbn [running open closed pending done exited looping output].
    + assert (Hopen : open st = [])
        by (destruct (open st); [reflexivity | simpl in Hrun; lia]).
      repeat split; try assumption; try discriminate; auto.
      intros _. apply elem_of_app. right. left.
    + assert (Hopen : open st <> [])
        by (intros Heq; rewrite Heq in Hrun; simpl in Hrun; lia).
      repeat split; try assumption; try discriminate; auto; contradiction.
  - apply andb_true_iff in Hcond as [Hlt Hnd]. apply Z.ltb_lt in Hlt.
    apply negb_true_iff in Hnd.
    apply IH; unfold startArchive;
      cbn [running open closed pending done exited looping output].
    + rewrite length_app. simpl. lia.
    + lia.
    + rewrite <- Hperm. rewrite <- !app_assoc. reflexivity.
    + congruence.
    + exact Hexit.
    + intros Hin. apply elem_of_app in Hin as [Hin|Hin]; [contradiction|].
      apply list_elem_of_singleton in Hin. revert Hin.
      apply allZippedMessage_not_log. discriminate.
    + intros Heq. now destruct (open st).
Qed.

Lemma script_invariant : invariant script.
Proof.
  unfold Zip.script, eachLimit, replenish. cbn [Z.leb NUM_VERSIONS Z.compare].
  apply replenish_loop_invariant;
    cbn [running open closed pending done exited looping output];
    try reflexivity; try discriminate.
  - intros Hin.
    repeat (apply elem_of_cons in Hin as [Hin|Hin]; [discriminate Hin|]).
    now apply elem_of_nil in Hin.
  - now split.
Qed.

Lemma closeStream_invariant st key hash :
  invariant st -> exited st = false -> (key, hash) ∈ open st ->
  invariant (closeStream key hash st).
Proof.
  intros (Hrun & Hbound & Hperm & Hdone & Hlive & _) Hexit Hin.
  destruct (Hlive Hexit) as (_ & Hlooping & Hmsg).
  pose proof (remove_key_Permutation key hash (open st) (open_keys_NoDup st Hperm) Hin)
    as Hsplit.
  assert (Hlen : length (open st) = S (length (remove_key key (open st))))
    by (now rewrite Hsplit at 1).
  assert (Hperm' : (((closed st ++ [(key, hash)]) ++ remove_key key (open st)
          ++ pending st)%list) ≡ₚ indexed HASHES).
  { rewrite <- Hperm. rewrite Hsplit at 2. rewrite <- app_assoc. reflexivity. }
  assert (Hmsg' : allZippedMessage
      ∉ (output st
        ++ [ConsoleLog ("Created zip file: " ++ zipFileName generate key hash)])%list).
  { intros H. apply elem_of_app in H as [H|H]; [contradiction|].
    apply list_elem_of_singleton in H. revert H.
    apply allZippedMessage_not_log. discriminate. }
  unfold Zip.closeStream, iterateeCallback.
  cbn [running open closed pending done exited looping output].
  destruct (done st && (running st - 1 <=? 0)%Z) eqn:Hlast.
  - apply andb_true_iff in Hlast as [Hd Hz]. apply Z.leb_le in Hz.
    assert (Hnone : remove_key key (open st) = [])
      by (destruct (remove_key key (open st)); [reflexivity | simpl in Hlen; lia]).
    unfold Zip.invariant, allZipped.
    cbn [running open closed pending done exited looping output].
    rewrite Hnone in *. simpl length.
    repeat split; auto; try lia; try discriminate.
    intros _. apply elem_of_app. right. left.
  - destruct (looping st) eqn:Hloop; cbn [negb].
    + (* the iterator is exhausted and archives are still being written *)
      assert (Hd : done st = true)
        by (destruct (done st); [reflexivity | now specialize (Hlooping eq_refl)]).
      rewrite Hd in Hlast. simpl in Hlast. apply Z.leb_gt in Hlast.
      assert (Hsome : remove_key key (open st) <> [])
        by (intros Heq; rewrite Heq in Hlen; simpl in Hlen; lia).
      unfold Zip.invariant. cbn [running open closed pending done exited looping output].
      repeat split; auto; try lia; try congruence; contradiction.
    + unfold replenish. cbn [running open closed pending done exited looping output].
      apply replenish_loop_invariant;
        cbn [running open closed pending done exited looping output]; auto; try lia.
      intros Hnone. rewrite Hnone in Hlen. simpl in Hlen. split; [unfold NUM_VERSIONS; lia|].
      destruct (done st); [|reflexivity].
      simpl in Hlast. apply Z.leb_gt in Hlast. lia.
Qed.

Lemma archiveError_invariant st err :
  invariant st -> exited st = false -> invariant (archiveError err st).
Proof.
  intros (Hrun & Hbound & Hperm & Hdone & Hlive & _) Hexit.
  destruct (Hlive Hexit) as (Hopen & _ & Hmsg).
  assert (Hno : allZippedMessage ∉ (output st ++ [Uncaught err])%list).
  { intros H. apply elem_of_app in H as [H|H]; [contradiction|].
    apply list_elem_of_singleton in H. discriminate H. }
  unfold Zip.invariant, archiveError.
  cbn [running open closed pending done exited looping output].
  repeat split; auto; try discriminate; contradiction.
Qed.

Lemma reachable_invariant st : reachable st -> invariant st.
Proof.
  induction 1 as [|st key hash _ IH Hexit Hin|st key hash err _ IH Hexit Hin].
  - apply script_invariant.
  - now apply closeStream_invariant.
  - now apply archiveError_invariant.
Qed.

(** *** Progress *)

(** The loop of [replenish] closes nothing. *)
Lemma replenish_loop_closed elems st :
  closed (replenish_loop NUM_VERSIONS elems st) = closed st.
Proof.
  revert st. induction elems as [|[k h] elems IH]; intros st; cbn [replenish_loop];
    destruct ((running st <? NUM_VERSIONS)%Z && negb (done st)); try reflexivity.
  - cbn zeta. cbn [running]. now destruct (running st <=? 0)%Z.
  - now rewrite IH.
Qed.

(** Every close event adds one archive to the closed ones, of which there
    are never more than elements of [HASHES]: a run has at most that many
    close events. *)
Lemma closeStream_closes_one st key hash :
  closed (closeStream key hash st) = (closed st ++ [(key, hash)])%list.
Proof.
  unfold Zip.closeStream, iterateeCallback.
  cbn [running open closed pending done exited looping output].
  destruct (done st && (running st - 1 <=? 0)%Z); [reflexivity|].
  destruct (looping st); [reflexivity|]. cbn [negb]. unfold replenish.
  now rewrite replenish_loop_closed.
Qed.

Lemma closed_bounded st : reachable st -> length (closed st) <= length HASHES.
Proof.
  intros Hreach.
  destruct (reachable_invariant st Hreach) as (_ & _ & Hperm & _).
  apply Permutation_length in Hperm. rewrite !length_app in Hperm.
  unfold indexed in Hperm. rewrite length_zip, length_seq in Hperm. lia.
Qed.

(** The loop of [replenish] ends the process only through the final
    callback, which prints the message. *)
Lemma replenish_loop_exited elems st :
  (exited st = true -> allZippedMessage ∈ output st) ->
  exited (replenish_loop NUM_VERSIONS elems st) = true ->
  allZippedMessage ∈ output (replenish_loop NUM_VERSIONS elems st).
Proof.
  revert st. induction elems as [|[k h] elems IH]; intros st Hst; cbn [replenish_loop];
    destruct ((running st <? NUM_VERSIONS)%Z && negb (done st)); try exact Hst.
  - cbn zeta. cbn [running]. destruct (running st <=? 0)%Z; [|exact Hst].
    intros _. unfold allZipped. cbn [output]. apply elem_of_app. right. left.
  - apply IH. unfold startArchive. cbn [exited output]. intros Hexit.
    apply elem_of_app. left. now apply Hst.
Qed.

Lemma closeStream_exited st key hash :
  exited st = false ->
  exited (closeStream key hash st) = true ->
  allZippedMessage ∈ output (closeStream key hash st).
Proof.
  intros Hexit. unfold Zip.closeStream, iterateeCallback.
  cbn [running open closed pending done exited looping output].
  destruct (done st && (running st - 1 <=? 0)%Z).
  - intros _. unfold allZipped. cbn [output]. apply elem_of_app. right. left.
  - destruct (looping st); cbn [negb].
    + cbn [exited]. congruence.
    + unfold replenish. apply replenish_loop_exited. cbn [exited]. congruence.
Qed.

Lemma closes_reachable order st : closes order st -> reachable st.
Proof.
  induction 1 as [|order st key hash _ IH Hexit Hin];
    [apply reach_script | now apply reach_close].
Qed.

(** A run of close events ends only with the message. *)
Lemma closes_exited order st :
  closes order st -> exited st = true -> allZippedMessage ∈ output st.
Proof.
  intros [|order' st' key hash _ Hexit _].
  - unfold Zip.script, eachLimit, replenish. cbn [Z.leb NUM_VERSIONS Z.compare].
    apply replenish_loop_exited. cbn [exited]. discriminate.
  - now apply closeStream_exited.
Qed.

Lemma closes_closed order st : closes order st -> closed st = order.
Proof.
  induction 1 as [|order st key hash _ IH _ _].
  - unfold Zip.script, eachLimit, replenish. cbn [Z.leb NUM_VERSIONS Z.compare].
    now rewrite replenish_loop_closed.
  - now rewrite closeStream_closes_one, IH.
Qed.

(** Where a run of close events stands: short of the length of [HASHES]
    the process runs and an archive is being written; at that length every
    archive has closed and the message is printed. *)
Lemma closes_progress order st :
  closes order st ->
  closed st = order /\
  length order <= length HASHES /\
  (length order < length HASHES -> exited st = false /\ open st <> []) /\
  (length order = length HASHES ->
    order ≡ₚ indexed HASHES /\ allZippedMessage ∈ output st /\ exited st = true).
Proof.
  intros Hrun. pose proof (closes_closed order st Hrun) as Hclosed.
  pose proof (closes_exited order st Hrun) as Hend.
  destruct (reachable_invariant st (closes_reachable order st Hrun))
    as (_ & _ & Hperm & _ & Hlive & Hmsg & Hall).
  assert (Hlen : length order + length (open st) + length (pending st) = length HASHES).
  { apply Permutation_length in Hperm. rewrite !length_app, Hclosed in Hperm.
    unfold indexed in Hperm. rewrite length_zip, length_seq in Hperm. lia. }
  split; [exact Hclosed|]. split; [lia|]. split.
  - intros Hshort.
    assert (Hno : allZippedMessage ∉ output st).
    { intros Hin. destruct (Hmsg Hin) as [Hopen Hpending].
      rewrite Hopen, Hpending in Hlen. simpl in Hlen. lia. }
    assert (Hexit : exited st = false)
      by (destruct (exited st); [now destruct Hno; apply Hend | reflexivity]).
    split; [exact Hexit|]. now destruct (Hlive Hexit).
  - intros Hfull.
    assert (Hopen : open st = []) by (destruct (open st); [reflexivity | simpl in Hlen; lia]).
    assert (Hpending : pending st = [])
      by (destruct (pending st); [reflexivity | simpl in Hlen; lia]).
    split; [|split].
    + rewrite <- Hclosed, <- Hperm, Hopen, Hpending. now rewrite !app_nil_r.
    + now apply Hall.
    + destruct (exited st) eqn:Hexit; [reflexivity|].
      destruct (Hlive eq_refl) as (_ & _ & Hno). now destruct Hno; apply Hall.
Qed.

(** Every run of close events can be continued to one in which all the
    archives have closed. *)
Lemma closes_complete order st :
  closes order st ->
  exists rest st',
    closes (order ++ rest)%list st' /\ length (order ++ rest)%list = length HASHES.
Proof.
  intros Hrun.
  remember (length HASHES - length order) as left eqn:Hleft.
  revert order st Hrun Hleft.
  induction left as [|left IH]; intros order st Hrun Hleft;
    destruct (closes_progress order st Hrun) as (_ & Hle & Hshort & _).
  - exists [], st. rewrite app_nil_r. split; [exact Hrun | lia].
  - destruct Hshort as [Hexit Hopen]; [lia|].
    destruct (open st) as [|[key hash] others] eqn:Hfirst; [contradiction|].
    assert (Hnext : closes (order ++ [(key, hash)])%list (closeStream key hash st)).
    { apply closes_close; [exact Hrun | exact Hexit | rewrite Hfirst; left]. }
    destruct (IH _ _ Hnext) as (rest & st' & Hrest & Hlen).
    { rewrite length_app. simpl. lia. }
    exists ((key, hash) :: rest), st'.
    rewrite <- app_assoc in Hrest, Hlen. now split.
Qed.

(** C10. Between any two events of the zip script, at most
    [NUM_VERSIONS] archives are being written; every element of [HASHES]
    is, once each, either waiting, being written or closed; and the
    completion message has been printed only if no archive is waiting or
    being written, every output stream having closed.  As long as the
    process runs some archive is being written, whose stream can close
    next, and the message is there exactly when none is left.  The
    elements are all processed: in a run of stream close events the
    archives closed are those of the events, one more with each; short of
    as many events as [HASHES] has elements the process runs and an archive
    is being written, with that many every element of [HASHES] has been
    closed once, the message is printed and the process has ended; and such
    a run can always be continued to that end. *)
Theorem archive_writes_are_bounded st :
  reachable st ->
  (Z.of_nat (length (open st)) <= NUM_VERSIONS)%Z /\
  (closed st ++ open st ++ pending st)%list ≡ₚ indexed HASHES /\
  (allZippedMessage ∈ output st ->
    open st = [] /\ pending st = [] /\ closed st ≡ₚ indexed HASHES) /\
  (exited st = false -> open st <> [] /\ allZippedMessage ∉ output st) /\
  (allZippedMessage ∈ output st <-> open st = []) /\
  (forall order,
      closes order st ->
      closed st = order /\
      length order <= length HASHES /\
      (length order < length HASHES ->
        exited st = false /\ open st <> [] /\
        forall key hash,
          (key, hash) ∈ open st ->
          closes (order ++ [(key, hash)])%list (closeStream key hash st) /\
          closed (closeStream key hash st) = (order ++ [(key, hash)])%list) /\
      (length order = length HASHES ->
        order ≡ₚ indexed HASHES /\ allZippedMessage ∈ output st /\ exited st = true) /\
      exists rest st',
        closes (order ++ rest)%list st' /\
        length (order ++ rest)%list = length HASHES).
Proof.
  intros Hreach.
  destruct (reachable_invariant st Hreach)
    as (Hrun & Hbound & Hperm & _ & Hlive & Hmsg & Hall).
  split; [now rewrite <- Hrun|]. split; [exact Hperm|]. split; [|split; [|split]].
  - intros Hin. destruct (Hmsg Hin) as [Hopen Hpending].
    repeat split; try assumption.
    rewrite <- Hperm, Hopen, Hpending. now rewrite !app_nil_r.
  - intros Hexit. destruct (Hlive Hexit) as (Hopen & _ & Hno). now split.
  - split; [|exact Hall]. intros Hin. now destruct (Hmsg Hin).
  - intros order Hcloses.
    destruct (closes_progress order st Hcloses) as (Hclosed & Hle & Hshort & Hfull).
    split; [exact Hclosed|]. split; [exact Hle|]. split; [|split; [exact Hfull|]].
    + intros Hlt. destruct (Hshort Hlt) as [Hexit Hopen].
      split; [exact Hexit|]. split; [exact Hopen|]. intros key hash Hin.
      split; [now apply closes_close|]. now rewrite closeStream_closes_one, Hclosed.
    + now apply (closes_complete order st).
Qed.

End EachLimit.

(** *** The theorem at the three hashes of the repository *)

Lemma three_archives_reachable :
  reachable Hash.HASHES ZipExamples.generate ZipExamples.all_closed.
Proof.
  unfold ZipExamples.all_closed.
  apply reach_close; [apply reach_close; [apply reach_close; [apply reach_script| |]| |]| |];
    try reflexivity; apply list_elem_of_In; vm_compute; auto 6.
Qed.

Lemma three_archives_closes :
  closes Hash.HASHES ZipExamples.generate
    [(0, "iG6Zp4WDF"); (2, "F29R1ibztX"); (1, "Z8lZJChRtn")] ZipExamples.all_closed.
Proof.
  unfold ZipExamples.all_closed.
  apply (closes_close _ _ [(0, "iG6Zp4WDF"); (2, "F29R1ibztX")]);
    [apply (closes_close _ _ [(0, "iG6Zp4WDF")]);
      [apply (closes_close _ _ []); [apply closes_script| |]| |]| |];
    try reflexivity; apply list_elem_of_In; vm_compute; auto 6.
Qed.

Lemma archive_writes_are_bounded_witness :
  (Z.of_nat (length (open ZipExamples.all_closed)) <= NUM_VERSIONS)%Z /\
  (closed ZipExamples.all_closed ++ open ZipExamples.all_closed
    ++ pending ZipExamples.all_closed)%list ≡ₚ indexed Hash.HASHES /\
  (allZippedMessage ∈ output ZipExamples.all_closed ->
    open ZipExamples.all_closed = [] /\ pending ZipExamples.all_closed = [] /\
    closed ZipExamples.all_closed ≡ₚ indexed Hash.HASHES) /\
  (exited ZipExamples.all_closed = false ->
    open ZipExamples.all_closed <> [] /\
    allZippedMessage ∉ output ZipExamples.all_closed) /\
  (allZippedMessage ∈ output ZipExamples.all_closed <->
    open ZipExamples.all_closed = []) /\
  closed ZipExamples.all_closed
  = [(0, "iG6Zp4WDF"); (2, "F29R1ibztX"); (1, "Z8lZJChRtn")] /\
  allZippedMessage ∈ output ZipExamples.all_closed /\
  exited ZipExamples.all_closed = true.
Proof.
  destruct (archive_writes_are_bounded Hash.HASHES ZipExamples.generate
      ZipExamples.all_closed three_archives_reachable)
    as (Hbound & Hperm & Hmsg & Hlive & Hnone & Hprogress).
  destruct (Hprogress _ three_archives_closes) as (Hclosed & _ & _ & Hfull & _).
  destruct (Hfull eq_refl) as (_ & Hprinted & Hexit).
  repeat (split; [assumption|]). exact Hexit.
Defined.

(** In that run the message is the last thing printed before the exit. *)
Lemma three_archives_output :
  output ZipExamples.all_closed
  = [ConsoleLog EOL; ConsoleLog "All versions okay"; ConsoleLog "==============";
    ConsoleLog EOL;
    ConsoleLog ("Wait until " ++ quoted "All files zipped" ++ " is printed.");
    ConsoleLog "==========================================="; ConsoleLog EOL;
    ConsoleLog "Zipping files matching pattern: iG6Zp4WDF/*";
    ConsoleLog "Zipping files matching pattern: Z8lZJChRtn/*";
    ConsoleLog "Zipping files matching pattern: F29R1ibztX/*";
    ConsoleLog "Created zip file: iG6Zp4WDF-game-a0.zip";
    ConsoleLog "Created zip file: F29R1ibztX-game-a2.zip";
    ConsoleLog "Created zip file: Z8lZJChRtn-game-a1.zip";
    allZippedMessage; ProcessExit].
Proof. reflexivity. Qed.

End ZipProofs.

(** ** Further properties of stage 1 *)

Module SamplerLaws.
Import Js Sampler.

(** *** Strictly ascending arrays *)

Lemma increasing_NoDup (l : list nat) : StronglySorted lt l -> NoDup l.
Proof.
  induction 1 as [|x l _ IH Hx]; constructor; [|exact IH].
  intros Hin. rewrite Forall_forall in Hx. specialize (Hx x Hin). lia.
Qed.

(** A strictly ascending array is determined by its elements. *)
Lemma increasing_ext (l1 l2 : list nat) :
  StronglySorted lt l1 -> StronglySorted lt l2 ->
  (forall x, x ∈ l1 <-> x ∈ l2) -> l1 = l2.
Proof.
  intros H1 H2 Hiff.
  apply (StronglySorted_unique_strong lt); try assumption.
  - intros x1 x2 _ _ Ha Hb. lia.
  - apply NoDup_Permutation; auto using increasing_NoDup.
Qed.

Lemma sortedUniq_seen_id seen (l : list nat) :
  StronglySorted lt l -> Forall (lt seen) l -> sortedUniq_seen seen l = l.
Proof.
  revert seen. induction l as [|v l IH]; intros seen Hs Hall; [reflexivity|].
  apply StronglySorted_inv in Hs as [Hs Hv].
  apply Forall_cons in Hall as [Hlt _]. simpl.
  destruct (Nat.eqb_spec v seen) as [->|_]; [lia|].
  now rewrite IH.
Qed.

(** [sortedUniq] leaves a strictly ascending array as it is. *)
Lemma sortedUniq_id (l : list nat) : StronglySorted lt l -> sortedUniq l = l.
Proof.
  destruct l as [|v l]; [reflexivity|]. intros Hs.
  apply StronglySorted_inv in Hs as [Hs Hv]. simpl.
  now rewrite sortedUniq_seen_id.
Qed.

(** Sorting an array without duplicates gives a strictly ascending one. *)
Lemma sort_ascending_increasing (l : list nat) :
  NoDup l -> StronglySorted lt (sort_ascending l).
Proof.
  intros Hnd.
  assert (Hnd' : NoDup (sort_ascending l)).
  { unfold sort_ascending. now rewrite (merge_sort_Permutation le). }
  pose proof (SamplerProofs.sort_ascending_sorted l) as Hs.
  induction Hs as [|x rest _ IH Hx]; constructor.
  - apply IH. now apply NoDup_cons in Hnd' as [_ ?].
  - apply NoDup_cons in Hnd' as [Hout _].
    rewrite Forall_forall in *. intros y Hy.
    specialize (Hx y Hy). assert (x <> y) by (intros ->; contradiction). lia.
Qed.

(** A sample drawn from the line numbers holds no number twice. *)
Lemma drawn_NoDup n d : drawn_from (range n) d -> NoDup (sampled d).
Proof.
  intros (_ & Hsub & _).
  assert (Hk : exists k, sampled d ++ k ≡ₚ range n)
    by (apply submseteq_Permutation in Hsub as [k Hk]; exists k; now symmetry).
  destruct Hk as [k Hk].
  assert (Hnd : NoDup (sampled d ++ k)) by (rewrite Hk; apply NoDup_seq).
  now apply NoDup_app in Hnd as [Hnd _].
Qed.

Lemma selected_of_drawn n d :
  drawn_from (range n) d ->
  sortedUniq (sort_ascending (sampled d)) = sort_ascending (sampled d).
Proof.
  intros Hd. apply sortedUniq_id, sort_ascending_increasing.
  now apply (drawn_NoDup n).
Qed.

(** X1. The line numbers selected for a version, and so the text written
    to its file, depend only on which line numbers the sample holds: the
    order in which lodash returned them, and a number returned twice, make
    no difference. *)
Theorem selection_depends_on_sampled_set (studentLines : list string) d1 d2 :
  (forall x, x ∈ sampled d1 <-> x ∈ sampled d2) ->
  selectedLineNumbers d1 = selectedLineNumbers d2 /\
  emittedLines studentLines d1 = emittedLines studentLines d2 /\
  writtenText studentLines d1 = writtenText studentLines d2.
Proof.
  intros Hset.
  assert (Hsel : selectedLineNumbers d1 = selectedLineNumbers d2).
  { apply increasing_ext; try apply SamplerProofs.selectedLineNumbers_increasing.
    intros x. rewrite !SamplerProofs.elem_of_selectedLineNumbers, Hset. tauto. }
  unfold writtenText, emittedLines. now rewrite Hsel.
Qed.

Lemma selection_depends_on_sampled_set_witness :
  writtenText SamplerExamples.master (Draw 16450 [2; 1])
  = writtenText SamplerExamples.master (Draw 16500 [1; 2; 2; 1]).
Proof.
  apply (selection_depends_on_sampled_set SamplerExamples.master
      (Draw 16450 [2; 1]) (Draw 16500 [1; 2; 2; 1])).
  intros x. simpl. rewrite !elem_of_cons. rewrite elem_of_nil. tauto.
Defined.

(** X2. A sample drawn from the line numbers loses nothing when it is
    sorted and made unique, so the array joined into the file has one
    element for each sampled number and one more for the header when the
    sample missed line 0.  When the master file has at least [numToPickMax]
    lines, every file has between [numToPickMin] and [numToPickMax + 1]
    lines, the header included. *)
Theorem number_of_lines_written (studentLines : list string) d :
  drawn_from (range (length studentLines)) d ->
  sortedUniq (sort_ascending (sampled d)) ≡ₚ sampled d /\
  length (emittedLines studentLines d)
  = length (sampled d) + (if decide (0 ∈ sampled d) then 0 else 1) /\
  ((numToPickMax <= N.of_nat (length studentLines))%N ->
    (numToPickMin <= N.of_nat (length (emittedLines studentLines d))
      <= numToPickMax + 1)%N).
Proof.
  intros Hd. pose proof (selected_of_drawn _ d Hd) as Huniq.
  assert (Hperm : sortedUniq (sort_ascending (sampled d)) ≡ₚ sampled d).
  { rewrite Huniq. apply (merge_sort_Permutation le). }
  assert (Hlen : length (emittedLines studentLines d)
      = length (sampled d) + (if decide (0 ∈ sampled d) then 0 else 1)).
  { unfold emittedLines, selectedLineNumbers. rewrite length_map.
    destruct (Z.eqb_spec (indexOf 0 (sortedUniq (sort_ascending (sampled d)))) (-1))
      as [Habs|Hpres].
    - apply SamplerProofs.indexOf_absent in Habs. rewrite Hperm in Habs.
      destruct (decide (0 ∈ sampled d)); [contradiction|].
      simpl. rewrite Hperm. lia.
    - destruct (decide (0 ∈ sampled d)) as [_|Hout].
      + rewrite Hperm. lia.
      + exfalso. apply Hpres, SamplerProofs.indexOf_absent. now rewrite Hperm. }
  split; [exact Hperm|]. split; [exact Hlen|].
  intros Hbig. destruct Hd as ((Hmin & Hmax) & _ & Hsize).
  unfold range in Hsize. rewrite length_seq in Hsize. rewrite Hlen.
  unfold numToPickMin, numToPickMax in *.
  destruct (decide (0 ∈ sampled d)); lia.
Qed.

Lemma number_of_lines_written_witness :
  length (emittedLines SamplerExamples.master SamplerExamples.complete) = 3.
Proof.
  destruct (number_of_lines_written SamplerExamples.master SamplerExamples.complete)
    as (_ & Hlen & _).
  - split; [|split].
    + unfold numToPickMin, numToPickMax; simpl; lia.
    + simpl. apply Permutation_submseteq.
      change [2; 1; 0] with (rev [0; 1; 2]). symmetry. apply Permutation_rev.
    + reflexivity.
  - rewrite Hlen. reflexivity.
Defined.

Lemma pick_all (l : list string) k :
  map (fun i => l !! (i - k)) (seq k (length l)) = map Some l.
Proof.
  revert k. induction l as [|x l IH]; intros k; [reflexivity|].
  simpl. rewrite Nat.sub_diag. simpl. f_equal.
  rewrite <- (IH (S k)). apply map_ext_in. intros i Hi.
  apply in_seq in Hi. replace (i - k) with (S (i - S k)) by lia. reflexivity.
Qed.

(** X3. When the master file has no more lines than the least number of
    lines picked ([numToPickMin]), the sample is the whole file: every
    version gets the same text, the lines of the master in their order,
    joined by line feeds. *)
Theorem small_master_is_copied_whole (studentLines hashes : list string) draws :
  (N.of_nat (length studentLines) <= numToPickMin)%N ->
  (forall i, drawn_from (range (length studentLines)) (draws i)) ->
  processOutFiles studentLines hashes draws
  = map (fun hash => (outFile hash, String.concat newline studentLines)) hashes.
Proof.
  intros Hsmall Hdraws.
  assert (Htext : forall i,
      writtenText studentLines (draws i) = String.concat newline studentLines).
  { intros i. specialize (Hdraws i).
    destruct studentLines as [|header rows].
    { now destruct (SamplerProofs.empty_master_writes_empty_text _ Hdraws) as (_ & _ & ->). }
    set (studentLines := header :: rows) in *.
    pose proof (selected_of_drawn _ _ Hdraws) as Huniq.
    destruct Hdraws as ((Hmin & _) & Hsub & Hsize).
    assert (Hall : sampled (draws i) ≡ₚ range (length studentLines)).
    { apply submseteq_length_Permutation; [exact Hsub|].
      unfold range in Hsize |- *. rewrite length_seq in Hsize |- *.
      unfold numToPickMin in *. lia. }
    assert (Hsorted : sort_ascending (sampled (draws i)) = range (length studentLines)).
    { apply increasing_ext.
      - apply sort_ascending_increasing. rewrite Hall. apply NoDup_seq.
      - unfold range. clear. generalize 0.
        induction (length studentLines) as [|n IH]; intros k; simpl; constructor;
          [apply IH|].
        apply Forall_forall. intros x Hx. apply elem_of_seq in Hx. lia.
      - intros x. rewrite SamplerProofs.elem_of_sort_ascending. now rewrite Hall. }
    unfold writtenText, emittedLines, selectedLineNumbers.
    rewrite Huniq, Hsorted.
    replace (indexOf 0 (range (length studentLines)) =? -1)%Z with false
      by (subst studentLines; reflexivity).
    unfold range, join.
    replace (map (fun v => studentLines !! v) (seq 0 (length studentLines)))
      with (map Some studentLines).
    - rewrite map_map. simpl. now rewrite map_id.
    - rewrite <- (pick_all studentLines 0). apply map_ext. intros j.
      now rewrite Nat.sub_0_r. }
  unfold processOutFiles. clear Hsmall Hdraws.
  revert draws Htext. induction hashes as [|hash hashes IH]; intros draws Htext;
    [reflexivity|].
  rewrite imap_cons. simpl. rewrite Htext. f_equal.
  apply (IH (fun i => draws (S i))). intros i. apply Htext.
Qed.

Lemma small_master_is_copied_whole_witness :
  processOutFiles SamplerExamples.master ["iG6Zp4WDF"; "Z8lZJChRtn"]
  (fun _ => SamplerExamples.complete)
  = [(outFile "iG6Zp4WDF", String.concat newline SamplerExamples.master);
    (outFile "Z8lZJChRtn", String.concat newline SamplerExamples.master)].
Proof.
  apply (small_master_is_copied_whole SamplerExamples.master
      ["iG6Zp4WDF"; "Z8lZJChRtn"] (fun _ => SamplerExamples.complete)).
  - unfold numToPickMin. simpl. lia.
  - intros _. split; [|split].
    + unfold numToPickMin, numToPickMax; simpl; lia.
    + simpl. apply Permutation_submseteq.
      change [2; 1; 0] with (rev [0; 1; 2]). symmetry. apply Permutation_rev.
    + reflexivity.
Defined.

(** X4. [pickLines] reads the source array at every index given: over all
    the line numbers of the array it returns the array itself, and an
    element of its result is [undefined] exactly where the index lies past
    the end of the array, which raises no error. *)
Theorem pickLines_reads_the_source (srcArray : list string) :
  pickLines (range (length srcArray)) srcArray = map Some srcArray /\
  forall linesToPick,
    length (pickLines linesToPick srcArray) = length linesToPick /\
    (None ∈ pickLines linesToPick srcArray
      <-> exists lineNumber, lineNumber ∈ linesToPick /\ length srcArray <= lineNumber).
Proof.
  split.
  - unfold pickLines, range. rewrite <- (pick_all srcArray 0).
    apply map_ext. intros j. now rewrite Nat.sub_0_r.
  - intros linesToPick. unfold pickLines. split; [apply length_map|].
    rewrite list_elem_of_fmap. split.
    + intros (i & Hnone & Hin). exists i. split; [exact Hin|].
      symmetry in Hnone. now apply lookup_ge_None in Hnone.
    + intros (i & Hin & Hge). exists i. split; [|exact Hin].
      symmetry. now apply lookup_ge_None.
Qed.

End SamplerLaws.

(** ** Further properties of stage 2 *)

Module QaGenLaws.
Import Js QaUtil QaGen QaCount.

(** *** [includes] *)

Lemma prefix_spec sub s : String.prefix sub s = true <-> exists post, s = sub ++ post.
Proof.
  revert s. induction sub as [|c sub IH]; intros s.
  - split; [intros _; now exists s | intros _; now destruct s].
  - destruct s as [|c' s]; simpl.
    + split; [discriminate | intros [post [=]]].
    + destruct (ascii_dec c c') as [->|Hne].
      * rewrite IH. split; intros [post Hpost]; exists post; [now rewrite Hpost|].
        now injection Hpost.
      * split; [discriminate|]. intros [post [= -> _]]. contradiction.
Qed.

(** [s.includes(sub)] holds exactly when [sub] occurs in [s]. *)
Lemma includes_spec s sub :
  includes s sub = true <-> exists pre post, s = pre ++ sub ++ post.
Proof.
  induction s as [|c s IH].
  - cbn [includes]. rewrite orb_false_r, prefix_spec. split.
    + intros [post ->]. now exists "", post.
    + intros ([|? ?] & post & H); [now exists post | discriminate H].
  - cbn [includes]. rewrite orb_true_iff, prefix_spec, IH. split.
    + intros [[post ->]|(pre & post & ->)].
      * now exists "", post.
      * now exists (String c pre), post.
    + intros ([|c' pre] & post & H).
      * left. now exists post.
      * right. injection H as -> ->. now exists pre, post.
Qed.

(** *** The loop of question 2 *)

Lemma countGames_counts name rows numGames :
  Forall (fun row => header_Name < length row) rows ->
  countGames name rows numGames
  = Ok (numGames + Z.of_nat (length (List.filter (mentions name) rows)))%Z.
Proof.
  intros Hrows. revert numGames.
  induction Hrows as [|row rows Hrow _ IH]; intros numGames; simpl.
  - f_equal. lia.
  - unfold mentions at 1.
    destruct (lookup_lt_is_Some_2 row header_Name Hrow) as [title ->].
    rewrite IH. destruct (includes title name); simpl length; f_equal; lia.
Qed.

Lemma countGames_throws name rows numGames :
  (exists msg, countGames name rows numGames = Throw msg)
  <-> Exists (fun row => length row <= header_Name) rows.
Proof.
  revert numGames. induction rows as [|row rows IH]; intros numGames; simpl.
  - split; [intros [msg [=]] | intros H; inversion H].
  - rewrite Exists_cons. destruct (row !! header_Name) as [title|] eqn:Hrow.
    + rewrite IH. apply lookup_lt_Some in Hrow. split; [now right|].
      intros [H|H]; [lia | exact H].
    + apply lookup_ge_None in Hrow. split; [now left | eauto].
Qed.

(** X5. Question 2 counts the rows after the header row whose name
    column contains the chosen name, and answers with that count in
    decimal; the header row is never counted.  It throws a type error,
    assigning nothing, exactly when some row after the header has no name
    column. *)
Theorem questionTwo_counts_names_containing hash csv d obj entry name :
  names !! randIndex d = Some name ->
  (forall title,
      includes title name = true <-> exists pre post, title = pre ++ name ++ post) /\
  ((exists msg, questionTwo hash csv d (put obj hash entry) = Throw msg)
    <-> Exists (fun row => length row <= header_Name) (tail csv)) /\
  (Forall (fun row => header_Name < length row) (tail csv) ->
    questionTwo hash csv d (put obj hash entry)
    = Ok (put obj hash
        (set
          (set entry "q2q"
            (VStr ("How many video games contain " ++ quoted name
                ++ " in their name?")))
          "q2a"
          (VStr (string_of_Z
                (Z.of_nat (length (List.filter (mentions name) (tail csv))))))))).
Proof.
  intros Hname. split; [intros title; apply includes_spec|]. split.
  - rewrite <- (countGames_throws name (tail csv) 0).
    unfold questionTwo. rewrite Hname.
    destruct (countGames name (tail csv) 0) as [counted|msg].
    + rewrite !QaGenProofs.assign_put. split; intros [m [=]].
    + split; eauto.
  - intros Hrows. unfold questionTwo. rewrite Hname.
    rewrite (countGames_counts name (tail csv) 0 Hrows).
    now rewrite !QaGenProofs.assign_put.
Qed.

Lemma questionTwo_counts_names_containing_witness :
  exists qa entry,
    questionTwo "iG6Zp4WDF" QaExamples.sales (QaExamples.rand 0) [("iG6Zp4WDF", [])]
    = Ok qa /\
    entry_of qa "iG6Zp4WDF" = Some entry /\ get entry "q2a" = VStr "1".
Proof.
  destruct (questionTwo_counts_names_containing "iG6Zp4WDF" QaExamples.sales
      (QaExamples.rand 0) [] [] "Wii" eq_refl) as (_ & _ & Hcount).
  eexists _, _. split; [apply Hcount; repeat constructor|].
  split; reflexivity.
Defined.

Section Script.

Variable HASHES : list string.
Variable outFile : string.
Variable parseFiles : string -> result parse_result.
Variable salesDifference : list (list string) -> Z -> string.
Variable globalSales : list (list string) -> bool -> string.

Local Abbreviation questions := (questions salesDifference globalSales).
Local Abbreviation processVersion :=
  (processVersion outFile parseFiles salesDifference globalSales).
Local Abbreviation eachVersion :=
  (eachVersion outFile parseFiles salesDifference globalSales).
Local Abbreviation script :=
  (script HASHES outFile parseFiles salesDifference globalSales).

(** *** When the file is written *)

Lemma questions_need_names hash csv d obj qa :
  questions hash csv d (put obj hash []) = Ok qa ->
  Forall (fun row => header_Name < length row) (tail csv).
Proof.
  unfold QaGen.questions, questionOne. rewrite !QaGenProofs.assign_put.
  unfold questionTwo.
  destruct (countGames
      match names !! randIndex d with Some n => n | None => "undefined" end
      (tail csv) 0) as [counted|msg] eqn:Hcount; [|discriminate].
  intros _. apply Forall_forall. intros row Hrow.
  destruct (Nat.lt_ge_cases header_Name (length row)) as [Hlt|Hge]; [exact Hlt|].
  exfalso.
  assert (Hthrow : exists msg, countGames
        match names !! randIndex d with Some n => n | None => "undefined" end
        (tail csv) 0 = Throw msg).
  { apply countGames_throws. apply Exists_exists. eauto. }
  destruct Hthrow as [msg Hthrow]. congruence.
Qed.

(** A version that is processed without an uncaught error has a usable
    CSV file. *)
Lemma processVersion_usable hash d st :
  (exists qa,
      processVersion hash d st
      = printWhenDone outFile hash
      {| numLeft := numLeft st; studentQA := qa; trace := trace st |} /\
      usable parseFiles hash) \/
  (exists logged msg,
      processVersion hash d st
      = Ended (log (map ConsoleError logged ++ [Uncaught msg])%list st)).
Proof.
  unfold QaGen.processVersion, parseStudentAnswerCsv, usable.
  destruct (parseFiles (csvFile hash)) as [csv|msg] eqn:Hparse.
  - destruct (errors csv) as [|e errs] eqn:Herr; cbn [length Nat.ltb Nat.leb].
    + destruct (QaGen.questions salesDifference globalSales hash (data csv) d
          (put (studentQA st) hash [])) as [qa|msg] eqn:Hq.
      * left. exists qa. split; [reflexivity|]. exists csv.
        repeat split; try assumption. eapply questions_need_names; eauto.
      * right. now exists [], msg.
    + right. eauto.
  - right. now exists [], msg.
Qed.

Lemma eachVersion_write_needs rand hashes i st :
  (Z.of_nat (length hashes) <= numLeft st)%Z ->
  (forall file written, WriteFile file written ∉ trace st) ->
  forall st',
    eachVersion i hashes rand st = Ended st' \/ eachVersion i hashes rand st = Running st' ->
    (exists file written, WriteFile file written ∈ trace st') ->
    hashes <> [] /\ numLeft st = Z.of_nat (length hashes) /\
    Forall (usable parseFiles) hashes.
Proof.
  revert i st. induction hashes as [|hash rest IH]; intros i st Hleft Hno st' Hrun Hw.
  - exfalso. destruct Hrun as [[=]|[= <-]].
    destruct Hw as (file & written & Hin). now apply (Hno file written).
  - cbn [QaGen.eachVersion] in Hrun.
    destruct (processVersion_usable hash (rand i) st)
      as [(qa & Hversion & Huse)|(logged & msg & Hversion)]; rewrite Hversion in Hrun.
    + unfold printWhenDone in Hrun. cbn [numLeft studentQA trace] in Hrun.
      destruct (Z.eqb_spec (numLeft st - 1) 0) as [Hzero|Hmore].
      * assert (rest = []) as ->
          by (destruct rest; [reflexivity | simpl length in Hleft; lia]).
        simpl length. repeat split; [discriminate | lia | now repeat constructor].
      * edestruct (IH (S i)) as (Hne & Hlen & Hrest); [| |exact Hrun|exact Hw|].
        -- cbn [numLeft]. simpl length in Hleft. lia.
        -- cbn [trace]. intros file written Hin.
           apply elem_of_app in Hin as [Hin|Hin]; [now apply (Hno file written)|].
           apply list_elem_of_singleton in Hin. discriminate Hin.
        -- cbn [numLeft] in Hlen. simpl length.
           repeat split; [discriminate | lia | now constructor].
    + exfalso. destruct Hrun as [[= <-]|[=]].
      destruct Hw as (file & written & Hin). unfold log in Hin. cbn [trace] in Hin.
      apply elem_of_app in Hin as [Hin|Hin]; [now apply (Hno file written)|].
      apply elem_of_app in Hin as [Hin|Hin].
      * apply list_elem_of_fmap in Hin as (text & [=] & _).
      * apply list_elem_of_singleton in Hin. discriminate Hin.
Qed.

(** X6. The QA file is written exactly when there is at least one version
    and the CSV file of every version is usable (it parses without errors
    and every row after the header has a name column): one version that
    fails keeps the file from being written at all, also for the versions
    processed before it, and without versions nothing is written. *)
Theorem qa_file_is_written_iff_every_version_is_usable rand :
  (exists st file written,
      (script rand = Ended st \/ script rand = Running st) /\
      WriteFile file written ∈ trace st)
  <-> HASHES <> [] /\ Forall (usable parseFiles) HASHES.
Proof.
  split.
  - intros (st & file & written & Hrun & Hin).
    edestruct (eachVersion_write_needs rand HASHES 0
        {| numLeft := Z.of_nat (length HASHES); studentQA := []; trace := [] |})
      as (Hne & _ & Huse); [| |exact Hrun| |].
    + cbn [numLeft]. lia.
    + cbn [trace]. intros ? ?. apply not_elem_of_nil.
    + eauto.
    + now split.
  - intros [Hne Huse].
    destruct (QaGenProofs.eachVersion_writes outFile parseFiles salesDifference
        globalSales rand HASHES 0
        {| numLeft := Z.of_nat (length HASHES); studentQA := []; trace := [] |}
        Hne eq_refl Huse) as (st & Hrun & Htrace & _).
    exists st, outFile, (studentQA st). split; [now left|].
    rewrite Htrace. cbn [trace app]. apply elem_of_app. right. left.
Qed.

End Script.

End QaGenLaws.

(** ** Properties of [parseInt] and of the sum helper *)

Module ParseIntLaws.
Import Js CreateTest Digits.

Lemma of_uint_acc_value d acc :
  Z.pos (Pos.of_uint_acc d acc) = digits_value d (Z.pos acc).
Proof.
  revert acc. induction d; intros acc; simpl; rewrite ?IHd; try reflexivity;
    f_equal; lia.
Qed.

Lemma of_uint_value d : Z.of_N (Pos.of_uint d) = digits_value d 0.
Proof.
  induction d; simpl; try reflexivity; try exact IHd;
    rewrite of_uint_acc_value; reflexivity.
Qed.

Lemma parse_digits_decimal d acc :
  parse_digits 10 (Some acc) (NilEmpty.string_of_uint d) = Some (digits_value d acc).
Proof.
  revert acc. induction d; intros acc; [reflexivity|..];
    cbn [NilEmpty.string_of_uint parse_digits];
    match goal with
    | |- context [digit_value 10 ?c] =>
      let k := eval vm_compute in (digit_value 10 c) in
      change (digit_value 10 c) with k
    end;
    cbv iota beta; rewrite IHd; cbn [digits_value]; f_equal; f_equal; lia.
Qed.

Lemma parse_digits_decimal_start d :
  d <> Decimal.Nil ->
  parse_digits 10 None (NilEmpty.string_of_uint d) = Some (Z.of_N (Pos.of_uint d)).
Proof.
  intros Hd. rewrite of_uint_value.
  destruct d; [congruence|..];
    cbn [NilEmpty.string_of_uint parse_digits];
    match goal with
    | |- context [digit_value 10 ?c] =>
      let k := eval vm_compute in (digit_value 10 c) in
      change (digit_value 10 c) with k
    end;
    cbv iota beta; rewrite parse_digits_decimal; reflexivity.
Qed.

Lemma string_of_uint_digits d :
  match NilEmpty.string_of_uint d with
  | String c (String x _) => is_digit c = true /\ is_digit x = true
  | String c EmptyString => is_digit c = true
  | EmptyString => d = Decimal.Nil
  end.
Proof.
  destruct d as [|d|d|d|d|d|d|d|d|d|d]; [reflexivity|..];
    destruct d; simpl; auto.
Qed.

Lemma parseInt_digits s :
  match s with
  | String c (String x _) => is_digit c = true /\ is_digit x = true
  | String c EmptyString => is_digit c = true
  | EmptyString => False
  end ->
  parseInt (VStr s) = parse_digits 10 None s /\
  parseInt (VStr (String "-" s))
  = match parse_digits 10 None s with Some n => Some (- n)%Z | None => None end.
Proof.
  assert (Hdigit : forall c, is_digit c = true ->
      is_space c = false /\ Ascii.eqb c "-" = false /\ Ascii.eqb c "+" = false /\
      Ascii.eqb c "x" = false /\ Ascii.eqb c "X" = false).
  { intros c Hc. unfold is_digit in Hc. apply andb_true_iff in Hc as [Hlo Hhi].
    apply Nat.leb_le in Hlo, Hhi.
    assert (Hne : forall k, k < 256 -> (k < 48 \/ 57 < k) -> c <> ascii_of_nat k).
    { intros k Hlt Hk ->. rewrite nat_ascii_embedding in Hlo, Hhi by exact Hlt. lia. }
    unfold is_space. repeat split.
    - destruct (Nat.leb_spec 9 (nat_of_ascii c)), (Nat.leb_spec (nat_of_ascii c) 13),
        (Nat.eqb_spec (nat_of_ascii c) 32), (Nat.eqb_spec (nat_of_ascii c) 160);
        simpl; try reflexivity; lia.
    - apply Ascii.eqb_neq. apply (Hne 45); lia.
    - apply Ascii.eqb_neq. apply (Hne 43); lia.
    - apply Ascii.eqb_neq. apply (Hne 120); lia.
    - apply Ascii.eqb_neq. apply (Hne 88); lia. }
  intros Hs. destruct s as [|c [|x rest]]; [contradiction| |].
  - destruct (Hdigit c Hs) as (Hsp & Hminus & Hplus & _).
    unfold parseInt. cbn [to_string trimStart]. rewrite Hsp.
    change (is_space "-") with false. cbv iota. rewrite Hminus, Hplus.
    rewrite Ascii.eqb_refl. cbv iota beta.
    split; destruct (parse_digits 10 None (String c "")); f_equal; lia.
  - destruct Hs as [Hc Hx].
    destruct (Hdigit c Hc) as (Hsp & Hminus & Hplus & _).
    destruct (Hdigit x Hx) as (_ & _ & _ & Hlower & Hupper).
    unfold parseInt. cbn [to_string trimStart]. rewrite Hsp.
    change (is_space "-") with false. cbv iota. rewrite Hminus, Hplus.
    rewrite Ascii.eqb_refl. cbv iota beta. rewrite Hlower, Hupper.
    rewrite andb_false_r. cbv iota beta.
    split; destruct (parse_digits 10 None (String c (String x rest))); f_equal; lia.
Qed.

(** [parseInt] reads back the decimal text of an integer. *)
Lemma parseInt_string_of_Z n : parseInt (VStr (string_of_Z n)) = Some n.
Proof.
  assert (Hpos : forall p,
      let s := NilEmpty.string_of_uint (Pos.to_uint p) in
      parseInt (VStr s) = Some (Z.pos p) /\
      parseInt (VStr (String "-" s)) = Some (Z.neg p)).
  { intros p s. subst s.
    pose proof (string_of_uint_digits (Pos.to_uint p)) as Hd.
    pose proof (parse_digits_decimal_start _ (DecimalPos.Unsigned.to_uint_nonnil p)) as Hv.
    rewrite DecimalPos.Unsigned.of_to in Hv.
    destruct (parseInt_digits (NilEmpty.string_of_uint (Pos.to_uint p))) as [H1 H2].
    - destruct (NilEmpty.string_of_uint (Pos.to_uint p)) as [|c [|x rest]]; auto.
      now apply DecimalPos.Unsigned.to_uint_nonnil in Hd.
    - rewrite H1, H2, Hv. split; reflexivity. }
  unfold string_of_Z. destruct n as [|p|p]; [reflexivity|..]; simpl; apply Hpos.
Qed.

Lemma parseInt_number n : parseInt (VNum n) = Some n.
Proof. apply parseInt_string_of_Z. Qed.

End ParseIntLaws.

Module QaSumsLaws.
Import Js QaSums.

Lemma plus_NaN acc : plus acc NaN = NaN.
Proof. now destruct acc. Qed.

Lemma sum_from_NaN array :
  fold_left (fun acc v => plus acc (Number_parseInt v)) array NaN = NaN.
Proof. induction array as [|v array IH]; [reflexivity | exact IH]. Qed.

(** X7. [sumArrayAsNumber] returns [NaN], without an error, as soon as
    one element of the array does not start with an integer, whatever the
    other elements are. *)
Theorem sumArrayAsNumber_of_a_non_number_is_NaN array v :
  v ∈ array -> CreateTest.parseInt v = None -> sumArrayAsNumber array = NaN.
Proof.
  intros Hin Hv. apply list_elem_of_split in Hin as (before & after & ->).
  unfold sumArrayAsNumber. rewrite fold_left_app. cbn [fold_left].
  assert (Number_parseInt v = NaN) as -> by (unfold Number_parseInt; now rewrite Hv).
  rewrite plus_NaN. apply sum_from_NaN.
Qed.

Lemma sumArrayAsNumber_of_a_non_number_is_NaN_witness :
  sumArrayAsNumber [VStr "12"; VStr "N/A"; VNum 7] = NaN.
Proof.
  apply (sumArrayAsNumber_of_a_non_number_is_NaN _ (VStr "N/A")).
  - right. left.
  - reflexivity.
Defined.

Lemma sum_from acc array ns :
  Forall2 (fun v n => CreateTest.parseInt v = Some n) array ns ->
  (Z.abs acc + fold_right Z.add 0%Z (map Z.abs ns) <= 2 ^ 53)%Z ->
  fold_left (fun acc v => plus acc (Number_parseInt v)) array (Exact acc)
  = Exact (acc + fold_right Z.add 0%Z ns).
Proof.
  intros Hall. revert acc. induction Hall as [|v n array ns Hv _ IH]; intros acc Hsafe.
  - simpl. f_equal. lia.
  - cbn [fold_left map fold_right] in *.
    assert (Hpos : (0 <= fold_right Z.add 0%Z (map Z.abs ns))%Z).
    { clear. induction ns as [|m ns IH]; simpl; lia. }
    assert (Number_parseInt v = Exact n) as ->.
    { unfold Number_parseInt, of_integer, safe. rewrite Hv.
      now replace (Z.abs n <=? 2 ^ 53)%Z with true by (symmetry; apply Z.leb_le; lia). }
    cbn [plus]. unfold of_integer, safe.
    replace (Z.abs (acc + n) <=? 2 ^ 53)%Z with true by (symmetry; apply Z.leb_le; lia).
    rewrite IH by lia. f_equal. lia.
Qed.

(** X8. On an array whose elements all start with an integer,
    [sumArrayAsNumber] returns the sum of these integers (fractions and
    other text after the digits are dropped), exactly, as long as the
    magnitudes add up to no more than 2^53. *)
Theorem sumArrayAsNumber_adds_the_integers array ns :
  Forall2 (fun v n => CreateTest.parseInt v = Some n) array ns ->
  (fold_right Z.add 0%Z (map Z.abs ns) <= 2 ^ 53)%Z ->
  sumArrayAsNumber array = Exact (fold_right Z.add 0%Z ns).
Proof.
  intros Hall Hsafe. unfold sumArrayAsNumber.
  rewrite (sum_from 0 array ns Hall) by (simpl; lia). reflexivity.
Qed.

Lemma sumArrayAsNumber_adds_the_integers_witness :
  sumArrayAsNumber [VStr "41"; VNum 29; VStr " 3.77"; VStr "-8px"] = Exact 65.
Proof.
  apply (sumArrayAsNumber_adds_the_integers
      [VStr "41"; VNum 29; VStr " 3.77"; VStr "-8px"] [41; 29; 3; -8]%Z).
  - repeat constructor.
  - vm_compute. discriminate.
Defined.

End QaSumsLaws.

(** ** Properties of the file-URL table *)

Module FileUrlsLaws.
Import Js CreateTest FileUrls.

(** *** Splitting *)

Lemma free_of_app c a b : free_of c (a ++ b) = free_of c a && free_of c b.
Proof.
  induction a as [|x a IH]; [reflexivity|].
  change (String x a ++ b) with (String x (a ++ b)). cbn [free_of].
  now rewrite IH, andb_assoc.
Qed.

Lemma split_free sep s : free_of sep s = true -> split sep s = [s].
Proof.
  induction s as [|c s IH]; [reflexivity|]. cbn [free_of split].
  intros H. apply andb_true_iff in H as [Hc Hs].
  destruct (Ascii.eqb c sep); [discriminate|]. now rewrite IH.
Qed.

Lemma split_app sep s rest :
  free_of sep s = true -> split sep (s ++ String sep rest) = s :: split sep rest.
Proof.
  induction s as [|c s IH]; intros H.
  - change ("" ++ String sep rest) with (String sep rest). cbn [split].
    now rewrite Ascii.eqb_refl.
  - cbn [free_of] in H. apply andb_true_iff in H as [Hc Hs].
    change (String c s ++ String sep rest) with (String c (s ++ String sep rest)).
    cbn [split]. destruct (Ascii.eqb c sep); [discriminate|]. now rewrite IH.
Qed.

Lemma split_nonempty sep s : split sep s <> [].
Proof.
  destruct s as [|c s]; cbn [split]; [discriminate|].
  destruct (Ascii.eqb c sep); [discriminate|]. now destruct (split sep s).
Qed.

(** Fewer than two fields: the line holds no comma. *)
Lemma split_single sep s : length (split sep s) < 2 <-> free_of sep s = true.
Proof.
  induction s as [|c s IH]; cbn [split free_of]; [simpl; intuition lia|].
  pose proof (split_nonempty sep s) as Hne.
  destruct (Ascii.eqb c sep); cbn [negb andb].
  - split; [|discriminate]. destruct (split sep s); [congruence | simpl; lia].
  - rewrite <- IH. destruct (split sep s) as [|first others]; simpl; [congruence | lia].
Qed.

(** *** Lines *)

Lemma split_lines_plain s :
  free_of LF s = true -> free_of CR s = true -> split_lines s = [s].
Proof.
  induction s as [|c s IH]; [reflexivity|]. cbn [free_of split_lines].
  intros Hlf Hcr. apply andb_true_iff in Hlf as [Hc Hlf].
  apply andb_true_iff in Hcr as [Hc' Hcr].
  destruct (Ascii.eqb c LF); [discriminate|].
  destruct (Ascii.eqb c CR); [discriminate|]. now rewrite IH.
Qed.

Lemma split_lines_LF s rest :
  free_of LF s = true -> free_of CR s = true ->
  split_lines (s ++ String LF rest) = s :: split_lines rest.
Proof.
  induction s as [|c s IH]; intros Hlf Hcr.
  - reflexivity.
  - cbn [free_of] in Hlf, Hcr. apply andb_true_iff in Hlf as [Hc Hlf].
    apply andb_true_iff in Hcr as [Hc' Hcr].
    change (String c s ++ String LF rest) with (String c (s ++ String LF rest)).
    cbn [split_lines].
    destruct (Ascii.eqb c LF); [discriminate|].
    destruct (Ascii.eqb c CR); [discriminate|]. now rewrite IH.
Qed.

Lemma split_lines_CRLF s rest :
  free_of LF s = true -> free_of CR s = true ->
  split_lines (s ++ String CR (String LF rest)) = s :: split_lines rest.
Proof.
  induction s as [|c s IH]; intros Hlf Hcr.
  - reflexivity.
  - cbn [free_of] in Hlf, Hcr. apply andb_true_iff in Hlf as [Hc Hlf].
    apply andb_true_iff in Hcr as [Hc' Hcr].
    change (String c s ++ String CR (String LF rest))
      with (String c (s ++ String CR (String LF rest))).
    cbn [split_lines].
    destruct (Ascii.eqb c LF); [discriminate|].
    destruct (Ascii.eqb c CR); [discriminate|]. now rewrite IH.
Qed.

(** Lines joined by line feeds, or by carriage return and line feed, are
    split into the same lines again. *)
Lemma split_lines_concat eol lines :
  eol = newline \/ eol = String CR newline ->
  Forall (fun line => free_of LF line = true /\ free_of CR line = true) lines ->
  split_lines (String.concat eol lines) = match lines with [] => [""] | _ => lines end.
Proof.
  intros Heol Hall. induction Hall as [|line lines [Hlf Hcr] Hall IH]; [reflexivity|].
  destruct lines as [|next lines].
  - simpl. now apply split_lines_plain.
  - change (String.concat eol (line :: next :: lines))
      with (line ++ eol ++ String.concat eol (next :: lines)).
    destruct Heol as [->| ->].
    + change (newline ++ ?s) with (String LF s).
      now rewrite split_lines_LF, IH.
    + change (String CR newline ++ ?s) with (String CR (String LF s)).
      now rewrite split_lines_CRLF, IH.
Qed.

(** *** Blank lines *)

Lemma trimStart_empty s : trimStart s = "" -> all_space s = true.
Proof.
  induction s as [|c s IH]; [reflexivity|]. cbn [trimStart all_space].
  destruct (is_space c); [exact IH | discriminate].
Qed.

Lemma trimEnd_empty s : trimEnd s = "" -> all_space s = true.
Proof.
  induction s as [|c s IH]; [reflexivity|]. cbn [trimEnd all_space].
  destruct (trimEnd s) as [|c' kept]; [|discriminate].
  destruct (is_space c); [intros _; now apply IH | discriminate].
Qed.

Lemma trimStart_head s :
  match trimStart s with String c _ => is_space c = false | EmptyString => True end.
Proof.
  induction s as [|c s IH]; [exact I|]. cbn [trimStart].
  destruct (is_space c) eqn:Hc; [exact IH | exact Hc].
Qed.

(** A blank line is made of white space only. *)
Lemma trim_empty s : trim s = "" <-> all_space s = true.
Proof.
  unfold trim. split.
  - intros H. apply trimStart_empty. apply trimEnd_empty in H.
    pose proof (trimStart_head s) as Hhead.
    destruct (trimStart s) as [|c rest]; [reflexivity|].
    cbn [all_space] in H. rewrite Hhead in H. discriminate.
  - induction s as [|c s IH]; [reflexivity|]. cbn [all_space trimStart].
    intros H. apply andb_true_iff in H as [-> Hs]. now apply IH.
Qed.

Lemma all_space_app a b : all_space (a ++ b) = all_space a && all_space b.
Proof.
  induction a as [|x a IH]; [reflexivity|].
  change (String x a ++ b) with (String x (a ++ b)). cbn [all_space].
  now rewrite IH, andb_assoc.
Qed.

(** *** The table *)

Lemma lookup_store_eq {A} (students : list (string * A)) auid entry :
  lookup_entry (store students auid entry) auid = Some entry.
Proof.
  induction students as [|[k e] students IH]; simpl.
  - now rewrite String.eqb_refl.
  - destruct (String.eqb k auid) eqn:Hk; simpl; now rewrite Hk.
Qed.

Lemma lookup_store_ne {A} (students : list (string * A)) auid other entry :
  auid <> other -> lookup_entry (store students auid entry) other = lookup_entry students other.
Proof.
  intros Hne. apply String.eqb_neq in Hne.
  induction students as [|[k e] students IH]; simpl.
  - now rewrite Hne.
  - destruct (String.eqb_spec k auid) as [->|Hk]; simpl.
    + now rewrite Hne.
    + now rewrite IH.
Qed.

Lemma url_of_known platform fileid name :
  (exists url, url_of platform fileid name = Ok url) <-> known platform.
Proof.
  unfold url_of, known. destruct platform as [| | | |p| |];
    try (split; [intros [url [=]] | intros [H|[H|H]]; discriminate H]).
  destruct (String.eqb_spec p "Canvas") as [->|H1]; [split; eauto|].
  destruct (String.eqb_spec p "Google Drive") as [->|H2]; [split; eauto|].
  destruct (String.eqb_spec p "OneDrive") as [->|H3]; [split; eauto|].
  split; [intros [url [=]] | intros [H|[H|H]]; congruence].
Qed.

Lemma file_row_throws platform line :
  (exists msg, file_row platform line = Throw msg)
  <-> trim line <> "" /\ (length (split "," line) < 2 \/ ~ known platform).
Proof.
  unfold file_row. destruct (String.eqb_spec (trim line) "") as [Hblank|Hline].
  - split; [intros [msg [=]] | intros [H _]; contradiction].
  - destruct (split "," line) as [|fileid [|name others]] eqn:Hsplit.
    + split; [|eauto]. intros _. split; [exact Hline | left; simpl; lia].
    + split; [|eauto]. intros _. split; [exact Hline | left; simpl; lia].
    + pose proof (url_of_known platform fileid name) as Hknown.
      destruct (url_of platform fileid name) as [url|msg].
      * split; [intros [msg [=]]|]. intros [_ [H|H]]; [simpl in H; lia|].
        exfalso. apply H, Hknown. eauto.
      * split; [|eauto]. intros _. split; [exact Hline|]. right.
        intros H. apply Hknown in H as [url [=]].
Qed.

Lemma load_rows_throws platform lines students :
  (exists msg, load_rows platform lines students = Throw msg)
  <-> exists line, line ∈ lines /\ exists msg, file_row platform line = Throw msg.
Proof.
  revert students. induction lines as [|line lines IH]; intros students; simpl.
  - split; [intros [msg [=]] | intros (line & H & _); now apply elem_of_nil in H].
  - destruct (file_row platform line) as [[[auid entry]|]|msg] eqn:Hrow.
    + rewrite IH. split; intros (l & Hin & Hl); exists l.
      * split; [now right | exact Hl].
      * apply elem_of_cons in Hin as [->|Hin]; [|now split].
        destruct Hl as [m Hm]. congruence.
    + rewrite IH. split; intros (l & Hin & Hl); exists l.
      * split; [now right | exact Hl].
      * apply elem_of_cons in Hin as [->|Hin]; [|now split].
        destruct Hl as [m Hm]. congruence.
    + split; [|eauto]. intros _. exists line. split; [left | eauto].
Qed.

Section Files.

Variable readFileSync : string -> result string.

Local Abbreviation loadStudentFilesUrls := (loadStudentFilesUrls readFileSync).

(** X9. Loading the file-URL table fails exactly when some line that is
    not blank has fewer than two comma-separated fields (a type error) or
    the platform is none of the three known ones; blank lines are passed
    over, so that a file of blank lines loads as the empty table on any
    platform. *)
Theorem loading_fails_on_a_short_line_or_unknown_platform file text platform :
  readFileSync file = Ok text ->
  ((exists msg, loadStudentFilesUrls file platform = Throw msg)
    <-> exists line,
      line ∈ split_lines text /\ trim line <> "" /\
      (length (split "," line) < 2 \/ ~ known platform)) /\
  (Forall (fun line => trim line = "") (split_lines text) ->
    loadStudentFilesUrls file platform = Ok []).
Proof.
  intros Hread. unfold FileUrls.loadStudentFilesUrls. rewrite Hread. split.
  - rewrite load_rows_throws. now setoid_rewrite file_row_throws.
  - generalize (@nil (string * file_entry)).
    induction (split_lines text) as [|line lines IH]; intros students Hblank;
      [reflexivity|].
    apply Forall_cons in Hblank as [Hline Hblank]. cbn [load_rows].
    unfold file_row. rewrite Hline. cbn [String.eqb]. now apply IH.
Qed.

(** *** Rows that name a version *)

Lemma field_free s :
  field s = true -> free_of "," s = true /\ free_of LF s = true /\ free_of CR s = true.
Proof.
  unfold field. intros H. apply andb_true_iff in H as [H Hcr].
  apply andb_true_iff in H as [Hc Hlf]. auto.
Qed.

Lemma file_row_of_row platform r :
  well_formed r ->
  file_row platform (row_line r)
  = match url_of platform (fileid r) (row_name r) with
    | Ok url => Ok (Some (hash r, {| fileName := row_name r; fileUrl := url |}))
    | Throw msg => Throw msg
    end.
Proof.
  intros (Hid & Hhash & Hrest & Hhyphen & _).
  apply field_free in Hid as (Hid & _ & _).
  apply field_free in Hhash as (Hhash & _ & _).
  apply field_free in Hrest as (Hrest & _ & _).
  unfold file_row, row_line.
  destruct (String.eqb_spec (trim (fileid r ++ "," ++ row_name r)) "") as [Hblank|_].
  { apply trim_empty in Hblank. rewrite all_space_app in Hblank.
    apply andb_true_iff in Hblank as [_ Hblank]. discriminate Hblank. }
  change (fileid r ++ "," ++ row_name r) with (fileid r ++ String "," (row_name r)).
  rewrite split_app by exact Hid.
  assert (Hname : free_of "," (row_name r) = true).
  { unfold row_name. rewrite free_of_app, Hhash.
    change ("-" ++ rest r) with (String "-" (rest r)). cbn [free_of].
    now rewrite Hrest. }
  rewrite (split_free "," (row_name r) Hname).
  assert (Hsplit : split "-" (row_name r) = hash r :: split "-" (rest r)).
  { unfold row_name.
    change (hash r ++ "-" ++ rest r) with (hash r ++ String "-" (rest r)).
    now apply split_app. }
  now rewrite Hsplit.
Qed.

Lemma row_line_plain r :
  well_formed r -> free_of LF (row_line r) = true /\ free_of CR (row_line r) = true.
Proof.
  intros (Hid & Hhash & Hrest & _).
  apply field_free in Hid as (_ & Hid1 & Hid2).
  apply field_free in Hhash as (_ & Hhash1 & Hhash2).
  apply field_free in Hrest as (_ & Hrest1 & Hrest2).
  unfold row_line, row_name.
  change (fileid r ++ "," ++ hash r ++ "-" ++ rest r)
    with (fileid r ++ String "," (hash r ++ String "-" (rest r))).
  split; rewrite free_of_app; cbn [free_of]; rewrite free_of_app; cbn [free_of].
  - now rewrite Hid1, Hhash1, Hrest1.
  - now rewrite Hid2, Hhash2, Hrest2.
Qed.

Lemma load_entries platform entries students :
  known platform ->
  Forall well_formed (omap id entries) ->
  NoDup (map hash (omap id entries)) ->
  exists students',
    load_rows platform (map line_of entries) students = Ok students' /\
    (forall r, Some r ∈ entries ->
      exists url,
        url_of platform (fileid r) (row_name r) = Ok url /\
        lookup_entry students' (hash r)
        = Some {| fileName := row_name r; fileUrl := url |}) /\
    (forall version,
        (forall r, Some r ∈ entries -> hash r <> version) ->
        lookup_entry students' version = lookup_entry students version).
Proof.
  intros Hknown. revert students.
  induction entries as [|[r|] entries IH]; intros students Hwf Hnd.
  - exists students. split; [reflexivity|]. split; [|reflexivity].
    intros r Hr. now apply elem_of_nil in Hr.
  - cbn [omap option_bind id] in Hwf, Hnd.
    change (omap id (Some r :: entries)) with (r :: omap id entries) in Hwf, Hnd.
    apply Forall_cons in Hwf as [Hr Hwf]. cbn [map] in Hnd.
    apply NoDup_cons in Hnd as [Hfresh Hnd].
    destruct (proj2 (url_of_known platform (fileid r) (row_name r)) Hknown) as [url Hurl].
    destruct (IH (store students (hash r) {| fileName := row_name r; fileUrl := url |})
        Hwf Hnd) as (students' & Hload & Hfound & Hother).
    exists students'. cbn [map line_of load_rows].
    rewrite (file_row_of_row platform r Hr), Hurl. split; [exact Hload|]. split.
    + intros r' Hr'. apply elem_of_cons in Hr' as [[= ->]|Hr']; [|now apply Hfound].
      exists url. split; [exact Hurl|]. rewrite Hother.
      * apply lookup_store_eq.
      * intros r'' Hr'' Heq. apply Hfresh. rewrite <- Heq.
        apply list_elem_of_fmap. exists r''. split; [reflexivity|].
        apply list_elem_of_omap. exists (Some r''). now split.
    + intros version Hversion. rewrite Hother.
      * apply lookup_store_ne. apply Hversion. left.
      * intros r' Hr'. apply Hversion. now right.
  - change (omap id (None :: entries)) with (omap id entries) in Hwf, Hnd.
    destruct (IH students Hwf Hnd) as (students' & Hload & Hfound & Hother).
    exists students'. split; [exact Hload|]. split.
    + intros r Hr. apply elem_of_cons in Hr as [[=]|Hr]. now apply Hfound.
    + intros version Hversion. apply Hother. intros r Hr. apply Hversion. now right.
Qed.

(** X10. From a file whose lines are rows of the form
    [<file id>,<hash>-<rest of the file name>], possibly with empty lines
    among them, ended by line feeds or by carriage return and line feed,
    the table is loaded without error and is keyed by the hashes: every row
    is found under its hash, with the whole file name and the URL that the
    platform makes of the row (the file id itself on Canvas), and nothing is
    found under any other key.  The zip files of the versions are named in
    this form. *)
Theorem listed_files_are_found_by_hash file eol entries platform :
  eol = newline \/ eol = String CR newline ->
  readFileSync file = Ok (String.concat eol (map line_of entries)) ->
  Forall well_formed (omap id entries) ->
  NoDup (map hash (omap id entries)) ->
  known platform ->
  exists students,
    loadStudentFilesUrls file platform = Ok students /\
    (forall r, Some r ∈ entries ->
      exists url,
        url_of platform (fileid r) (row_name r) = Ok url /\
        (platform = VStr "Canvas" -> url = fileid r) /\
        lookup_entry students (hash r)
        = Some {| fileName := row_name r; fileUrl := url |}) /\
    (forall version,
        (forall r, Some r ∈ entries -> hash r <> version) ->
        lookup_entry students version = None).
Proof.
  intros Heol Hread Hwf Hnd Hknown.
  unfold FileUrls.loadStudentFilesUrls. rewrite Hread.
  assert (Hlines : Forall (fun line => free_of LF line = true /\ free_of CR line = true)
      (map line_of entries)).
  { apply Forall_forall. intros line Hline.
    apply list_elem_of_fmap in Hline as ([r|] & -> & Hin); [|now split].
    apply row_line_plain. rewrite Forall_forall in Hwf. apply Hwf.
    apply list_elem_of_omap. exists (Some r). now split. }
  rewrite (split_lines_concat eol _ Heol Hlines).
  destruct (load_entries platform entries [] Hknown Hwf Hnd)
    as (students & Hload & Hfound & Hother).
  exists students. split; [|split].
  - destruct entries as [|entry entries]; [|exact Hload].
    simpl in Hload. injection Hload as <-. reflexivity.
  - intros r Hr. destruct (Hfound r Hr) as (url & Hurl & Hlook).
    exists url. split; [exact Hurl|]. split; [|exact Hlook].
    intros ->. simpl in Hurl. congruence.
  - intros version Hversion. now rewrite Hother.
Qed.

End Files.

Lemma loading_fails_on_a_short_line_or_unknown_platform_witness :
  (exists msg,
      loadStudentFilesUrls FileExamples.readFileSync "inOutFiles/TestFiles.csv"
        (VStr "Dropbox") = Throw msg) /\
  loadStudentFilesUrls FileExamples.readFileSync "inOutFiles/Empty.csv" (VStr "Dropbox")
  = Ok [].
Proof.
  split.
  - apply (proj1 (loading_fails_on_a_short_line_or_unknown_platform
        FileExamples.readFileSync "inOutFiles/TestFiles.csv" FileExamples.table
        (VStr "Dropbox") eq_refl)).
    exists "https://canvas/files/1/download,iG6Zp4WDF-game-a.zip".
    split; [left|]. split; [discriminate|]. right.
    intros [H|[H|H]]; discriminate H.
  - apply (proj2 (loading_fails_on_a_short_line_or_unknown_platform
        FileExamples.readFileSync "inOutFiles/Empty.csv" FileExamples.blank
        (VStr "Dropbox") eq_refl)).
    repeat constructor.
Defined.

Lemma listed_files_are_found_by_hash_witness :
  exists students,
    loadStudentFilesUrls FileExamples.readFileSync "inOutFiles/TestFiles.csv"
      (VStr "Canvas") = Ok students /\
    lookup_entry students "Z8lZJChRtn"
    = Some {| fileName := "Z8lZJChRtn-game-b.zip";
        fileUrl := "https://canvas/files/2/download" |} /\
    lookup_entry students "F29R1ibztX" = None.
Proof.
  destruct (listed_files_are_found_by_hash FileExamples.readFileSync
      "inOutFiles/TestFiles.csv" (String CR newline) FileExamples.rows (VStr "Canvas"))
    as (students & Hload & Hfound & Hother).
  - right. reflexivity.
  - reflexivity.
  - repeat constructor; discriminate.
  - change (NoDup ["iG6Zp4WDF"; "Z8lZJChRtn"]).
    apply NoDup_cons_2; [|apply NoDup_singleton].
    intros H. apply list_elem_of_singleton in H. discriminate H.
  - left. reflexivity.
  - exists students. split; [exact Hload|]. split.
    + destruct (Hfound (TableRow "https://canvas/files/2/download" "Z8lZJChRtn" "game-b.zip"))
        as (url & _ & Hurl & Hrow).
      { right. right. left. }
      rewrite (Hurl eq_refl) in Hrow. exact Hrow.
    + apply Hother. intros r Hr.
      repeat (apply elem_of_cons in Hr as [Hr|Hr];
        [try discriminate Hr; injection Hr as ->; discriminate|]).
      now apply elem_of_nil in Hr.
Defined.

End FileUrlsLaws.

(** ** Further properties of the Canvas helper module *)

Module CanvasUtilLaws.
Import Js CanvasUtil FileUrls Observed.

(** *** The URL returned by [nextURL] *)

Lemma split_fields_free sep s :
  Forall (fun part => free_of sep part = true) (split sep s).
Proof.
  induction s as [|c s IH]; cbn [split]; [now repeat constructor|].
  destruct (Ascii.eqb c sep) eqn:Hc; [now constructor|].
  destruct (split sep s) as [|first others].
  - repeat constructor. cbn [free_of]. now rewrite Hc.
  - apply Forall_cons in IH as [Hfirst Hothers]. constructor; [|exact Hothers].
    cbn [free_of]. now rewrite Hc, Hfirst.
Qed.

Lemma free_of_trimStart c s : free_of c s = true -> free_of c (trimStart s) = true.
Proof.
  induction s as [|x s IH]; [reflexivity|]. cbn [trimStart].
  destruct (is_space x); [|auto]. cbn [free_of]. intros H.
  apply andb_true_iff in H as [_ H]. auto.
Qed.

Lemma free_of_trimEnd c s : free_of c s = true -> free_of c (trimEnd s) = true.
Proof.
  induction s as [|x s IH]; [reflexivity|]. cbn [trimEnd free_of]. intros H.
  apply andb_true_iff in H as [Hx H]. specialize (IH H).
  destruct (trimEnd s) as [|y kept].
  - destruct (is_space x); [reflexivity|]. cbn [free_of]. now rewrite Hx.
  - cbn [free_of] in *. now rewrite Hx, IH.
Qed.

Lemma first_next_sound links url :
  first_next links = Some url ->
  exists link, link ∈ links /\ has_next_form (trim link) url.
Proof.
  induction links as [|link links IH]; [discriminate|]. cbn [first_next].
  destruct (nextRegEx_exec (trim link)) as [u|] eqn:Hexec.
  - intros [= ->]. exists link. split; [left|].
    now apply CanvasUtilProofs.nextRegEx_exec_spec.
  - intros H. destruct (IH H) as (l & Hin & Hform). exists l. split; [now right | exact Hform].
Qed.

(** X11. A URL returned by [nextURL] is the one between the angle
    brackets of an entry of the header that has the exact form
    [<URL>; rel="next"] once trimmed; it never holds a comma or a line
    terminator, so a next link whose URL holds a comma is not followed.  A
    header that is neither a string nor falsy makes [nextURL] throw. *)
Theorem nextURL_returns_a_url_of_the_header :
  (forall linkText url,
      nextURL (VStr linkText) = Ok (Some url) ->
      exists entry,
        entry ∈ split "," linkText /\ has_next_form (trim entry) url /\
        free_of "," url = true /\ all_dot url = true) /\
  (forall linkText,
      truthy linkText = true -> (forall s, linkText <> VStr s) ->
      exists msg, nextURL linkText = Throw msg).
Proof.
  split.
  - intros linkText url. unfold nextURL.
    destruct (truthy (VStr linkText)); [|discriminate]. intros [= Hfirst].
    destruct (first_next_sound _ _ Hfirst) as (entry & Hin & Hform).
    exists entry. split; [exact Hin|]. split; [exact Hform|].
    destruct Hform as [Hentry Hdot]. split; [|exact Hdot].
    pose proof (split_fields_free "," linkText) as Hfree.
    rewrite Forall_forall in Hfree. specialize (Hfree entry Hin).
    apply free_of_trimStart, free_of_trimEnd in Hfree.
    fold (trim entry) in Hfree. rewrite Hentry in Hfree.
    change ("<" ++ url ++ ">; rel=" ++ quoted "next")
      with (String "<" (url ++ ">; rel=" ++ quoted "next")) in Hfree.
    cbn [free_of] in Hfree. apply andb_true_iff in Hfree as [_ Hfree].
    rewrite FileUrlsLaws.free_of_app in Hfree.
    now apply andb_true_iff in Hfree as [Hfree _].
  - intros linkText Htruthy Hstring. unfold nextURL. rewrite Htruthy.
    destruct linkText; eauto. now destruct (Hstring s).
Qed.

(** *** The messages of [checkTruthy] *)

Lemma reported_addError result msg :
  reported (addError result msg) = (reported result ++ [msg])%list.
Proof. unfold reported, addError. now destruct (errors result). Qed.

Lemma sound_addError result msg : sound (addError result msg).
Proof.
  unfold sound, addError. destruct (errors result) as [[|m ms]|]; discriminate.
Qed.

Lemma check_answers_fold auid entry result :
  check_answers auid entry result = fold_left (check_key auid entry) (keys entry) result.
Proof. reflexivity. Qed.

Lemma check_key_reported auid entry result key :
  reported (check_key auid entry result key)
  = (reported result ++ reported (check_key auid entry {| errors := None |} key))%list /\
  (sound result -> sound (check_key auid entry result key)) /\
  Forall (fun msg => exists text, msg = auid ++ text)
  (reported (check_key auid entry {| errors := None |} key)).
Proof.
  unfold check_key.
  destruct (ends_with_q key);
    [destruct (missing_answer (get entry (replace_last_with_a key)))|]; cbv zeta.
  - split; [now rewrite reported_addError|]. split; [intros _; apply sound_addError|].
    repeat constructor. eauto.
  - split; [now rewrite app_nil_r|]. split; [auto | constructor].
  - split; [now rewrite app_nil_r|]. split; [auto | constructor].
Qed.

Lemma check_keys_reported auid entry ks result :
  reported (fold_left (check_key auid entry) ks result)
  = (reported result
    ++ reported (fold_left (check_key auid entry) ks {| errors := None |}))%list /\
  (sound result -> sound (fold_left (check_key auid entry) ks result)) /\
  Forall (fun msg => exists text, msg = auid ++ text)
  (reported (fold_left (check_key auid entry) ks {| errors := None |})).
Proof.
  revert result. induction ks as [|key ks IH]; intros result.
  - simpl. split; [now rewrite app_nil_r|]. split; [auto | constructor].
  - cbn [fold_left].
    destruct (check_key_reported auid entry result key) as (Hkey & Hsound & Hfrom).
    destruct (IH (check_key auid entry result key)) as (Hrest & Hsound' & _).
    destruct (IH (check_key auid entry {| errors := None |} key)) as (Hrest0 & _ & Hfrom').
    split; [|split].
    + rewrite Hrest, Hkey, Hrest0, <- app_assoc. reflexivity.
    + auto.
    + rewrite Hrest0. apply Forall_app. split; [exact Hfrom | exact Hfrom'].
Qed.

Lemma check_entry_reported auid entry result :
  reported (check_entry auid entry result)
  = (reported result ++ reported (check_entry auid entry {| errors := None |}))%list /\
  (sound result -> sound (check_entry auid entry result)) /\
  Forall (fun msg => exists text, msg = auid ++ text)
  (reported (check_entry auid entry {| errors := None |})).
Proof.
  unfold check_entry. rewrite !check_answers_fold.
  destruct (check_keys_reported auid entry (keys entry) result) as (Hkeys & Hsound & Hfrom).
  destruct (negb (truthy (get entry "fileName") && truthy (get entry "fileUrl"))).
  - rewrite !reported_addError, Hkeys, <- app_assoc.
    split; [reflexivity|]. split; [intros _; apply sound_addError|].
    apply Forall_app. split; [exact Hfrom|]. repeat constructor. eauto.
  - split; [exact Hkeys|]. split; [exact Hsound | exact Hfrom].
Qed.

Lemma check_entries_reported QaObject result :
  reported (fold_left (fun res '(auid, entry) => check_entry auid entry res)
    QaObject result)
  = (reported result ++ reported (checkTruthy QaObject))%list /\
  (sound result ->
    sound (fold_left (fun res '(auid, entry) => check_entry auid entry res)
      QaObject result)) /\
  Forall (fun msg => exists auid entry text, (auid, entry) ∈ QaObject /\ msg = auid ++ text)
  (reported (checkTruthy QaObject)).
Proof.
  unfold checkTruthy. revert result.
  induction QaObject as [|[auid entry] rest IH]; intros result.
  - simpl. split; [now rewrite app_nil_r|]. split; [auto | constructor].
  - cbn [fold_left].
    destruct (check_entry_reported auid entry result) as (Hentry & Hsound & Hfrom).
    destruct (IH (check_entry auid entry result)) as (Hrest & Hsound' & _).
    destruct (IH (check_entry auid entry {| errors := None |})) as (Hrest0 & _ & Hfrom').
    split; [|split].
    + rewrite Hrest, Hentry, Hrest0, <- app_assoc. reflexivity.
    + auto.
    + rewrite Hrest0. apply Forall_app. split.
      * eapply Forall_impl; [exact Hfrom|]. intros msg [text ->].
        exists auid, entry, text. split; [left | reflexivity].
      * eapply Forall_impl; [exact Hfrom'|]. intros msg (a & e & text & Hin & ->).
        exists a, e, text. split; [now right | reflexivity].
Qed.

(** X12. [checkTruthy] collects the messages of all entries, in the order
    of the entries: the messages for two objects put together are those of
    the first followed by those of the second.  Every message starts with
    the key of an entry of the object, and the returned object has no
    [errors] property exactly when there is no message. *)
Theorem checkTruthy_collects_the_errors_of_all_entries QaObject more :
  reported (checkTruthy (QaObject ++ more)%list)
  = (reported (checkTruthy QaObject) ++ reported (checkTruthy more))%list /\
  Forall (fun msg => exists auid entry text, (auid, entry) ∈ QaObject /\ msg = auid ++ text)
  (reported (checkTruthy QaObject)) /\
  (errors (checkTruthy QaObject) = None <-> reported (checkTruthy QaObject) = []).
Proof.
  split; [|split].
  - unfold checkTruthy at 1. rewrite fold_left_app.
    fold (checkTruthy QaObject).
    now destruct (check_entries_reported more (checkTruthy QaObject)) as (-> & _).
  - now destruct (check_entries_reported QaObject {| errors := None |}) as (_ & _ & H).
  - destruct (check_entries_reported QaObject {| errors := None |}) as (_ & Hsound & _).
    specialize (Hsound ltac:(discriminate)). fold (checkTruthy QaObject) in Hsound.
    unfold reported, sound in *.
    destruct (errors (checkTruthy QaObject)) as [[|m ms]|]; split; congruence.
Qed.

End CanvasUtilLaws.

(** ** Further properties of the quiz-creation script *)

Module CreateTestLaws.
Import Js CanvasUtil CreateTest Observed.

(** *** Merging the file-URL table *)

Lemma lookup_merge_all qaFile urls version :
  lookup_entry (merge_all qaFile urls) version
  = match lookup_entry qaFile version with
    | Some entry => Some (merge_files entry (lookup_entry urls version))
    | None => None
    end.
Proof.
  unfold merge_all. induction qaFile as [|[k e] qaFile IH]; [reflexivity|].
  simpl. destruct (String.eqb_spec k version) as [->|Hne]; [reflexivity | exact IH].
Qed.

(** X13. Merging the file-URL table into the QA object keeps the versions
    and their order, and keeps every field of every version but
    [fileName] and [fileUrl]; these two become those of the version's row
    in the table, and a version without a row is left as it is. *)
Theorem merging_adds_only_the_file_fields qaFile studentsFileUrls :
  keys (merge_all qaFile studentsFileUrls) = keys qaFile /\
  forall version entry,
    lookup_entry qaFile version = Some entry ->
    exists merged,
      lookup_entry (merge_all qaFile studentsFileUrls) version = Some merged /\
      (forall key, key <> "fileName" -> key <> "fileUrl" -> get merged key = get entry key) /\
      match lookup_entry studentsFileUrls version with
      | Some row =>
        get merged "fileName" = VStr (fileName row) /\
        get merged "fileUrl" = VStr (fileUrl row)
      | None => merged = entry
      end.
Proof.
  split.
  - unfold merge_all, keys. rewrite map_map. apply map_ext. now intros [version s].
  - intros version entry Hentry. rewrite lookup_merge_all, Hentry.
    eexists. split; [reflexivity|]. split.
    + intros key Hname Hurl. unfold merge_files.
      destruct (lookup_entry studentsFileUrls version) as [row|]; [|reflexivity].
      rewrite !CreateTestProofs.get_set_ne by congruence. reflexivity.
    + destruct (lookup_entry studentsFileUrls version) as [row|]; [|reflexivity].
      apply CreateTestProofs.merge_files_adds_file_fields.
Qed.

(** *** Students with a decimal SIS id *)

Lemma HASHES_NoDup : NoDup HASHES.
Proof.
  unfold HASHES, Hash.HASHES. repeat constructor;
    rewrite ?elem_of_cons, ?elem_of_nil; intros H;
    repeat (destruct H as [H|H]; [discriminate H|]); exact H.
Qed.

Lemma version_of_decimal props n :
  (0 <= n < 2 ^ 53)%Z ->
  get props "sis_user_id" = VStr (string_of_Z n) \/ get props "sis_user_id" = VNum n ->
  parseInt (get props "sis_user_id") = Some n /\
  version_of (VObj props) = HASHES !! Z.to_nat (n mod NUM_VERSIONS).
Proof.
  intros Hn Hid.
  assert (Hparse : parseInt (get props "sis_user_id") = Some n).
  { destruct Hid as [-> | ->];
      [apply ParseIntLaws.parseInt_string_of_Z | apply ParseIntLaws.parseInt_number]. }
  split; [exact Hparse|]. unfold version_of, remainder. cbn [prop].
  rewrite Hparse, CreateTestProofs.nearest_double_exact by lia.
  unfold at_index. rewrite Z.rem_mod_nonneg by (unfold NUM_VERSIONS; lia).
  assert (Hr : (0 <= n mod NUM_VERSIONS)%Z)
    by (apply Z.mod_pos_bound; unfold NUM_VERSIONS; lia).
  now destruct (Z.ltb_spec (n mod NUM_VERSIONS) 0); [lia|].
Qed.

(** X14. A student whose SIS id is the natural number [n] below 2^53,
    given as a number or as its decimal text, is assigned to the version
    [HASHES[n mod NUM_VERSIONS]]: the Canvas id of the student is added
    to the ids of that version, and the ids of the other versions stay as
    they are.  Two such students get the same version exactly when their
    SIS ids leave the same remainder modulo [NUM_VERSIONS]; from 2^53 on
    it is the number read, not the integer written, that decides. *)
Theorem decimal_sis_id_selects_the_version (props : object) n qa :
  (0 <= n < 2 ^ 53)%Z ->
  get props "sis_user_id" = VStr (string_of_Z n) \/ get props "sis_user_id" = VNum n ->
  ready qa ->
  (exists version qa',
      HASHES !! Z.to_nat (n mod NUM_VERSIONS) = Some version /\
      assignStudent (VObj props) qa = Ok qa' /\
      ids_of qa' version = (ids_of qa version ++ [get props "id"])%list /\
      (forall other, other <> version -> ids_of qa' other = ids_of qa other)) /\
  (forall (props' : object) m,
      (0 <= m < 2 ^ 53)%Z ->
      get props' "sis_user_id" = VStr (string_of_Z m) \/ get props' "sis_user_id" = VNum m ->
      (version_of (VObj props) = version_of (VObj props')
        <-> (n mod NUM_VERSIONS = m mod NUM_VERSIONS)%Z)).
Proof.
  intros Hn Hid Hready.
  destruct (version_of_decimal props n Hn Hid) as [Hparse Hversion].
  split.
  - destruct (CreateTestProofs.assignStudent_numbered (VObj props) qa Hready)
      as (version & qa' & Hv & _ & Hrun & _ & _ & Hown & Hother).
    { exists props, n, n. repeat split; try assumption; [|lia].
      apply CreateTestProofs.nearest_double_exact. lia. }
    exists version, qa'. rewrite <- Hversion. repeat split; assumption.
  - intros props' m Hm Hid'.
    destruct (version_of_decimal props' m Hm Hid') as [_ Hversion'].
    rewrite Hversion, Hversion'. unfold NUM_VERSIONS.
    assert (Hr : (0 <= n mod 3 < 3)%Z) by (apply Z.mod_pos_bound; lia).
    assert (Hr' : (0 <= m mod 3 < 3)%Z) by (apply Z.mod_pos_bound; lia).
    split; [|now intros ->].
    intros Heq.
    destruct (lookup_lt_is_Some_2 HASHES (Z.to_nat (n mod 3))) as [v Hv];
      [simpl; lia|].
    rewrite Hv in Heq. symmetry in Heq.
    pose proof (NoDup_lookup _ _ _ _ HASHES_NoDup Hv Heq). lia.
Qed.

Lemma decimal_sis_id_selects_the_version_witness :
  exists qa',
    assignStudent (Examples.student 12 (VStr "101")) Examples.qa = Ok qa' /\
    ids_of qa' "F29R1ibztX" = [VNum 12].
Proof.
  destruct (decimal_sis_id_selects_the_version
      [("id", VNum 12); ("name", VStr "A Student"); ("sis_user_id", VStr "101")]
      101 Examples.qa) as [(version & qa' & Hv & Hrun & Hown & _) _].
  - lia.
  - left. reflexivity.
  - exact CreateTestProofs.ready_examples_qa.
  - injection Hv as <-. exists qa'. split; [exact Hrun|]. rewrite Hown. reflexivity.
Defined.

End CreateTestLaws.

(** ** The requests of the quiz-creation script *)

Module CreateTestRuns.
Import Js CanvasUtil CreateTest Observed.

(** Every constructed argument object has the standard headers. *)
Lemma construct_headers call args :
  construct call util = Ok args -> headers args = standard_header.
Proof.
  destruct (CanvasUtilProofs.construct_with_header call util) as [d ->].
  intros [= <-]. reflexivity.
Qed.

Lemma sends_ret {A} (a : A) (Q : A -> Prop) : Q a -> sends_properly (ret a) Q.
Proof. intros Hq st Hst. split; [exact Hst|]. now intros b st' [= <- _]. Qed.

Lemma sends_bind {A B} (m : action A) (k : A -> action B) Q R :
  sends_properly m Q -> (forall a, Q a -> sends_properly (k a) R) ->
  sends_properly (m ≫= k) R.
Proof.
  intros Hm Hk st Hst. unfold mbind, action_bind, bind.
  destruct (Hm st Hst) as [Htrace Hvalue].
  destruct (m st) as [a st1|st1|st1]; [|split; [exact Htrace | discriminate]..].
  apply (Hk a (Hvalue a st1 eq_refl) st1 Htrace).
Qed.

Lemma sends_event {A} (e : event) (r : state -> run A) (Q : A -> Prop) :
  proper e ->
  (forall st, exists st', state_of (r st) = st' /\ trace st' = (trace st ++ [e])%list) ->
  (forall st a st', r st = Continue a st' -> Q a) ->
  sends_properly r Q.
Proof.
  intros He Hr Hq st Hst. destruct (Hr st) as (st' & -> & ->).
  split; [|eauto]. apply Forall_app. split; [exact Hst | now repeat constructor].
Qed.

Lemma sends_emit e : proper e -> sends_properly (emit e) (fun _ => True).
Proof.
  intros He. apply (sends_event e); [exact He | | auto].
  intros st. eexists. split; reflexivity.
Qed.

Lemma sends_crash {A} msg (Q : A -> Prop) : sends_properly (crash msg) Q.
Proof.
  apply (sends_event (Uncaught msg)); [exact I | | discriminate].
  intros st. eexists. split; reflexivity.
Qed.

Lemma sends_exit {A} (Q : A -> Prop) : sends_properly exit Q.
Proof.
  apply (sends_event ProcessExit); [exact I | | discriminate].
  intros st. eexists. split; reflexivity.
Qed.

Lemma sends_try {A} (r : result A) (Q : A -> Prop) :
  (forall a, r = Ok a -> Q a) -> sends_properly (try r) Q.
Proof. destruct r; intros Hq; [apply sends_ret; auto | apply sends_crash]. Qed.

Lemma sends_push line : sends_properly (push_quizIds line) (fun _ => True).
Proof. intros st Hst. split; [exact Hst | auto]. Qed.

Lemma sends_each {A} (f : A -> action unit) items :
  (forall item, sends_properly (f item) (fun _ => True)) ->
  sends_properly (each f items) (fun _ => True).
Proof.
  intros Hf. induction items as [|item items IH]; simpl.
  - now apply sends_ret.
  - eapply sends_bind; [apply Hf | intros _ _; exact IH].
Qed.

Lemma sends_forEach_assign data : sends_properly (forEach_assign data) (fun _ => True).
Proof.
  intros st Hst. unfold forEach_assign.
  destruct data; try (apply (sends_crash _ _ st Hst)).
  destruct (assignStudents items (studentsQA st)); [now split|].
  apply (sends_crash _ _ st Hst).
Qed.

Lemma prefix_course_api rest : String.prefix course_api (course_api ++ rest) = true.
Proof. apply QaGenLaws.prefix_spec. now exists rest. Qed.

Section Process.

Variables START_DATE LOCK_AND_DUE_DATE : string.
Variable server : list event -> value * response.

Local Abbreviation request := (request server).
Local Abbreviation addOverride := (addOverride START_DATE LOCK_AND_DUE_DATE server).
Local Abbreviation createQuiz := (createQuiz START_DATE LOCK_AND_DUE_DATE server).
Local Abbreviation createQuizzes_over :=
  (createQuizzes_over START_DATE LOCK_AND_DUE_DATE server).
Local Abbreviation createQuizzes := (createQuizzes START_DATE LOCK_AND_DUE_DATE server).
Local Abbreviation getCanvasUserIds :=
  (getCanvasUserIds START_DATE LOCK_AND_DUE_DATE server).
Local Abbreviation main := (main START_DATE LOCK_AND_DUE_DATE server).

Lemma sends_request e : proper e -> sends_properly (request e) (fun _ => True).
Proof.
  intros He. apply (sends_event e); [exact He | | auto].
  intros st. eexists. split; reflexivity.
Qed.

(** A request built from a constructor call and sent to the course. *)
Lemma sends_post call url :
  String.prefix course_api url = true ->
  sends_properly (args ← try (construct call util); _ ← request (HttpPost url args); ret tt)
  (fun _ => True).
Proof.
  intros Hurl. eapply sends_bind.
  - apply (sends_try _ (fun args => headers args = standard_header)).
    apply construct_headers.
  - intros args Hargs. eapply sends_bind; [apply sends_request; now split|].
    intros _ _. now apply sends_ret.
Qed.

Lemma sends_addQuestion quizId entry i :
  sends_properly
  (addQuestion server
    (DOMAIN ++ "/api/v1/courses/" ++ string_of_Z COURSE_ID ++ "/quizzes/"
      ++ to_string quizId ++ "/questions") entry i) (fun _ => True).
Proof.
  unfold addQuestion.
  destruct (get entry ("q" ++ Q_PREFIX ++ string_of_Z (Z.of_nat i) ++ "q"));
    try apply sends_crash.
  apply (sends_post (NewQuestionArgs _ _ _ _ _)).
  apply (prefix_course_api ("quizzes/" ++ to_string quizId ++ "/questions")).
Qed.

Lemma sends_addOverride version assignmentId canvasStudentIds :
  sends_properly (addOverride version assignmentId canvasStudentIds) (fun _ => True).
Proof.
  unfold CreateTest.addOverride. eapply sends_bind.
  - apply (sends_try _ (fun args => headers args = standard_header)).
    apply (construct_headers (NewOverrideArgs _ _ _)).
  - intros args Hargs. eapply sends_bind.
    + apply sends_request. split; [exact Hargs|].
      apply (prefix_course_api ("assignments/" ++ to_string assignmentId ++ "/overrides")).
    + intros reply _. destruct (statusCode reply.2 =? 201)%Z;
        [now apply sends_ret | now apply sends_emit].
Qed.

Lemma sends_publishQuiz quizId :
  sends_properly (publishQuiz server quizId) (fun _ => True).
Proof.
  unfold publishQuiz. eapply sends_bind.
  - apply (sends_try _ (fun args => headers args = standard_header)).
    apply (construct_headers NewPublishQuizArgs).
  - intros args Hargs. eapply sends_bind.
    + apply sends_request. split; [exact Hargs|].
      apply (prefix_course_api ("quizzes/" ++ to_string quizId)).
    + intros _ _. now apply sends_ret.
Qed.

Lemma sends_createQuiz version : sends_properly (createQuiz version) (fun _ => True).
Proof.
  intros st Hst. unfold CreateTest.createQuiz.
  destruct (lookup_entry (studentsQA st) version) as [entry|];
    [|apply (sends_crash _ _ st Hst)].
  revert st Hst. apply (fun H : sends_properly _ (fun _ : unit => True) => H).
  eapply sends_bind.
  { apply (sends_try _ (fun args => headers args = standard_header)).
    apply (construct_headers (NewQuizArgs _ _ _ _ _ _)). }
  intros quizArgs Hargs. eapply sends_bind; [now apply sends_emit|]. intros _ _.
  eapply sends_bind.
  { apply sends_request. split; [exact Hargs|]. apply (prefix_course_api "quizzes"). }
  intros reply _. destruct (negb (statusCode reply.2 =? 200)%Z); [now apply sends_emit|].
  eapply sends_bind; [apply (sends_try _ (fun _ => True)); auto|]. intros quizId _.
  eapply sends_bind; [apply (sends_try _ (fun _ => True)); auto|]. intros assignmentId _.
  destruct (get entry "id"); try apply sends_crash.
  eapply sends_bind; [apply sends_push|]. intros _ _.
  eapply sends_bind.
  { unfold addQuestions. apply sends_each. intros i. apply sends_addQuestion. }
  intros _ _. eapply sends_bind; [apply sends_addOverride|]. intros _ _.
  apply sends_publishQuiz.
Qed.

Lemma sends_createQuizzes : sends_properly createQuizzes (fun _ => True).
Proof.
  intros st Hst. unfold CreateTest.createQuizzes.
  assert (Hover : forall versions,
      sends_properly (createQuizzes_over versions) (fun _ : unit => True));
    [|exact (Hover _ st Hst)].
  intros versions. unfold CreateTest.createQuizzes_over.
  eapply sends_bind; [apply sends_each; intros version; apply sends_createQuiz|].
  intros _ _. eapply sends_bind; [now apply sends_emit|]. intros _ _. apply sends_exit.
Qed.

Lemma sends_getCanvasUserIds pages url :
  sends_properly (getCanvasUserIds pages url) (fun _ => True).
Proof.
  revert url. induction pages as [|pages IH]; intros url.
  - intros st Hst. split; [exact Hst | discriminate].
  - cbn [CreateTest.getCanvasUserIds]. eapply sends_bind.
    { apply (sends_try _ (fun args => headers args = standard_header)).
      apply (construct_headers StandardArgs). }
    intros args Hargs. eapply sends_bind; [apply sends_request; exact Hargs|].
    intros reply _. eapply sends_bind; [apply sends_forEach_assign|]. intros _ _.
    eapply sends_bind; [apply (sends_try _ (fun _ => True)); auto|]. intros [next|] _.
    + destruct (negb (String.eqb next "")); [apply IH | apply sends_createQuizzes].
    + apply sends_createQuizzes.
Qed.

(** X15. Whatever the server answers, every request that the script
    sends carries the two standard headers, with the bearer token given
    to [util.init], and every request that creates or changes something (a
    POST or a PUT) goes to the API of the configured course under
    [DOMAIN]; only the GET requests of the user listing go where the
    links returned by the server lead. *)
Theorem every_request_is_authorized_and_stays_in_the_course pages qaFile studentsFileUrls :
  Forall proper (trace (state_of (main pages qaFile studentsFileUrls))).
Proof.
  unfold CreateTest.main.
  destruct (errors (checkTruthy _)) as [reported|].
  - repeat constructor.
  - apply sends_getCanvasUserIds. constructor.
Qed.

(** *** A quiz that is created *)

Lemma requests_snoc events e :
  requests (events ++ [e]) = (requests events ++ requests [e])%list.
Proof. apply omap_app. Qed.

Lemma addQuestion_posts url entry i text st :
  get entry ("q" ++ Q_PREFIX ++ string_of_Z (Z.of_nat i) ++ "q") = VStr text ->
  exists args,
    addQuestion server url entry i st = Continue tt (record_event (HttpPost url args) st).
Proof. intros Htext. unfold addQuestion. rewrite Htext. eexists. reflexivity. Qed.

Lemma addQuestions_posts quizId entry st :
  Forall (fun key => exists text, get entry key = VStr text) ["q1q"; "q2q"; "q3q"; "q4q"] ->
  exists st',
    addQuestions server quizId entry st = Continue tt st' /\
    requests (trace st')
    = (requests (trace st)
      ++ replicate 4 ("POST", questions_url quizId))%list /\
    studentsQA st' = studentsQA st /\ quizIds st' = quizIds st.
Proof.
  intros Htexts.
  apply Forall_cons in Htexts as [[t1 H1] Htexts].
  apply Forall_cons in Htexts as [[t2 H2] Htexts].
  apply Forall_cons in Htexts as [[t3 H3] Htexts].
  apply Forall_cons in Htexts as [[t4 H4] _].
  unfold addQuestions, STARTING_Q_NUMBER, NUMBER_OF_QUESTIONS_PER_QUIZ. cbn [seq each].
  set (url := DOMAIN ++ "/api/v1/courses/" ++ string_of_Z COURSE_ID ++ "/quizzes/"
      ++ to_string quizId ++ "/questions").
  unfold mbind, action_bind, bind.
  destruct (addQuestion_posts url entry 1 t1 st H1) as [a1 ->].
  destruct (addQuestion_posts url entry 2 t2 (record_event (HttpPost url a1) st) H2)
    as [a2 ->].
  destruct (addQuestion_posts url entry 3 t3
      (record_event (HttpPost url a2) (record_event (HttpPost url a1) st)) H3) as [a3 ->].
  destruct (addQuestion_posts url entry 4 t4
      (record_event (HttpPost url a3)
        (record_event (HttpPost url a2) (record_event (HttpPost url a1) st))) H4)
    as [a4 ->].
  eexists. split; [reflexivity|]. cbn [record_event trace studentsQA quizIds].
  split; [|split; reflexivity].
  rewrite !requests_snoc, <- !app_assoc. reflexivity.
Qed.

Lemma addOverride_posts version assignmentId canvasStudentIds st :
  exists overrideArgs st',
    newOverrideArgs (VStr START_DATE) (VStr LOCK_AND_DUE_DATE) canvasStudentIds util
    = Ok overrideArgs /\
    addOverride version assignmentId canvasStudentIds st = Continue tt st' /\
    HttpPost (overrides_url assignmentId)
      overrideArgs ∈ trace st' /\
    requests (trace st')
    = (requests (trace st)
      ++ [("POST", overrides_url assignmentId)])%list /\
    studentsQA st' = studentsQA st /\ quizIds st' = quizIds st.
Proof.
  eexists. unfold CreateTest.addOverride, mbind, action_bind, bind.
  cbn [try newOverrideArgs with_header getStandardHeader util init initialized negb ret
    request record_event trace studentsQA quizIds].
  destruct (statusCode _ =? 201)%Z.
  - eexists. split; [reflexivity|]. split; [reflexivity|].
    cbn [trace studentsQA quizIds]. split; [|split; [|split; reflexivity]].
    + apply elem_of_app. right. left.
    + unfold record_event. cbn [trace]. rewrite requests_snoc. reflexivity.
  - eexists. split; [reflexivity|]. split; [reflexivity|].
    unfold emit, record_event. cbn [state_of trace studentsQA quizIds].
    split; [|split; [|split; reflexivity]].
    + apply elem_of_app. left. apply elem_of_app. right. left.
    + rewrite !requests_snoc. cbn [requests omap request_line].
      rewrite app_nil_r. reflexivity.
Qed.

Lemma publishQuiz_puts quizId st :
  exists st' args,
    publishQuiz server quizId st = Continue tt st' /\
    trace st' = (trace st ++ [HttpPut (quiz_url quizId) args])%list /\
    studentsQA st' = studentsQA st /\ quizIds st' = quizIds st.
Proof. eexists _, _. repeat split; reflexivity. Qed.

Lemma createQuiz_posted st version entry quizArgs :
  lookup_entry (studentsQA st) version = Some entry ->
  quizArgs_of entry = Ok quizArgs ->
  createQuiz version st
  = let reply := server (trace st
      ++ [ConsoleLog ("Creating quiz for version " ++ version);
        HttpPost quizzes_url quizArgs])%list in
    (if negb (statusCode reply.2 =? 200)%Z
      then emit (ConsoleError ("Failed to create quiz for version " ++ version))
      else
        quizId ← try (prop reply.1 "id");
        assignmentId ← try (prop reply.1 "assignment_id");
        match get entry "id" with
        | VArr _ =>
          push_quizIds (to_string assignmentId ++ "|" ++ to_string quizId ++ "|"
            ++ to_string (get entry "id")) ;;
          addQuestions server quizId entry ;;
          addOverride version assignmentId (get entry "id") ;;
          publishQuiz server quizId
        | _ => crash "TypeError: canvasStudentIds.join is not a function"
        end) (posted version quizArgs st).
Proof.
  intros Hentry Hargs. unfold CreateTest.createQuiz. rewrite Hentry.
  unfold mbind at 1, action_bind at 1, bind at 1. rewrite Hargs.
  cbn [try ret]. unfold mbind at 1, action_bind at 1, bind at 1.
  cbn [emit]. unfold mbind at 1, action_bind at 1, bind at 1.
  cbn [CreateTest.request record_event trace]. rewrite <- app_assoc. reflexivity.
Qed.

(** X16. When the POST that creates the quiz of a version is answered
    with status 200 and an object, and the version has its four question
    texts and a list of student ids, the script records the line of the
    quiz in [quizIds] and sends, in this order: the four question POSTs,
    one assignment override POST, whose arguments list exactly the student
    ids assigned to the version, and the PUT that publishes the quiz.  The
    quiz is published also when the override is refused. *)
Theorem created_quiz_gets_questions_override_and_publication
  st version entry ids quizArgs data resp :
  lookup_entry (studentsQA st) version = Some entry ->
  get entry "id" = VArr ids ->
  Forall (fun key => exists text, get entry key = VStr text) ["q1q"; "q2q"; "q3q"; "q4q"] ->
  quizArgs_of entry = Ok quizArgs ->
  server (trace st
    ++ [ConsoleLog ("Creating quiz for version " ++ version);
      HttpPost quizzes_url quizArgs])%list = (VObj data, resp) ->
  statusCode resp = 200%Z ->
  exists st' overrideArgs,
    createQuiz version st = Continue tt st' /\
    requests (trace st')
    = (requests (trace st)
      ++ ("POST", quizzes_url)
      :: replicate 4
        ("POST", questions_url (get data "id"))
      ++ [("POST", overrides_url (get data "assignment_id"));
        ("PUT", quiz_url (get data "id"))])%list /\
    newOverrideArgs (VStr START_DATE) (VStr LOCK_AND_DUE_DATE) (VArr ids) util
    = Ok overrideArgs /\
    HttpPost (overrides_url (get data "assignment_id")) overrideArgs ∈ trace st' /\
    quizIds st'
    = (quizIds st
      ++ [(to_string (get data "assignment_id") ++ "|" ++ to_string (get data "id")
            ++ "|" ++ to_string (VArr ids))%string])%list /\
    studentsQA st' = studentsQA st.
Proof.
  intros Hentry Hids Htexts Hargs Hreply Hstatus.
  rewrite (createQuiz_posted st version entry quizArgs Hentry Hargs).
  cbv zeta. rewrite Hreply. cbn [fst snd]. rewrite Hstatus. cbn [Z.eqb negb Pos.eqb].
  unfold mbind at 1, action_bind at 1, bind at 1. cbn [prop try ret].
  unfold mbind at 1, action_bind at 1, bind at 1. cbn [prop try ret].
  rewrite Hids.
  unfold mbind at 1, action_bind at 1, bind at 1. cbn [push_quizIds].
  set (st1 := {| studentsQA := _; quizIds := _; trace := _ |}).
  unfold mbind at 1, action_bind at 1, bind at 1.
  destruct (addQuestions_posts (get data "id") entry st1 Htexts)
    as (st2 & -> & Hreq2 & Hqa2 & Hquiz2).
  unfold mbind at 1, action_bind at 1, bind at 1.
  destruct (addOverride_posts version (get data "assignment_id") (VArr ids) st2)
    as (overrideArgs & st3 & Hover & -> & Hin3 & Hreq3 & Hqa3 & Hquiz3).
  destruct (publishQuiz_puts (get data "id") st3)
    as (st4 & args & -> & Htrace4 & Hqa4 & Hquiz4).
  exists st4, overrideArgs. split; [reflexivity|].
  split; [|split; [exact Hover|split; [|split]]].
  - rewrite Htrace4, requests_snoc, Hreq3, Hreq2. subst st1. unfold posted.
    cbn [record_event trace].
    rewrite !requests_snoc, <- !app_assoc. reflexivity.
  - rewrite Htrace4. apply elem_of_app. now left.
  - rewrite Hquiz4, Hquiz3, Hquiz2. reflexivity.
  - rewrite Hqa4, Hqa3, Hqa2. reflexivity.
Qed.

(** X17. A version to which no student was assigned has no list of
    student ids.  When the quiz of such a version is created (status 200),
    joining the missing list throws: the script ends with the uncaught type
    error right after the creating POST, the quiz is left without
    questions, override and publication, and the versions after it get no
    quiz. *)
Theorem version_without_students_stops_the_script
  st before version after st1 entry quizArgs data resp :
  keys (studentsQA st) = (before ++ version :: after)%list ->
  each createQuiz before st = Continue tt st1 ->
  lookup_entry (studentsQA st) version = Some entry ->
  (forall ids, get entry "id" <> VArr ids) ->
  quizArgs_of entry = Ok quizArgs ->
  server (trace st1
    ++ [ConsoleLog ("Creating quiz for version " ++ version);
      HttpPost quizzes_url quizArgs])%list = (VObj data, resp) ->
  statusCode resp = 200%Z ->
  exists st2 msg,
    createQuiz version st1 = Stop st2 /\
    trace st2
    = (trace st1
      ++ [ConsoleLog ("Creating quiz for version " ++ version);
        HttpPost quizzes_url quizArgs; Uncaught msg])%list /\
    quizIds st2 = quizIds st1 /\
    createQuizzes st = Stop st2.
Proof.
  intros Hkeys Hbefore Hentry Hids Hargs Hreply Hstatus.
  assert (Hqa : studentsQA st1 = studentsQA st).
  { eapply (CreateTestProofs.keeps_each createQuiz before);
      [apply CreateTestProofs.keeps_createQuiz | exact Hbefore]. }
  assert (Hrun : createQuiz version st1
      = Stop (record_event (Uncaught "TypeError: canvasStudentIds.join is not a function")
        (posted version quizArgs st1))).
  { rewrite <- Hqa in Hentry.
    rewrite (createQuiz_posted st1 version entry quizArgs Hentry Hargs).
    cbv zeta. rewrite Hreply. cbn [fst snd]. rewrite Hstatus. cbn [Z.eqb negb Pos.eqb].
    unfold mbind at 1, action_bind at 1, bind at 1. cbn [prop try ret].
    unfold mbind at 1, action_bind at 1, bind at 1. cbn [prop try ret].
    destruct (get entry "id"); try reflexivity. now destruct (Hids items). }
  eexists _, _. split; [exact Hrun|]. split; [|split].
  - unfold posted, record_event. cbn [trace]. rewrite <- !app_assoc. reflexivity.
  - reflexivity.
  - unfold CreateTest.createQuizzes, CreateTest.createQuizzes_over. rewrite Hkeys.
    unfold mbind at 1, action_bind at 1, bind at 1.
    rewrite CreateTestProofs.each_app, Hbefore. cbn [each].
    unfold mbind at 1, action_bind at 1, bind at 1. now rewrite Hrun.
Qed.

(** *** Questions *)

Lemma addQuestions_over url entry (numbers : list nat) st :
  Forall (fun i => exists text, get entry (question_key i) = VStr text) numbers ->
  exists st',
    each (addQuestion server url entry) numbers st = Continue tt st' /\
    requests (trace st')
    = (requests (trace st) ++ replicate (length numbers) ("POST", url))%list /\
    error_lines (trace st') = error_lines (trace st) /\
    studentsQA st' = studentsQA st /\ quizIds st' = quizIds st.
Proof.
  intros Htexts. revert st.
  induction Htexts as [|i numbers [text Htext] _ IH]; intros st.
  - exists st. cbn [each length replicate]. rewrite app_nil_r. repeat split.
  - destruct (addQuestion_posts url entry i text st Htext) as [args Hrun].
    destruct (IH (record_event (HttpPost url args) st))
      as (st' & Hrest & Hreq & Herr & Hqa & Hquiz).
    exists st'. cbn [each]. unfold mbind at 1, action_bind at 1, bind at 1.
    rewrite Hrun. split; [exact Hrest|]. unfold record_event in *.
    cbn [trace studentsQA quizIds] in *.
    split; [|split; [|split; assumption]].
    + rewrite Hreq, requests_snoc, <- app_assoc. reflexivity.
    + rewrite Herr. unfold error_lines. rewrite omap_app. apply app_nil_r.
Qed.

(** X18. The check of the QA object does not look for the question
    texts.  When a version lacks the text of one of its questions, the
    quiz is created and the questions before the missing one are added;
    reading the missing text then throws, and the script ends with the
    uncaught type error: the quiz keeps the questions added so far and is
    neither assigned nor published. *)
Theorem missing_question_text_stops_the_script
  st version entry ids quizArgs data resp before i after :
  lookup_entry (studentsQA st) version = Some entry ->
  get entry "id" = VArr ids ->
  seq STARTING_Q_NUMBER NUMBER_OF_QUESTIONS_PER_QUIZ = (before ++ i :: after)%list ->
  Forall (fun j => exists text, get entry (question_key j) = VStr text) before ->
  (forall text, get entry (question_key i) <> VStr text) ->
  quizArgs_of entry = Ok quizArgs ->
  server (trace st
    ++ [ConsoleLog ("Creating quiz for version " ++ version);
      HttpPost quizzes_url quizArgs])%list = (VObj data, resp) ->
  statusCode resp = 200%Z ->
  exists st' msg,
    createQuiz version st = Stop st' /\
    requests (trace st')
    = (requests (trace st)
      ++ ("POST", quizzes_url)
      :: replicate (length before) ("POST", questions_url (get data "id")))%list /\
    last (trace st') = Some (Uncaught msg).
Proof.
  intros Hentry Hids Hsplit Htexts Hmissing Hargs Hreply Hstatus.
  rewrite (createQuiz_posted st version entry quizArgs Hentry Hargs).
  cbv zeta. rewrite Hreply. cbn [fst snd]. rewrite Hstatus. cbn [Z.eqb negb Pos.eqb].
  unfold mbind at 1, action_bind at 1, bind at 1. cbn [prop try ret].
  unfold mbind at 1, action_bind at 1, bind at 1. cbn [prop try ret].
  rewrite Hids.
  unfold mbind at 1, action_bind at 1, bind at 1. cbn [push_quizIds].
  set (st1 := {| studentsQA := _; quizIds := _; trace := _ |}).
  unfold mbind at 1, action_bind at 1, bind at 1.
  unfold addQuestions. rewrite Hsplit, CreateTestProofs.each_app.
  destruct (addQuestions_over (questions_url (get data "id")) entry before st1 Htexts)
    as (st2 & Hrun & Hreq & _).
  change (DOMAIN ++ "/api/v1/courses/" ++ string_of_Z COURSE_ID ++ "/quizzes/"
      ++ to_string (get data "id") ++ "/questions") with (questions_url (get data "id")).
  rewrite Hrun. cbn [each]. unfold mbind at 1, action_bind at 1, bind at 1.
  assert (Hcrash : addQuestion server (questions_url (get data "id")) entry i st2
      = Stop (record_event (Uncaught "TypeError: question text has no replace method") st2)).
  { unfold addQuestion. fold (question_key i).
    destruct (get entry (question_key i)); try reflexivity. now destruct (Hmissing s). }
  rewrite Hcrash. eexists _, _. split; [reflexivity|]. unfold record_event.
  cbn [trace]. split; [|apply last_snoc].
  rewrite requests_snoc, Hreq. subst st1. unfold posted, record_event. cbn [trace].
  rewrite !requests_snoc, <- !app_assoc. cbn [requests omap request_line app].
  now rewrite app_nil_r.
Qed.

(** *** Refusals *)

Lemma createQuiz_refused st version :
  (forall history, statusCode (server history).2 <> 200%Z) ->
  version ∈ keys (studentsQA st) ->
  exists st',
    createQuiz version st = Continue tt st' /\
    requests (trace st') = (requests (trace st) ++ [("POST", quizzes_url)])%list /\
    error_lines (trace st')
    = (error_lines (trace st) ++ [("Failed to create quiz for version " ++ version)%string])%list /\
    studentsQA st' = studentsQA st /\ quizIds st' = quizIds st.
Proof.
  intros Hrefuse Hversion.
  destruct (CreateTestProofs.lookup_entry_keys _ _ Hversion) as [entry Hentry].
  destruct (CreateTestProofs.quizArgs_of_Ok entry) as [quizArgs Hargs].
  rewrite (createQuiz_posted st version entry quizArgs Hentry Hargs). cbv zeta.
  specialize (Hrefuse (trace st
      ++ [ConsoleLog ("Creating quiz for version " ++ version);
        HttpPost quizzes_url quizArgs])%list).
  apply Z.eqb_neq in Hrefuse. rewrite Hrefuse. cbn [negb].
  eexists. split; [reflexivity|]. unfold posted, record_event.
  cbn [trace studentsQA quizIds]. split; [|split; [|split; reflexivity]].
  - rewrite !requests_snoc. cbn [requests omap request_line].
    now rewrite !app_nil_r.
  - unfold error_lines. rewrite !omap_app. cbn [omap error_line].
    now rewrite !app_nil_r.
Qed.

Lemma createQuizzes_refused versions st :
  (forall history, statusCode (server history).2 <> 200%Z) ->
  Forall (fun version => version ∈ keys (studentsQA st)) versions ->
  exists st',
    each createQuiz versions st = Continue tt st' /\
    requests (trace st')
    = (requests (trace st) ++ replicate (length versions) ("POST", quizzes_url))%list /\
    error_lines (trace st')
    = (error_lines (trace st)
      ++ map (fun version => ("Failed to create quiz for version " ++ version)%string) versions)%list /\
    studentsQA st' = studentsQA st /\ quizIds st' = quizIds st.
Proof.
  intros Hrefuse Hversions. revert st Hversions.
  induction versions as [|version versions IH]; intros st Hversions.
  - exists st. cbn [each length replicate map]. rewrite !app_nil_r. repeat split.
  - apply Forall_cons in Hversions as [Hversion Hversions].
    destruct (createQuiz_refused st version Hrefuse Hversion)
      as (st1 & Hrun & Hreq & Herr & Hqa & Hquiz).
    destruct (IH st1) as (st' & Hrest & Hreq' & Herr' & Hqa' & Hquiz').
    { now rewrite Hqa. }
    exists st'. cbn [each]. unfold mbind at 1, action_bind at 1, bind at 1.
    rewrite Hrun. split; [exact Hrest|].
    split; [|split; [|split; congruence]].
    + rewrite Hreq', Hreq, <- app_assoc. reflexivity.
    + rewrite Herr', Herr, <- app_assoc. reflexivity.
Qed.

(** X19. When the server answers no request with status 200, one
    creating POST is sent for every version, each failure is written with
    [console.error], no line is added to [quizIds], and the script still
    ends by printing that all quizzes are created before it exits. *)
Theorem refused_creations_still_end_with_all_quizzes_created st :
  (forall history, statusCode (server history).2 <> 200%Z) ->
  exists st',
    createQuizzes st = Stop st' /\
    requests (trace st')
    = (requests (trace st)
      ++ replicate (length (keys (studentsQA st))) ("POST", quizzes_url))%list /\
    error_lines (trace st')
    = (error_lines (trace st)
      ++ map (fun version => ("Failed to create quiz for version " ++ version)%string)
        (keys (studentsQA st)))%list /\
    quizIds st' = quizIds st /\
    (exists events,
        trace st' = (events ++ [ConsoleLog "All quizzes created."; ProcessExit])%list).
Proof.
  intros Hrefuse.
  destruct (createQuizzes_refused (keys (studentsQA st)) st Hrefuse)
    as (st1 & Hrun & Hreq & Herr & Hqa & Hquiz).
  { now apply Forall_forall. }
  unfold CreateTest.createQuizzes, CreateTest.createQuizzes_over.
  unfold mbind at 1, action_bind at 1, bind at 1. rewrite Hrun.
  eexists. split; [reflexivity|]. unfold record_event. cbn [trace quizIds].
  split; [|split; [|split; [exact Hquiz|]]].
  - rewrite !requests_snoc, Hreq. cbn [requests omap request_line].
    now rewrite !app_nil_r.
  - unfold error_lines in *. rewrite !omap_app, Herr. cbn [omap error_line].
    now rewrite !app_nil_r.
  - exists (trace st1). now rewrite <- app_assoc.
Qed.

(** X20. The user listing is not checked for its status: when the reply
    to the first GET is not an array (the body of a refusal, for one), the
    script ends with an uncaught type error before any quiz is created. *)
Theorem refused_user_listing_stops_the_script pages qaFile studentsFileUrls args :
  errors (checkTruthy (merge_all qaFile studentsFileUrls)) = None ->
  standardArgs util = Ok args ->
  (forall users, (server [HttpGet users_url args]).1 <> VArr users) ->
  exists st msg,
    main (S pages) qaFile studentsFileUrls = Stop st /\
    trace st = [HttpGet users_url args; Uncaught msg] /\
    studentsQA st = merge_all qaFile studentsFileUrls.
Proof.
  intros Hcheck Hargs Hreply. unfold CreateTest.main. cbn [studentsQA]. rewrite Hcheck.
  cbn [CreateTest.getCanvasUserIds]. unfold mbind at 1, action_bind at 1, bind at 1.
  rewrite Hargs. cbn [try ret].
  unfold mbind at 1, action_bind at 1, bind at 1.
  cbn [CreateTest.request record_event trace app].
  unfold mbind at 1, action_bind at 1, bind at 1. unfold forEach_assign.
  destruct ((server [HttpGet users_url args]).1) as [| | | | |users|] eqn:Hdata;
    try (eexists _, _; repeat split; reflexivity).
  now destruct (Hreply users).
Qed.

End Process.

Lemma created_quiz_gets_questions_override_and_publication_witness :
  exists st',
    createQuiz "2024-12-25T05:00:00.000Z" "2024-12-25T07:00:00.000Z" RunExamples.accepting
      "iG6Zp4WDF" RunExamples.assigned = Continue tt st' /\
    requests (trace st')
    = [("POST", quizzes_url);
        ("POST", questions_url (VNum 7)); ("POST", questions_url (VNum 7));
        ("POST", questions_url (VNum 7)); ("POST", questions_url (VNum 7));
        ("POST", overrides_url (VNum 70)); ("PUT", quiz_url (VNum 7))] /\
    quizIds st' = ["assignmentId|quizId|canvasStudentIds"; "70|7|11,14"].
Proof.
  edestruct (created_quiz_gets_questions_override_and_publication
      "2024-12-25T05:00:00.000Z" "2024-12-25T07:00:00.000Z" RunExamples.accepting
      RunExamples.assigned "iG6Zp4WDF" RunExamples.assigned_entry [VNum 11; VNum 14])
    as (st' & overrideArgs & Hrun & Hreq & _ & _ & Hquiz & _).
  - reflexivity.
  - reflexivity.
  - repeat constructor; eexists; reflexivity.
  - vm_compute. reflexivity.
  - reflexivity.
  - reflexivity.
  - exists st'. split; [exact Hrun|]. split; [exact Hreq | exact Hquiz].
Defined.

Lemma version_without_students_stops_the_script_witness :
  exists st2,
    createQuizzes "2024-12-25T05:00:00.000Z" "2024-12-25T07:00:00.000Z"
      RunExamples.accepting Examples.start = Stop st2 /\
    quizIds st2 = ["assignmentId|quizId|canvasStudentIds"].
Proof.
  edestruct (version_without_students_stops_the_script
      "2024-12-25T05:00:00.000Z" "2024-12-25T07:00:00.000Z" RunExamples.accepting
      Examples.start [] "iG6Zp4WDF" ["Z8lZJChRtn"; "F29R1ibztX"] Examples.start)
    as (st2 & msg & _ & _ & Hquiz & Hrun).
  - reflexivity.
  - reflexivity.
  - reflexivity.
  - intros ids H. discriminate H.
  - vm_compute. reflexivity.
  - reflexivity.
  - reflexivity.
  - exists st2. split; [exact Hrun | exact Hquiz].
Defined.

Lemma missing_question_text_stops_the_script_witness :
  exists st',
    createQuiz "2024-12-25T05:00:00.000Z" "2024-12-25T07:00:00.000Z" RunExamples.accepting
      "iG6Zp4WDF" RunExamples.incomplete = Stop st' /\
    requests (trace st')
    = [("POST", quizzes_url);
        ("POST", questions_url (VNum 7)); ("POST", questions_url (VNum 7))].
Proof.
  edestruct (fun quizArgs data resp => missing_question_text_stops_the_script
      "2024-12-25T05:00:00.000Z" "2024-12-25T07:00:00.000Z" RunExamples.accepting
      RunExamples.incomplete "iG6Zp4WDF" RunExamples.incomplete_entry [VNum 11]
      quizArgs data resp [1; 2] 3 [4])
    as (st' & msg & Hrun & Hreq & _).
  - reflexivity.
  - reflexivity.
  - reflexivity.
  - repeat constructor; eexists; reflexivity.
  - intros text H. discriminate H.
  - vm_compute. reflexivity.
  - reflexivity.
  - reflexivity.
  - exists st'. split; [exact Hrun | exact Hreq].
Defined.

Lemma refused_creations_still_end_with_all_quizzes_created_witness :
  exists st',
    createQuizzes "2024-12-25T05:00:00.000Z" "2024-12-25T07:00:00.000Z"
      Examples.refusing Examples.start = Stop st' /\
    error_lines (trace st')
    = ["Failed to create quiz for version iG6Zp4WDF";
        "Failed to create quiz for version Z8lZJChRtn";
        "Failed to create quiz for version F29R1ibztX"] /\
    quizIds st' = ["assignmentId|quizId|canvasStudentIds"].
Proof.
  destruct (refused_creations_still_end_with_all_quizzes_created
      "2024-12-25T05:00:00.000Z" "2024-12-25T07:00:00.000Z" Examples.refusing
      Examples.start)
    as (st' & Hrun & _ & Herr & Hquiz & _).
  - intros history H. discriminate H.
  - exists st'. split; [exact Hrun|]. split; [exact Herr | exact Hquiz].
Defined.

Lemma refused_user_listing_stops_the_script_witness :
  exists st,
    main "2024-12-25T05:00:00.000Z" "2024-12-25T07:00:00.000Z" Examples.refusing 1
      Examples.qa Examples.fileUrls = Stop st /\
    requests (trace st) = [("GET", users_url)].
Proof.
  edestruct (refused_user_listing_stops_the_script
      "2024-12-25T05:00:00.000Z" "2024-12-25T07:00:00.000Z" Examples.refusing 0
      Examples.qa Examples.fileUrls)
    as (st & msg & Hrun & Htrace & _).
  - vm_compute. reflexivity.
  - vm_compute. reflexivity.
  - intros users H. discriminate H.
  - exists st. split; [exact Hrun|]. rewrite Htrace. reflexivity.
Defined.

End CreateTestRuns.

(** ** Further properties of the zip script *)

Module ZipLaws.
Import Js Zip ZipOrder.

Lemma indexed_drop (collection : list string) n key hash rest :
  drop n (indexed collection) = (key, hash) :: rest ->
  key = n /\ collection !! n = Some hash /\ rest = drop (S n) (indexed collection).
Proof.
  intros Hdrop.
  assert (Hlook : indexed collection !! n = Some (key, hash)).
  { rewrite <- (Nat.add_0_r n), <- lookup_drop, Hdrop. reflexivity. }
  rewrite (drop_S _ _ _ Hlook) in Hdrop. injection Hdrop as <-.
  unfold indexed in Hlook. apply lookup_zip_Some in Hlook as [Hseq Hhash].
  apply lookup_seq in Hseq as [-> _]. auto.
Qed.

Lemma remove_key_sorted key (archives : list (nat * string)) :
  StronglySorted lt (map fst archives) ->
  StronglySorted lt (map fst (remove_key key archives)).
Proof.
  unfold remove_key. induction archives as [|[k h] archives IH]; intros Hs;
    [constructor|].
  simpl in Hs. apply StronglySorted_inv in Hs as [Hs Hk]. rewrite filter_cons.
  destruct (decide ((k, h).1 <> key)); [|now apply IH].
  simpl. constructor; [now apply IH|].
  rewrite Forall_forall in *. intros x Hx. apply Hk.
  apply list_elem_of_fmap in Hx as (a & -> & Ha).
  apply list_elem_of_filter in Ha as [_ Ha]. apply list_elem_of_fmap. eauto.
Qed.

Lemma remove_key_below key n (archives : list (nat * string)) :
  Forall (fun archive => archive.1 < n) archives ->
  Forall (fun archive => archive.1 < n) (remove_key key archives).
Proof.
  unfold remove_key. rewrite !Forall_forall. intros Hall a Ha.
  apply list_elem_of_filter in Ha as [_ Ha]. auto.
Qed.

Section EachLimit.

Variable HASHES : list string.
Variable generate : nat -> string.

Local Abbreviation script := (script HASHES).
Local Abbreviation reachable := (reachable HASHES generate).
Local Abbreviation closeStream := (closeStream generate).
Local Abbreviation started := (started HASHES).

(** The loop of [replenish] starts the waiting elements in their order. *)
Lemma replenish_loop_started elems st n :
  elems = drop n (indexed HASHES) ->
  Forall (fun archive => archive.1 < n) (open st) ->
  StronglySorted lt (map fst (open st)) ->
  (done st = true -> elems = []) ->
  (running st <= NUM_VERSIONS)%Z ->
  exists n', started n' (replenish_loop NUM_VERSIONS elems st).
Proof.
  revert st n. induction elems as [|[key hash] rest IH];
    intros st n Helems Hbelow Hsorted Hdone Hbound; cbn [replenish_loop];
    destruct ((running st <? NUM_VERSIONS)%Z && negb (done st)) eqn:Hcond.
  - exists n. cbn zeta. cbn [running].
    destruct (running st <=? 0)%Z; unfold ZipOrder.started, allZipped;
      cbn [pending open running]; repeat split; auto; congruence.
  - exists n. unfold ZipOrder.started. cbn [pending open running].
    repeat split; auto; congruence.
  - apply andb_true_iff in Hcond as [Hlt Hnd]. apply Z.ltb_lt in Hlt.
    symmetry in Helems. apply indexed_drop in Helems as (-> & _ & ->).
    apply (IH _ (S n)); unfold startArchive; cbn [pending open running done].
    + reflexivity.
    + apply Forall_app. split; [|repeat constructor; simpl; lia].
      eapply Forall_impl; [exact Hbelow|]. simpl. lia.
    + rewrite map_app. apply StronglySorted_app_2; [|exact Hsorted|repeat constructor].
      intros x1 x2 H1 H2. apply list_elem_of_singleton in H2 as ->.
      apply list_elem_of_fmap in H1 as (a & -> & Ha).
      rewrite Forall_forall in Hbelow. now apply Hbelow.
    + intros Hd. apply negb_true_iff in Hnd. congruence.
    + lia.
  - exists n. unfold ZipOrder.started. cbn [pending open running].
    repeat split; auto. intros _.
    apply andb_false_iff in Hcond as [Hge|Hd].
    + apply Z.ltb_ge in Hge. lia.
    + apply negb_false_iff in Hd. now specialize (Hdone Hd).
Qed.

Lemma reachable_started st : reachable st -> exists n, started n st.
Proof.
  induction 1 as [|st key hash Hreach [n IH] Hexit Hin|st key hash err Hreach [n IH] Hexit Hin].
  - unfold Zip.script, eachLimit, replenish. cbn [Z.leb NUM_VERSIONS Z.compare].
    apply (replenish_loop_started _ _ 0); cbn [pending open running done];
      try reflexivity; try constructor; discriminate.
  - destruct (ZipProofs.reachable_invariant HASHES generate st Hreach)
      as (Hrun & Hbound & Hperm & Hdone & Hlive & _).
    destruct (Hlive Hexit) as (_ & Hlooping & _).
    destruct IH as (Hpending & Hbelow & Hsorted & Hfull).
    unfold Zip.closeStream, iterateeCallback.
    cbn [running open closed pending done exited looping output].
    destruct (done st && (running st - 1 <=? 0)%Z) eqn:Hlast.
    + apply andb_true_iff in Hlast as [Hd _]. exists n.
      unfold ZipOrder.started, allZipped. cbn [pending open running].
      repeat split; auto using remove_key_below, remove_key_sorted.
      intros Hne. now specialize (Hdone Hd).
    + destruct (looping st) eqn:Hloop; cbn [negb].
      * assert (Hd : done st = true)
          by (destruct (done st); [reflexivity | now specialize (Hlooping eq_refl)]).
        exists n. unfold ZipOrder.started. cbn [pending open running].
        repeat split; auto using remove_key_below, remove_key_sorted.
        intros Hne. now specialize (Hdone Hd).
      * unfold replenish. cbn [running open closed pending done exited looping output].
        apply (replenish_loop_started _ _ n);
          cbn [pending open running done];
          auto using remove_key_below, remove_key_sorted. lia.
  - exists n. exact IH.
Qed.

(** X21. The archives are started in the order of [HASHES], and as many
    at a time as the limit allows: between two events the elements still
    waiting are the last ones of [HASHES], those closed or being written
    are the first ones, the archives being written are listed in the order
    of [HASHES], and while an element is waiting exactly [NUM_VERSIONS]
    archives are being written. *)
Theorem archives_start_in_order_and_fill_the_limit st :
  reachable st ->
  (exists n,
      pending st = drop n (indexed HASHES) /\
      (closed st ++ open st)%list ≡ₚ take n (indexed HASHES)) /\
  StronglySorted lt (map fst (open st)) /\
  (pending st <> [] -> Z.of_nat (length (open st)) = NUM_VERSIONS).
Proof.
  intros Hreach.
  destruct (ZipProofs.reachable_invariant HASHES generate st Hreach)
    as (Hrun & _ & Hperm & _).
  destruct (reachable_started st Hreach) as (n & Hpending & _ & Hsorted & Hfull).
  split; [|split].
  - exists n. split; [exact Hpending|].
    apply (Permutation_app_inv_r (drop n (indexed HASHES))).
    rewrite take_drop, <- Hpending, <- app_assoc. exact Hperm.
  - exact Hsorted.
  - intros Hne. rewrite <- Hrun. now apply Hfull.
Qed.

(** What the first call of [replenish] leaves. *)
Lemma replenish_loop_first elems st :
  done st = false -> exited st = false ->
  running st = Z.of_nat (length (open st)) ->
  (running st <= NUM_VERSIONS)%Z ->
  open (replenish_loop NUM_VERSIONS elems st)
  = (open st ++ take (Z.to_nat (NUM_VERSIONS - running st)) elems)%list /\
  pending (replenish_loop NUM_VERSIONS elems st)
  = drop (Z.to_nat (NUM_VERSIONS - running st)) elems /\
  closed (replenish_loop NUM_VERSIONS elems st) = closed st /\
  (exited (replenish_loop NUM_VERSIONS elems st) = true
    <-> elems = [] /\ running st = 0%Z).
Proof.
  revert st. induction elems as [|[key hash] rest IH];
    intros st Hdone Hexit Hrun Hbound; cbn [replenish_loop]; rewrite Hdone;
    cbn [negb]; rewrite andb_true_r;
    destruct (Z.ltb_spec (running st) NUM_VERSIONS) as [Hlt|Hge].
  - cbn zeta. cbn [running]. rewrite take_nil, drop_nil, app_nil_r.
    destruct (Z.leb_spec (running st) 0) as [Hzero|Hpos]; unfold allZipped;
      cbn [pending open closed exited].
    + repeat split; auto. lia.
    + rewrite Hexit. repeat split; auto; [discriminate | lia].
  - cbn [pending open closed exited]. rewrite take_nil, drop_nil, app_nil_r, Hexit.
    repeat split; auto; [discriminate | unfold NUM_VERSIONS in *; lia].
  - set (st1 := startArchive key hash _).
    assert (Hrun1 : running st1 = (running st + 1)%Z) by reflexivity.
    assert (Hopen1 : open st1 = (open st ++ [(key, hash)])%list) by reflexivity.
    assert (Hclosed1 : closed st1 = closed st) by reflexivity.
    destruct (IH st1) as (Hopen & Hpending & Hclosed & Hexited);
      [reflexivity | exact Hexit | | lia |].
    { rewrite Hrun1, Hopen1, length_app. simpl. lia. }
    rewrite Hopen, Hpending, Hclosed, Hexited, Hrun1, Hopen1, Hclosed1.
    replace (Z.to_nat (NUM_VERSIONS - running st))
      with (S (Z.to_nat (NUM_VERSIONS - (running st + 1)))) by lia.
    cbn [take drop]. rewrite <- app_assoc.
    split; [reflexivity|]. split; [reflexivity|]. split; [reflexivity|].
    split; [intros [_ H]; lia | intros [H _]; discriminate H].
  - cbn [pending open closed exited].
    replace (Z.to_nat (NUM_VERSIONS - running st)) with 0 by lia.
    rewrite take_0, drop_0, app_nil_r, Hexit.
    repeat split; auto; try discriminate. intros [H _]. discriminate H.
Qed.

(** X22. When the script starts, the first [NUM_VERSIONS] elements of
    [HASHES] (all of them when there are fewer) are handed to the iteratee
    at once, in their order, and the others wait; without any element the
    script reports success and exits at once. *)
Theorem the_first_archives_start_at_once :
  open script = take (Z.to_nat NUM_VERSIONS) (indexed HASHES) /\
  pending script = drop (Z.to_nat NUM_VERSIONS) (indexed HASHES) /\
  closed script = [] /\
  (exited script = true <-> HASHES = []) /\
  (HASHES = [] -> last (output script) = Some ProcessExit /\ allZippedMessage ∈ output script).
Proof.
  unfold Zip.script, eachLimit, replenish. cbn [Z.leb NUM_VERSIONS Z.compare].
  cbn [pending open closed running done exited looping output].
  match goal with
  | |- context [replenish_loop _ _ ?st] =>
    destruct (replenish_loop_first (indexed HASHES) st)
      as (Hopen & Hpending & Hclosed & Hexited); try reflexivity
  end.
  { cbn [running]. unfold NUM_VERSIONS. lia. }
  cbn [running open closed] in *. rewrite Z.sub_0_r in *.
  split; [exact Hopen|]. split; [exact Hpending|]. split; [exact Hclosed|]. split.
  - rewrite Hexited. unfold indexed. split.
    + intros [H _]. destruct HASHES; [reflexivity | discriminate H].
    + intros ->. now split.
  - intros ->. split; [reflexivity|]. vm_compute. do 7 right. left.
Qed.

End EachLimit.

Lemma archives_start_in_order_and_fill_the_limit_witness :
  map fst (open ZipOrderExamples.second_closed) = [0; 2; 3] /\
  Z.of_nat (length (open ZipOrderExamples.second_closed)) = NUM_VERSIONS.
Proof.
  split; [reflexivity|].
  apply (archives_start_in_order_and_fill_the_limit ZipOrderExamples.five
      ZipExamples.generate ZipOrderExamples.second_closed).
  - apply reach_close; [apply reach_script | reflexivity |].
    right. left.
  - discriminate.
Defined.

End ZipLaws.
